(** * Boundary scanner of [split_jpeg.py]

    A shallow embedding of [parse_one_jpeg] (the record scanner) and of
    [split_concatenated_jpegs] (the blob splitter), followed by the
    properties of the scanner that the specification states.

    Conventions of the embedding:
    - a Python [bytes] object is a [list byte]; offsets and lengths are
      Python integers, hence [Z];
    - indexing and slicing follow Python: a negative offset counts from the
      end, an offset out of range raises [IndexError], a slice clamps;
    - a Python exception is a value of [exn]; the six [ValueError]s the
      source raises are told apart by their message;
    - the two [while] loops are iterated by a [nat] of fuel; the theorems
      below show that fuel equal to the blob length is always enough. *)

From Stdlib Require Import ZArith List Bool Lia.
From Stdlib Require Import Init.Byte Strings.Byte.
From Stdlib Require String Ascii DecimalString HexadecimalString.
Import String.StringSyntax.
Import ListNotations.
Open Scope Z_scope.
Open Scope string_scope.

(** ** Python bytes *)

Definition bytes := list byte.

Definition len (data : bytes) : Z := Z.of_nat (length data).

(** The integer value of a byte, as [data[i]] yields it. *)
Definition ord (b : byte) : Z := Z.of_N (Byte.to_N b).

(** Exceptions.  [msg] enumerates the messages of the [ValueError]s raised
    in [parse_one_jpeg], in source order. *)
Inductive msg :=
| NotAtSOI                 (* "start is not at SOI" *)
| TruncatedSOSLength       (* "Truncated SOS length" *)
| BadSOSSeglen             (* "Bad SOS seglen" *)
| TruncatedSegmentLength   (* "Truncated segment length" *)
| BadSegmentSeglen         (* "Bad segment seglen" *)
| EOINotFound.             (* "EOI not found for JPEG starting at ..." *)

Inductive exn :=
| ValueError (m : msg)
| IndexError               (* [data[i]] with [i] out of range *)
| StructError.             (* [struct.unpack(">H", b)] with [len(b) <> 2] *)

(** The error taxonomy of the specification, and the messages of the source
    that belong to each kind. *)
Inductive error_kind :=
| PreconditionViolated
| TruncatedSegment
| InvalidSegmentLength
| UnterminatedRecord.

Definition kind_of (m : msg) : error_kind :=
  match m with
  | NotAtSOI => PreconditionViolated
  | TruncatedSOSLength | TruncatedSegmentLength => TruncatedSegment
  | BadSOSSeglen | BadSegmentSeglen => InvalidSegmentLength
  | EOINotFound => UnterminatedRecord
  end.

(** [data[i]]. *)
Definition index (data : bytes) (i : Z) : option byte :=
  let n := len data in
  if (0 <=? i) && (i <? n) then nth_error data (Z.to_nat i)
  else if (- n <=? i) && (i <? 0) then nth_error data (Z.to_nat (n + i))
  else None.

(** A slice bound, normalised as Python does: a negative bound counts from
    the end, and the result is clamped to [0 .. n]. *)
Definition clamp (n k : Z) : Z :=
  let k := if k <? 0 then k + n else k in
  if k <? 0 then 0 else if k >? n then n else k.

(** [data[a:b]]. *)
Definition slice (data : bytes) (a b : Z) : bytes :=
  let n := len data in
  let a := clamp n a in
  let b := clamp n b in
  firstn (Z.to_nat (b - a)) (skipn (Z.to_nat a) data).

(** ** Constants and helpers of the source *)

Definition SOI : bytes := [xff; xd8].
Definition SOS : Z := 0xDA.

(** [NO_LEN]: SOI, EOI, RST0-7, TEM. *)
Definition NO_LEN : list Z :=
  [0xD8; 0xD9] ++ map Z.of_nat (seq 0xD0 8) ++ [0x01].

(** [marker in NO_LEN]. *)
Definition mem (x : Z) (l : list Z) : bool := existsb (Z.eqb x) l.

Definition bytes_eqb (a b : bytes) : bool :=
  if list_eq_dec Byte.byte_eq_dec a b then true else false.

(** [_u16be]: [None] stands for [struct.error]. *)
Definition _u16be (b : bytes) : option Z :=
  match b with
  | [hi; lo] => Some (Z.lor (Z.shiftl (ord hi) 8) (ord lo))
  | _ => None
  end.

(** [data.find(SOI, ...)] over the suffix [l] of the blob whose first byte
    sits at offset [k]. *)
Fixpoint find_from (l : bytes) (k : Z) : Z :=
  match l with
  | a :: tl =>
      if bytes_eqb (firstn 2 l) SOI then k else find_from tl (k + 1)
  | [] => -1
  end.

(** [find_next_soi]. *)
Definition find_next_soi (data : bytes) (start : Z) : Z :=
  let k := clamp (len data) start in
  find_from (skipn (Z.to_nat k) data) k.

(** ** The record scanner *)

(** The loop variables [i] and [in_scan]. *)
Record state := { cur : Z; in_scan : bool }.

(** What one turn of the outer [while] does: go round again, [return], or
    raise. *)
Inductive outcome :=
| Next (s : state)
| Done (e : Z)
| Fail (x : exn).

(** The inner loop [while j < n and data[j] == 0xFF: j += 1].  [fuel] is
    the number of offsets left before [n]; [skip_fill] below starts it at
    [n - j], so that fuel [0] is exactly the case [j >= n]. *)
Fixpoint skip_fill_from (fuel : nat) (data : bytes) (j : Z) : option Z :=
  match fuel with
  | O => Some j
  | S fuel' =>
      if j <? len data then
        match index data j with
        | None => None
        | Some b =>
            if ord b =? 0xFF then skip_fill_from fuel' data (j + 1)
            else Some j
        end
      else Some j
  end.

(** [None] stands for [IndexError]. *)
Definition skip_fill (data : bytes) (i : Z) : option Z :=
  skip_fill_from (Z.to_nat (len data - i)) data i.

(** The loop body from [marker = data[j]] on (source lines 42-77): [j] is
    the offset of the marker byte, [marker] its value. *)
Definition handle_marker (data : bytes) (s : state) (j marker : Z)
  : outcome :=
  let n := len data in
  (* In entropy-coded scan data, stuffed 0xFF is FF 00 (not a marker) *)
  if in_scan s && (marker =? 0x00) then
    Next {| cur := j + 1; in_scan := in_scan s |}
  else
  (* Advance past marker byte *)
  let i := j + 1 in
  (* EOI *)
  if marker =? 0xD9 then Done i else
  (* Start of Scan *)
  if marker =? SOS then
    if i + 2 >? n then Fail (ValueError TruncatedSOSLength) else
    match _u16be (slice data i (i + 2)) with
    | None => Fail StructError
    | Some seglen =>
        if seglen <? 2 then Fail (ValueError BadSOSSeglen) else
        Next {| cur := i + seglen; in_scan := true |}
    end
  else
  (* Standalone markers *)
  if mem marker NO_LEN then
    Next {| cur := i; in_scan := in_scan s |}
  else
  (* All other markers have length *)
  if i + 2 >? n then Fail (ValueError TruncatedSegmentLength) else
  match _u16be (slice data i (i + 2)) with
  | None => Fail StructError
  | Some seglen =>
      if seglen <? 2 then Fail (ValueError BadSegmentSeglen) else
      Next {| cur := i + seglen; in_scan := in_scan s |}
  end.

(** One turn of [while i < n - 1].  Leaving the loop, by the test or by
    [break], reaches the final [raise]. *)
Definition step (data : bytes) (s : state) : outcome :=
  let n := len data in
  let i := cur s in
  if negb (i <? n - 1) then Fail (ValueError EOINotFound) else
  match index data i with
  | None => Fail IndexError
  | Some b =>
    if negb (ord b =? 0xFF) then
      Next {| cur := i + 1; in_scan := in_scan s |}
    else
    (* Skip fill bytes: FF FF FF ... *)
    match skip_fill data i with
    | None => Fail IndexError
    | Some j =>
      if j >=? n then Fail (ValueError EOINotFound) else
      match index data j with
      | None => Fail IndexError
      | Some mb => handle_marker data s j (ord mb)
      end
    end
  end.

(** The result of a call. *)
Inductive result :=
| Returns (e : Z)
| Raises (x : exn).

(** The outer loop; [None] only when the fuel runs out. *)
Fixpoint scan (fuel : nat) (data : bytes) (s : state) : option result :=
  match step data s with
  | Done e => Some (Returns e)
  | Fail x => Some (Raises x)
  | Next s' =>
      match fuel with
      | O => None
      | S fuel' => scan fuel' data s'
      end
  end.

(** The test [start < 0 or start + 2 > n or data[start:start+2] != SOI];
    [||] is lazy, as [or] is. *)
Definition not_at_soi (data : bytes) (start : Z) : bool :=
  (start <? 0) || (start + 2 >? len data)
  || negb (bytes_eqb (slice data start (start + 2)) SOI).

(** The loop variables on entering the loop. *)
Definition initial (start : Z) : state :=
  {| cur := start + 2; in_scan := false |}.

Definition parse_one_jpeg_fuel (fuel : nat) (data : bytes) (start : Z)
  : option result :=
  if not_at_soi data start then Some (Raises (ValueError NotAtSOI))
  else scan fuel data (initial start).

(** [parse_one_jpeg], run with as many turns as the blob has bytes. *)
Definition parse_one_jpeg (data : bytes) (start : Z) : option result :=
  parse_one_jpeg_fuel (length data) data start.

(** ** The blob splitter *)

(** A range written to [img_NNNN.jpg]: the file holds [data[soi:end]]. *)
Record ExtractedRecord := { rec_start : Z; rec_end : Z }.

(** The loop variables [pos] and [idx], and the files written so far,
    oldest first. *)
Record split_state := {
  pos : Z;
  idx : Z;
  written : list ExtractedRecord
}.

Inductive split_outcome :=
| SNext (t : split_state)
| SBreak                   (* [soi < 0] *)
| SRaise (x : exn)         (* an exception that [except ValueError] lets through *)
| SStuck.                  (* [parse_one_jpeg] out of fuel *)

(** One turn of [while True]. *)
Definition split_step (data : bytes) (t : split_state) : split_outcome :=
  let soi := find_next_soi data (pos t) in
  if soi <? 0 then SBreak else
  match parse_one_jpeg data soi with
  | None => SStuck
  | Some (Raises (ValueError _)) =>
      SNext {| pos := soi + 2; idx := idx t; written := written t |}
  | Some (Raises x) => SRaise x
  | Some (Returns e) =>
      SNext {| pos := e; idx := idx t + 1;
               written := written t ++ [{| rec_start := soi; rec_end := e |}] |}
  end.

(** The result of the splitter: the returned count and the files written. *)
Inductive split_result :=
| SplitReturns (count : Z) (files : list ExtractedRecord)
| SplitRaises (x : exn).

Fixpoint split_loop (fuel : nat) (data : bytes) (t : split_state)
  : option split_result :=
  match split_step data t with
  | SBreak => Some (SplitReturns (idx t) (written t))
  | SRaise x => Some (SplitRaises x)
  | SStuck => None
  | SNext t' =>
      match fuel with
      | O => None
      | S fuel' => split_loop fuel' data t'
      end
  end.

Definition split_start : split_state :=
  {| pos := 0; idx := 0; written := [] |}.

(** [split_concatenated_jpegs] on the bytes read from [blob_path]. *)
Definition split_concatenated_jpegs (data : bytes) : option split_result :=
  split_loop (length data) data split_start.

(** ** Vocabulary of the statements *)

(** From the cursor [i] a run of escape bytes [0xFF] reaches offset [j],
    which holds the category byte [mb]. *)
Definition marker_at (data : bytes) (i j : Z) (mb : byte) : Prop :=
  0 <= i < j
  /\ (forall k, i <= k < j -> index data k = Some xff)
  /\ index data j = Some mb /\ mb <> xff.

(** [data[k] == b], false out of range. *)
Definition holds (data : bytes) (k : Z) (b : byte) : bool :=
  match index data k with
  | Some x => Byte.eqb x b
  | None => false
  end.

(** [marker_at], decided. *)
Definition marker_atb (data : bytes) (i j : Z) (mb : byte) : bool :=
  (0 <=? i) && (i <? j)
  && forallb (fun k => holds data (i + Z.of_nat k) xff)
       (seq 0 (Z.to_nat (j - i)))
  && holds data j mb && negb (Byte.eqb mb xff).

(** The states the loop goes through from [s]. *)
Inductive reaches (data : bytes) (s : state) : state -> Prop :=
| reaches_here : reaches data s s
| reaches_next u v :
    reaches data s u -> step data u = Next v -> reaches data s v.

(** Consecutive ranges do not overlap and come in increasing order. *)
Fixpoint ordered (l : list ExtractedRecord) : Prop :=
  match l with
  | r1 :: ((r2 :: _) as tl) => rec_end r1 <= rec_start r2 /\ ordered tl
  | _ => True
  end.

(** The category bytes after which the loop reads a length field: every
    byte outside [NO_LEN], [0xDA] among them; in scan mode the zero byte is
    stuffing and is excluded. *)
Definition has_length (s : state) (mb : byte) : bool :=
  negb (mem (ord mb) NO_LEN) && negb (in_scan s && (ord mb =? 0x00)).

(** The blob of the specification's scenario. *)
Definition scenario : bytes :=
  [xff; xd8; xff; xe0; x00; x04; x01; x02; xff; xda; x00; x02;
   xaa; xff; x00; xbb; xff; xd9].

(** A start signature and a segment that declares 16 bytes where 2 are
    left. *)
Definition overlong : bytes := [xff; xd8; xff; xe0; x00; x10].

(** A start signature that nothing follows. *)
Definition dangling : bytes := [xff; xd8; x00].

(** A blob no byte of which is a start signature's. *)
Definition zeros : bytes := [x00; x00; x00; x00].

(** The outcome [f] of a call does not depend on the bytes of the blob:
    it is the same on every blob of that length.  A call that reads no byte
    of the blob is such. *)
Definition content_blind {A} (f : bytes -> A) (data : bytes) : Prop :=
  forall data', len data' = len data -> f data' = f data.

(** The outcome depends on no byte outside [offsets]. *)
Definition content_blind_except {A} (offsets : list Z) (f : bytes -> A)
  (data : bytes) : Prop :=
  forall data', len data' = len data ->
    (forall k, In k offsets -> index data' k = index data k) ->
    f data' = f data.

(** What holds of the files written, at every turn: they are ordered, lie
    before the search position, and each one starts before it ends. *)
Definition split_inv (data : bytes) (t : split_state) : Prop :=
  ordered (written t)
  /\ Forall (fun r => 0 <= rec_start r /\ rec_start r < rec_end r
                      /\ rec_end r <= pos t) (written t)
  /\ idx t = Z.of_nat (length (written t))
  /\ pos t <= len data.

(** ** A blob behind a prefix *)

(** Offsets of a blob, seen from a blob that has [k] more bytes in
    front. *)
Definition shift_state (k : Z) (s : state) : state :=
  {| cur := k + cur s; in_scan := in_scan s |}.

Definition shift_outcome (k : Z) (o : outcome) : outcome :=
  match o with
  | Next s => Next (shift_state k s)
  | Done e => Done (k + e)
  | Fail x => Fail x
  end.

Definition shift_result (k : Z) (r : result) : result :=
  match r with
  | Returns e => Returns (k + e)
  | Raises x => Raises x
  end.

Definition shift_rec (k : Z) (r : ExtractedRecord) : ExtractedRecord :=
  {| rec_start := k + rec_start r; rec_end := k + rec_end r |}.

(** The result of a pass over a blob, seen from a pass that has already
    written [files0] ([count0] of them) and has [k] more bytes in front. *)
Definition shift_split (k count0 : Z) (files0 : list ExtractedRecord)
  (r : split_result) : split_result :=
  match r with
  | SplitReturns count files =>
      SplitReturns (count0 + count) (files0 ++ map (shift_rec k) files)
  | SplitRaises x => SplitRaises x
  end.

Definition shift_split_state (k count0 : Z) (files0 : list ExtractedRecord)
  (t : split_state) : split_state :=
  {| pos := k + pos t; idx := count0 + idx t;
     written := files0 ++ map (shift_rec k) (written t) |}.

Definition shift_split_outcome (k count0 : Z)
  (files0 : list ExtractedRecord) (o : split_outcome) : split_outcome :=
  match o with
  | SNext t => SNext (shift_split_state k count0 files0 t)
  | SBreak => SBreak
  | SRaise x => SRaise x
  | SStuck => SStuck
  end.

(** A blob that is one record: the scanner started at its first byte
    returns its length. *)
Definition whole (rec : bytes) : Prop :=
  parse_one_jpeg rec 0 = Some (Returns (len rec)).

(** The ranges of blobs laid end to end, the first one at offset [k]. *)
Fixpoint ranges (k : Z) (recs : list bytes) : list ExtractedRecord :=
  match recs with
  | [] => []
  | rec :: tl =>
      {| rec_start := k; rec_end := k + len rec |} :: ranges (k + len rec) tl
  end.

(** ** Well-formed records *)

(** One item of the body of a record, as the scanner loop walks it: a byte
    other than [0xFF]; a marker without a length, after one or more
    [0xFF]; a stuffed [0xFF] of the scan data; a segment, whose two length
    bytes count themselves and the payload. *)
Inductive item :=
| Plain (x : byte)
| Standalone (fill : nat) (m : byte)
| Stuffed (fill : nat)
| Segment (fill : nat) (m hi lo : byte) (payload : bytes).

Definition item_bytes (it : item) : bytes :=
  match it with
  | Plain x => [x]
  | Standalone fill m => repeat xff (S fill) ++ [m]
  | Stuffed fill => repeat xff (S fill) ++ [x00]
  | Segment fill m hi lo payload =>
      repeat xff (S fill) ++ m :: hi :: lo :: payload
  end.

(** The item is what it says, where [b] tells whether the scan data have
    begun. *)
Definition item_ok (b : bool) (it : item) : bool :=
  match it with
  | Plain x => negb (Byte.eqb x xff)
  | Standalone _ m => mem (ord m) NO_LEN && negb (ord m =? 0xD9)
  | Stuffed _ => b
  | Segment _ m hi lo payload =>
      negb (Byte.eqb m xff)
      && has_length {| cur := 0; in_scan := b |} m
      && (len payload + 2 =? 256 * ord hi + ord lo)
  end.

(** Whether the scan data have begun after the item. *)
Definition item_scan (b : bool) (it : item) : bool :=
  match it with
  | Segment _ m _ _ _ => b || (ord m =? SOS)
  | _ => b
  end.

Fixpoint items_ok (b : bool) (its : list item) : bool :=
  match its with
  | [] => true
  | it :: tl => item_ok b it && items_ok (item_scan b it) tl
  end.

(** The bytes of a body and of its end marker. *)
Definition body_bytes (its : list item) (fill : nat) : bytes :=
  concat (map item_bytes its) ++ repeat xff (S fill) ++ [xd9].

(** A record: the start signature, the items, the end marker. *)
Definition record_bytes (its : list item) (fill : nat) : bytes :=
  SOI ++ body_bytes its fill.

(** The items of [scenario]. *)
Definition scenario_items : list item :=
  [Segment 0 xe0 x00 x04 [x01; x02]; Segment 0 xda x00 x02 [];
   Plain xaa; Stuffed 0; Plain xbb].

(** A record with fill bytes, a restart marker and a stuffed byte in its
    scan data. *)
Definition restart_items : list item :=
  [Segment 1 xdb x00 x03 [xff]; Segment 0 xda x00 x02 [];
   Plain x11; Standalone 0 xd0; Stuffed 1; Plain x22].

(** * [bgz_dump.py] *)

(** The unsigned value of bytes, most significant first
    ([struct.unpack(">I", b)], [">H"]) and least significant first
    (["<I"]). *)
Definition be_value (b : bytes) : Z :=
  fold_left (fun acc x => 256 * acc + ord x) b 0.

Definition le_value (b : bytes) : Z :=
  fold_right (fun x acc => ord x + 256 * acc) 0 b.

Module BgzDump.


(** The exceptions the file raises or lets through. *)
Inductive error :=
| EOFError            (* "Unexpected EOF while reading u32" *)
| EndianValueError    (* "endian must be 'be' or 'le'" *)
| SeekError.          (* [f.seek] on a negative offset *)

(** A file opened with ["rb"]: its content and the position of the next
    read. *)
Record file := { content : bytes; tell : Z }.

(** [f.seek(o)]: [None] when the offset is negative. *)
Definition seek (f : file) (o : Z) : option file :=
  if o <? 0 then None else Some {| content := content f; tell := o |}.

(** [f.read(k)]: up to [k] bytes from the position, all the bytes left
    when [k] is negative; the position moves by what was read. *)
Definition read (f : file) (k : Z) : bytes * file :=
  let b := if k <? 0 then slice (content f) (tell f) (len (content f))
           else slice (content f) (tell f) (tell f + k) in
  (b, {| content := content f; tell := tell f + len b |}).

(** [read_u32]: the value or the exception, and the file after the
    read. *)
Definition read_u32 (f : file) (endian : String.string) : (error + Z) * file :=
  let (b, f') := read f 4 in
  if negb (len b =? 4) then (inl EOFError, f') else
  if String.eqb endian "be" then (inr (be_value b), f') else
  if String.eqb endian "le" then (inr (le_value b), f') else
  (inl EndianValueError, f').

Definition within (n lo hi : Z) : bool := (lo <=? n) && (n <? hi).

(** [b"shd."]. *)
Definition shd_sig : bytes := [x73; x68; x64; x2e].

Definition detect_ext (first16 : bytes) : String.string :=
  (* JPEG *)
  if (len first16 >=? 3) && holds first16 0 xff && holds first16 1 xd8
     && holds first16 2 xff
  then "jpg"
  (* ASCII signatures *)
  else if bytes_eqb (firstn (length shd_sig) first16) shd_sig then "shd"
  else "bin".

Record Block := {
  index : Z;
  ofs : Z;
  size : Z;
  ext : String.string;
  note : String.string
}.

(** [for _ in range(count): ptrs.append(read_u32(f, endian))], [n] turns of
    it. *)
Fixpoint read_ptrs (n : nat) (f : file) (endian : String.string)
  : error + list Z :=
  match n with
  | O => inr []
  | S n' =>
      match read_u32 f endian with
      | (inl e, _) => inl e
      | (inr p, f') =>
          match read_ptrs n' f' endian with
          | inl e => inl e
          | inr ptrs => inr (p :: ptrs)
          end
      end
  end.

(** One turn of [for i, ofs in enumerate(abs_ptrs)]: the block appended,
    and the file after the turn. *)
Definition block_step (file_size : Z) (abs_ptrs : list Z)
  (require_monotonic : bool) (f : file) (i : nat) (ofs : Z)
  : error + Block * file :=
  let skipped (why : String.string) :=
    inr ({| index := Z.of_nat i; ofs := ofs; size := 0; ext := "bin";
            note := why |}, f) in
  if negb (within ofs 0 file_size) then skipped "OUT_OF_RANGE" else
  (* size by next pointer or EOF *)
  let sized (size : Z) :=
    (* sanity *)
    if (size <=? 0) || (ofs + size >? file_size) then skipped "BAD_SIZE"
    else
    (* detect extension by signature *)
    match seek f ofs with
    | None => inl SeekError
    | Some f1 =>
        let (sig, f2) := read f1 16 in
        inr ({| index := Z.of_nat i; ofs := ofs; size := size;
                ext := detect_ext sig; note := String.EmptyString |}, f2)
    end in
  if Z.of_nat i <? Z.of_nat (length abs_ptrs) - 1 then
    let nxt := nth (i + 1) abs_ptrs 0 in
    if nxt <? ofs then
      if require_monotonic then skipped "NON_MONOTONIC_NEXT_PTR"
      else
      (* fallback: size unknown, skip *)
      skipped "NON_MONOTONIC_NEXT_PTR"
    else sized (nxt - ofs)
  else sized (file_size - ofs).

Fixpoint block_loop (file_size : Z) (abs_ptrs : list Z)
  (require_monotonic : bool) (f : file) (todo : list (nat * Z))
  (blocks : list Block) : error + list Block :=
  match todo with
  | [] => inr blocks
  | (i, ofs) :: todo' =>
      match block_step file_size abs_ptrs require_monotonic f i ofs with
      | inl e => inl e
      | inr (b, f') =>
          block_loop file_size abs_ptrs require_monotonic f' todo'
            (blocks ++ [b])
      end
  end.

(** [enumerate(l)]. *)
Definition enumerate {A} (l : list A) : list (nat * A) :=
  combine (seq 0 (length l)) l.

(** [read_pointer_blocks] on the file whose content is [data]. *)
Definition read_pointer_blocks (data : bytes) (table_offset count : Z)
  (endian : String.string) (base : Z) (require_monotonic : bool)
  : error + list Block :=
  let file_size := len data in
  (* read raw pointers *)
  match seek {| content := data; tell := 0 |} table_offset with
  | None => inl SeekError
  | Some f =>
      match read_ptrs (Z.to_nat count) f endian with
      | inl e => inl e
      | inr ptrs =>
          (* abs offsets *)
          let abs_ptrs := map (fun p => base + p) ptrs in
          block_loop file_size abs_ptrs require_monotonic
            {| content := data; tell := 0 |} (enumerate abs_ptrs) []
      end
  end.

(** Digits of a number: decimal, and hexadecimal in upper case. *)
Definition dec_digits (n : N) : String.string :=
  DecimalString.NilEmpty.string_of_uint (N.to_uint n).

Definition upper (c : Ascii.ascii) : Ascii.ascii :=
  let k := Ascii.nat_of_ascii c in
  if (97 <=? k)%nat && (k <=? 122)%nat then Ascii.ascii_of_nat (k - 32)
  else c.

Fixpoint upper_string (s : String.string) : String.string :=
  match s with
  | String.EmptyString => String.EmptyString
  | String.String c s' => String.String (upper c) (upper_string s')
  end.

Definition hex_digits (n : N) : String.string :=
  upper_string (HexadecimalString.NilEmpty.string_of_uint (N.to_hex_uint n)).

Fixpoint zeros_string (k : nat) : String.string :=
  match k with
  | O => String.EmptyString
  | S k' => String.String (Ascii.ascii_of_nat 48) (zeros_string k')
  end.

(** A format such as [04d] or [08X]: the digits, with zeros in front up
    to the width, the sign counting in the width. *)
Definition format_int (digits : N -> String.string) (width : nat) (n : Z)
  : String.string :=
  match n with
  | Z.neg p =>
      let s := digits (N.pos p) in
      String.String (Ascii.ascii_of_nat 45)
        (String.append (zeros_string (width - 1 - String.length s)) s)
  | _ =>
      let s := digits (Z.to_N n) in
      String.append (zeros_string (width - String.length s)) s
  end.

(** [f"block_{b.index:04d}_{b.ofs:08X}_{b.size:08X}.{b.ext}"]. *)
Definition block_name (b : Block) : String.string :=
  String.append "block_"
    (String.append (format_int dec_digits 4 (index b))
       (String.append "_"
          (String.append (format_int hex_digits 8 (ofs b))
             (String.append "_"
                (String.append (format_int hex_digits 8 (size b))
                   (String.append "." (ext b))))))).

Section Extract.

(** [os.path.join], and [os.path.exists] as it is when [extract_blocks]
    is called. *)
Variable join : String.string -> String.string -> String.string.
Variable present : String.string -> bool.

(** [os.path.exists] once [files] have been written. *)
Definition path_exists (files : list (String.string * bytes))
  (path : String.string) : bool :=
  present path || existsb (fun w => String.eqb (fst w) path) files.

(** One turn of [for b in blocks]: the file read from, and the files
    written so far, oldest first. *)
Definition extract_step (out_dir : String.string)
  (overwrite skip_zero : bool) (f : file)
  (files : list (String.string * bytes)) (b : Block)
  : error + file * list (String.string * bytes) :=
  if skip_zero && (size b =? 0) then inr (f, files) else
  let name := block_name b in
  let out_path := join out_dir name in
  if negb overwrite && path_exists files out_path then inr (f, files) else
  match seek f (ofs b) with
  | None => inl SeekError
  | Some f1 =>
      let (data, f2) := read f1 (size b) in
      inr (f2, files ++ [(out_path, data)])
  end.

Fixpoint extract_loop (out_dir : String.string) (overwrite skip_zero : bool)
  (f : file) (files : list (String.string * bytes)) (blocks : list Block)
  : error + list (String.string * bytes) :=
  match blocks with
  | [] => inr files
  | b :: blocks' =>
      match extract_step out_dir overwrite skip_zero f files b with
      | inl e => inl e
      | inr (f', files') =>
          extract_loop out_dir overwrite skip_zero f' files' blocks'
      end
  end.

(** [extract_blocks] on the file whose content is [data]: the files it
    writes, with their content, in the order of writing. *)
Definition extract_blocks (data : bytes) (blocks : list Block)
  (out_dir : String.string) (overwrite skip_zero : bool)
  : error + list (String.string * bytes) :=
  extract_loop out_dir overwrite skip_zero
    {| content := data; tell := 0 |} [] blocks.

End Extract.

End BgzDump.

(** A file with a table of three pointers, 12, 16 and 20, then a JPEG
    signature, the ASCII signature and four more bytes. *)
Definition bgz_sample : bytes :=
  [x00; x00; x00; x0c; x00; x00; x00; x10; x00; x00; x00; x14;
   xff; xd8; xff; xe0; x73; x68; x64; x2e; x01; x02; x03; x04].

(** A table of four pointers: 16, 8 (before the one it follows), 20 and
    64 (past the end of the file). *)
Definition bgz_skips : bytes :=
  [x00; x00; x00; x10; x00; x00; x00; x08; x00; x00; x00; x14;
   x00; x00; x00; x40; xff; xd8; xff; xe0; x01; x02; x03; x04].


(** The value of four bytes in the byte order [endian] names. *)
Definition decode_u32 (endian : String.string) (b : bytes) : Z :=
  if String.eqb endian "be" then be_value b else le_value b.

(** What [read_pointer_blocks] makes of the pointer [ofs], the [i]-th of
    the absolute pointers [abs_ptrs]: a block inside the file, whose size
    runs to the next pointer or to the end of the file, or a block of size 0
    with the reason in its note. *)
Definition block_spec (data : bytes) (abs_ptrs : list Z) (i : nat) (ofs : Z)
  (b : BgzDump.Block) : Prop :=
  BgzDump.index b = Z.of_nat i /\ BgzDump.ofs b = ofs
  /\ ((BgzDump.note b = String.EmptyString
       /\ 0 <= ofs /\ 0 < BgzDump.size b
       /\ ofs + BgzDump.size b <= len data
       /\ BgzDump.ext b = BgzDump.detect_ext (slice data ofs (ofs + 16))
       /\ ((S i < length abs_ptrs)%nat ->
           BgzDump.size b = nth (S i) abs_ptrs 0 - ofs)
       /\ ((length abs_ptrs <= S i)%nat ->
           BgzDump.size b = len data - ofs))
      \/ (BgzDump.size b = 0 /\ BgzDump.ext b = "bin"
          /\ ((BgzDump.note b = "OUT_OF_RANGE"
               /\ ~ 0 <= ofs < len data)
              \/ (0 <= ofs < len data /\ (S i < length abs_ptrs)%nat
                  /\ ((BgzDump.note b = "NON_MONOTONIC_NEXT_PTR"
                       /\ nth (S i) abs_ptrs 0 < ofs)
                      \/ (BgzDump.note b = "BAD_SIZE"
                          /\ (nth (S i) abs_ptrs 0 = ofs
                              \/ len data < nth (S i) abs_ptrs 0))))))).

(** [l[i]] on a Python list, as [index] is on bytes. *)
Definition index_of_list {A} (l : list A) (i : Z) : option A :=
  let n := Z.of_nat (length l) in
  if (0 <=? i) && (i <? n) then nth_error l (Z.to_nat i)
  else if (- n <=? i) && (i <? 0) then nth_error l (Z.to_nat (n + i))
  else None.

(** * [shd_to_obj.py] *)

Module ShdToObj.

(** The messages of the [ValueError]s of [dump_obj], in source order. *)
Inductive msg :=
| NoRecord            (* "Could not locate descriptor record" *)
| OffsetsOutOfRange   (* "Offsets out of range" *)
| NextNotAfter        (* "next_ofs must be > floats_ofs" *)
| NotMultipleOf12     (* "Float block size not multiple of 12 ..." *)
| NoIndexRun.         (* "Could not find index run ..." *)

Inductive error :=
| StructError         (* [struct.unpack_from] outside the buffer *)
| IndexError          (* [indices[t]] out of range *)
| ValueError (m : msg).

(** The bytes [struct.unpack_from] decodes for a format of [k] bytes at
    offset [o]; [None] stands for [struct.error].  A negative offset counts
    from the end, and must leave room for the [k] bytes. *)
Definition unpack_from (k : Z) (d : bytes) (o : Z) : option bytes :=
  if o <? 0 then
    if o + k >? 0 then None
    else if o + len d <? 0 then None
    else Some (slice d (o + len d) (o + len d + k))
  else if len d - o <? k then None
  else Some (slice d o (o + k)).

Definition u32be (d : bytes) (o : Z) : option Z :=
  option_map be_value (unpack_from 4 d o).

Definition u16be (d : bytes) (o : Z) : option Z :=
  option_map be_value (unpack_from 2 d o).

(** [f32be]: the float is kept as the 32 bits it is decoded from. *)
Definition f32be (d : bytes) (o : Z) : option Z :=
  option_map be_value (unpack_from 4 d o).

(** [range(a, b, step)] for a positive [step]. *)
Definition range3 (a b step : Z) : list Z :=
  map (fun k => a + step * Z.of_nat k)
    (seq 0 (Z.to_nat ((b - a + step - 1) / step))).

(** The loop of [find_first_record] over the offsets left. *)
Fixpoint first_nonzero (d : bytes) (offs : list Z) : error + Z :=
  match offs with
  | [] => inr (-1)
  | off :: offs' =>
      match u32be d off with
      | None => inl StructError
      | Some v => if negb (v =? 0) then inr off else first_nonzero d offs'
      end
  end.

Definition find_first_record (d : bytes) (ofs_desc : Z) : error + Z :=
  (* table starts with zeros; record begins at first non-zero u32 *)
  first_nonzero d (range3 ofs_desc (Z.min (ofs_desc + 0x200) (len d - 16)) 4).

(** The search of [d.find(pat, start, end)] over [n] candidates from
    [i]. *)
Fixpoint find_at (d pat : bytes) (i : Z) (n : nat) : Z :=
  match n with
  | O => -1
  | S n' =>
      if bytes_eqb (slice d i (i + len pat)) pat then i
      else find_at d pat (i + 1) n'
  end.

(** [d.find(pat, start, end)]: the bounds are normalised as those of a
    slice are, but for [start], which is not cut down to the length. *)
Definition find (d pat : bytes) (start end_ : Z) : Z :=
  let n := len d in
  let end_ := if end_ >? n then n
              else if end_ <? 0 then (if end_ + n <? 0 then 0 else end_ + n)
              else end_ in
  let start := if start <? 0 then (if start + n <? 0 then 0 else start + n)
               else start in
  if end_ - start <? len pat then -1
  else find_at d pat start (Z.to_nat (end_ - start - len pat + 1)).

Definition find_bytes (d pat : bytes) (start end_ : Z) : Z :=
  find d pat start end_.

(** [b"\x00\x00\x00\x01\x00\x02"]. *)
Definition pat : bytes := [x00; x00; x00; x01; x00; x02].

(** What [dump_obj] has worked out when it has found the index run. *)
Record header := {
  rec : Z;
  floats_ofs : Z;
  next_ofs : Z;
  vert_count : Z;
  idx_start : Z;
  search_end : Z
}.

(** What [dump_obj] writes out: the vertices, each float as its 32 bits,
    and the faces, numbered from 0. *)
Record mesh := {
  head : header;
  verts : list (Z * Z * Z);
  faces : list (Z * Z * Z)
}.

Definition bind {A B} (x : error + A) (f : A -> error + B) : error + B :=
  match x with
  | inl e => inl e
  | inr a => f a
  end.

(** A call of [u32be], [u16be] or [f32be] inside [dump_obj]. *)
Definition unpacked (x : option Z) : error + Z :=
  match x with
  | None => inl StructError
  | Some v => inr v
  end.

Notation "x <- c ;; k" := (bind c (fun x => k))
  (at level 61, c at next level, right associativity).

(** [dump_obj] from its first line to the search of the index run. *)
Definition read_header (d : bytes) : error + header :=
  let size := len d in
  ofs_desc <- unpacked (u32be d 0x38) ;;
  ofs_mark <- unpacked (u32be d 0x3C) ;;
  rec <- find_first_record d ofs_desc ;;
  if rec <? 0 then inl (ValueError NoRecord) else
  rel_floats <- unpacked (u32be d (rec + 0x00)) ;;
  next_ofs <- unpacked (u32be d (rec + 0x04)) ;;
  let floats_ofs := rec + rel_floats in
  if negb ((0 <=? floats_ofs) && (floats_ofs <? size))
     || negb ((0 <=? next_ofs) && (next_ofs <=? size))
  then inl (ValueError OffsetsOutOfRange) else
  if next_ofs <=? floats_ofs then inl (ValueError NextNotAfter) else
  (* Vertices are float3 packed from floats_ofs..next_ofs *)
  let vert_bytes := next_ofs - floats_ofs in
  if negb (vert_bytes mod 12 =? 0) then inl (ValueError NotMultipleOf12) else
  let vert_count := vert_bytes / 12 in
  (* Find index run after next_ofs, before marker *)
  let search_end := Z.min ofs_mark size in
  let idx_start := find_bytes d pat next_ofs search_end in
  if idx_start <? 0 then inl (ValueError NoIndexRun) else
  inr {| rec := rec; floats_ofs := floats_ofs; next_ofs := next_ofs;
         vert_count := vert_count; idx_start := idx_start;
         search_end := search_end |}.

(** A loop that appends what [f] returns for each element, and stops at
    the first exception. *)
Fixpoint for_each {A B} (f : A -> error + B) (l : list A)
  : error + list B :=
  match l with
  | [] => inr []
  | a :: l' =>
      b <- f a ;;
      bs <- for_each f l' ;;
      inr (b :: bs)
  end.

(** [indices[t]]. *)
Definition item_at (indices : list Z) (t : Z) : error + Z :=
  match index_of_list indices t with
  | None => inl IndexError
  | Some v => inr v
  end.

(** The loop that builds the faces, over the values of [t] left. *)
Fixpoint build_faces (indices : list Z) (vert_count : Z) (ts : list Z)
  : error + list (Z * Z * Z) :=
  match ts with
  | [] => inr []
  | t :: ts' =>
      a <- item_at indices t ;;
      b <- item_at indices (t + 1) ;;
      c <- item_at indices (t + 2) ;;
      fs <- build_faces indices vert_count ts' ;;
      if (a <? vert_count) && (b <? vert_count) && (c <? vert_count)
      then inr ((a, b, c) :: fs)
      else inr fs
  end.

(** [dump_obj] from the reading of the vertices to the faces. *)
Definition read_mesh (d : bytes) (h : header) : error + mesh :=
  (* Read vertices *)
  verts <- for_each
             (fun i =>
                let off := floats_ofs h + i * 12 in
                x <- unpacked (f32be d (off + 0)) ;;
                y <- unpacked (f32be d (off + 4)) ;;
                z <- unpacked (f32be d (off + 8)) ;;
                inr (x, y, z))
             (range3 0 (vert_count h) 1) ;;
  (* Read indices (u16) until marker *)
  indices <- for_each (fun off => unpacked (u16be d off))
               (range3 (idx_start h) (search_end h) 2) ;;
  (* Build faces (triangle list) *)
  faces <- build_faces indices (vert_count h)
             (range3 0 (Z.of_nat (length indices) - 2) 3) ;;
  inr {| head := h; verts := verts; faces := faces |}.

(** [dump_obj] on the bytes of [shd_path], up to the writing of the OBJ
    text. *)
Definition dump_obj (d : bytes) : error + mesh :=
  h <- read_header d ;;
  read_mesh d h.

End ShdToObj.

(** A file of [shd_to_obj.py]: the descriptor offset 0x40 and the mark
    0x84 at 0x38 and 0x3C; a zero word, then the record at 0x44, which
    gives 0x10 and 0x78; three vertices from 0x54 to 0x78; the index run
    0 1 2 1 2 3 up to the mark; four more bytes. *)
Definition shd_sample : bytes :=
  repeat x00 0x38 ++ [x00; x00; x00; x40] ++ [x00; x00; x00; x84]
  ++ [x00; x00; x00; x00] ++ [x00; x00; x00; x10] ++ [x00; x00; x00; x78]
  ++ repeat x00 8 ++ repeat x3f 36
  ++ [x00; x00; x00; x01; x00; x02; x00; x01; x00; x02; x00; x03]
  ++ repeat x00 4.

(** The same file cut after the seventh byte of the index run, so that the
    run ends with the file, after an odd number of bytes. *)
Definition shd_odd : bytes := firstn 127 shd_sample.

(** The index run of a header ends with the file, after an odd number of
    bytes. *)
Definition odd_run_at_end (d : bytes) (h : ShdToObj.header) : Prop :=
  ShdToObj.search_end h = len d
  /\ (ShdToObj.search_end h - ShdToObj.idx_start h) mod 2 = 1.

(** The blocks of [bgz_skips]. *)
Definition bgz_skips_blocks : list BgzDump.Block :=
  [ {| BgzDump.index := 0; BgzDump.ofs := 16; BgzDump.size := 0;
       BgzDump.ext := "bin"; BgzDump.note := "NON_MONOTONIC_NEXT_PTR" |};
    {| BgzDump.index := 1; BgzDump.ofs := 8; BgzDump.size := 12;
       BgzDump.ext := "bin"; BgzDump.note := String.EmptyString |};
    {| BgzDump.index := 2; BgzDump.ofs := 20; BgzDump.size := 0;
       BgzDump.ext := "bin"; BgzDump.note := "BAD_SIZE" |};
    {| BgzDump.index := 3; BgzDump.ofs := 64; BgzDump.size := 0;
       BgzDump.ext := "bin"; BgzDump.note := "OUT_OF_RANGE" |} ].

(** [os.path.join] where the separator is a slash, for a directory that
    does not end with one and a name that does not begin with one. *)
Definition slash_join (dir name : String.string) : String.string :=
  String.append dir (String.append "/" name).

(** ** Tactics *)

(** Case analysis on the integer tests of the goal. *)
Ltac ztest :=
  rewrite ?Z.gtb_ltb, ?Z.geb_leb in *;
  repeat match goal with
         | |- context [?a <? ?b] => destruct (Z.ltb_spec a b)
         | |- context [?a <=? ?b] => destruct (Z.leb_spec a b)
         | |- context [?a =? ?b] => destruct (Z.eqb_spec a b)
         | H : context [?a <? ?b] |- _ => destruct (Z.ltb_spec a b)
         | H : context [?a <=? ?b] |- _ => destruct (Z.leb_spec a b)
         | H : context [?a =? ?b] |- _ => destruct (Z.eqb_spec a b)
         end;
  simpl; try lia.

(** Unfold [handle_marker] and split on every test it makes. *)
Ltac marker_tests :=
  unfold handle_marker; cbv zeta;
  repeat match goal with
         | |- context [if ?b && _ then _ else _] => destruct b; simpl andb
         | |- context [if mem ?m ?l then _ else _] => destruct (mem m l) eqn:?
         | |- context [match _u16be ?b with _ => _ end] =>
             destruct (_u16be b) eqn:?
         | |- context [?a >? ?b] => rewrite (Z.gtb_ltb a b)
         | |- context [if ?a <? ?b then _ else _] => destruct (Z.ltb_spec a b)
         | |- context [if ?a =? ?b then _ else _] => destruct (Z.eqb_spec a b)
         end.

(** ** Bytes, offsets and slices *)

Lemma len_nonneg data : 0 <= len data.
Proof. unfold len. lia. Qed.

Lemma ord_range b : 0 <= ord b < 256.
Proof.
  unfold ord. pose proof (Byte.to_N_bounded b). lia.
Qed.

Lemma ord_inj a b : ord a = ord b -> a = b.
Proof.
  unfold ord. intros H. apply N2Z.inj in H.
  pose proof (Byte.of_to_N a) as Ha. rewrite H, Byte.of_to_N in Ha.
  congruence.
Qed.

Lemma ord_eqb a b : (ord a =? ord b) = true <-> a = b.
Proof.
  rewrite Z.eqb_eq. split; [apply ord_inj | congruence].
Qed.

Lemma ord_ff b : (ord b =? 0xFF) = true <-> b = xff.
Proof. exact (ord_eqb b xff). Qed.

Lemma ord_not_ff b : (ord b =? 0xFF) = false <-> b <> xff.
Proof.
  rewrite <- ord_ff. destruct (ord b =? 0xFF); intuition congruence.
Qed.

Lemma index_in_range data i :
  0 <= i < len data -> index data i = nth_error data (Z.to_nat i).
Proof.
  intros [H0 Hn]. unfold index.
  apply Z.leb_le in H0. apply Z.ltb_lt in Hn. now rewrite H0, Hn.
Qed.

Lemma index_defined data i :
  0 <= i < len data -> exists b, index data i = Some b.
Proof.
  intros H. rewrite (index_in_range _ _ H).
  destruct (nth_error data (Z.to_nat i)) as [b|] eqn:E; [now exists b|].
  apply nth_error_None in E. unfold len in H. lia.
Qed.

Lemma index_Some_bound data i b :
  0 <= i -> index data i = Some b -> i < len data.
Proof.
  intros H0. unfold index.
  destruct (i <? len data) eqn:E; [intros _; now apply Z.ltb_lt|].
  rewrite andb_false_r.
  replace (i <? 0) with false by (symmetry; apply Z.ltb_ge; lia).
  rewrite andb_false_r. discriminate.
Qed.

Lemma clamp_in_range n k : 0 <= k <= n -> clamp n k = k.
Proof. intros H. unfold clamp. cbv zeta. ztest. Qed.

Lemma clamp_bounds n k : 0 <= n -> 0 <= clamp n k <= n.
Proof. intros H. unfold clamp. cbv zeta. ztest. Qed.

Lemma clamp_ge n k : 0 <= n -> k <= n -> k <= clamp n k.
Proof. intros H Hk. unfold clamp. cbv zeta. ztest. Qed.

(** Two bytes read from a list at a position inside it. *)
Lemma firstn2_skipn (l : bytes) (k : nat) :
  (k + 2 <= length l)%nat ->
  exists a b, firstn 2 (skipn k l) = [a; b]
              /\ nth_error l k = Some a /\ nth_error l (S k) = Some b.
Proof.
  revert l. induction k as [|k IH]; intros l H.
  - destruct l as [|a [|b l]]; simpl in H; try lia. now exists a, b.
  - destruct l as [|a l]; simpl in H; [lia|].
    destruct (IH l) as (x & y & ? & ? & ?); [lia|]. now exists x, y.
Qed.

(** A length field that lies inside the blob is read as two bytes. *)
Lemma slice_two data p :
  0 <= p -> p + 2 <= len data ->
  exists hi lo, slice data p (p + 2) = [hi; lo]
                /\ index data p = Some hi /\ index data (p + 1) = Some lo.
Proof.
  intros H0 Hn. unfold slice.
  rewrite !clamp_in_range by lia.
  replace (Z.to_nat (p + 2 - p)) with 2%nat by lia.
  destruct (firstn2_skipn data (Z.to_nat p)) as (a & b & E & Ea & Eb).
  { unfold len in Hn. lia. }
  exists a, b. rewrite !index_in_range by lia.
  replace (Z.to_nat (p + 1)) with (S (Z.to_nat p)) by lia. auto.
Qed.

(** [_u16be] is the big-endian value of the two bytes. *)
Lemma u16be_two hi lo :
  _u16be [hi; lo] = Some (256 * ord hi + ord lo).
Proof.
  unfold _u16be. f_equal.
  pose proof (ord_range hi) as Hh. pose proof (ord_range lo) as Hl.
  rewrite Z.shiftl_mul_pow2 by lia. change (2 ^ 8) with 256.
  assert (D : Z.land (ord hi * 256) (ord lo) = 0).
  { apply Z.bits_inj'. intros k Hk. rewrite Z.land_spec, Z.bits_0.
    destruct (Z.lt_ge_cases k 8) as [Hlt|Hge].
    - change 256 with (2 ^ 8). rewrite Z.mul_pow2_bits_low by lia. reflexivity.
    - destruct (Z.eq_dec (ord lo) 0) as [E|E].
      + rewrite E, Z.bits_0. apply andb_false_r.
      + rewrite (Z.bits_above_log2 (ord lo) k), andb_false_r; [reflexivity|lia|].
        assert (Z.log2 (ord lo) < 8); [|lia].
        apply Z.log2_lt_pow2; [lia|]. change (2 ^ 8) with 256. lia. }
  rewrite <- Z.lxor_lor by exact D.
  rewrite <- Z.add_nocarry_lxor by exact D. lia.
Qed.

(** ** The fill-byte loop *)

Lemma skip_fill_from_spec fuel : forall data j,
  0 <= j -> fuel = Z.to_nat (len data - j) ->
  exists r, skip_fill_from fuel data j = Some r
    /\ j <= r <= Z.max j (len data)
    /\ (forall k, j <= k < r -> index data k = Some xff)
    /\ (r < len data -> exists b, index data r = Some b /\ b <> xff).
Proof.
  induction fuel as [|fuel IH]; intros data j H0 Hf; simpl.
  - exists j. repeat split; try lia.
  - destruct (Z.ltb_spec j (len data)) as [Hlt|]; [|lia].
    destruct (index_defined data j) as [b Hb]; [lia|]. rewrite Hb.
    destruct (ord b =? 0xFF) eqn:E.
    + apply ord_ff in E. subst b.
      destruct (IH data (j + 1)) as (r & Hr & Hb1 & Hrun & Hstop); [lia|lia|].
      exists r. split; [exact Hr|]. repeat split; try lia; [|exact Hstop].
      intros k Hk. destruct (Z.eq_dec k j) as [->|]; [exact Hb|].
      apply Hrun. lia.
    + apply ord_not_ff in E. exists j. repeat split; try lia.
      intros _. now exists b.
Qed.

(** The postcondition of [while j < n and data[j] == 0xFF: j += 1]. *)
Lemma skip_fill_spec data i :
  0 <= i ->
  exists j, skip_fill data i = Some j
    /\ i <= j <= Z.max i (len data)
    /\ (forall k, i <= k < j -> index data k = Some xff)
    /\ (j < len data -> exists b, index data j = Some b /\ b <> xff).
Proof.
  intros H. now apply skip_fill_from_spec.
Qed.

(** The loop stops at the first offset that does not hold [0xFF]. *)
Lemma skip_fill_unique data i j :
  0 <= i <= j -> j <= len data ->
  (forall k, i <= k < j -> index data k = Some xff) ->
  (j < len data -> exists b, index data j = Some b /\ b <> xff) ->
  skip_fill data i = Some j.
Proof.
  intros Hij Hjn Hrun Hstop.
  destruct (skip_fill_spec data i) as (r & Hr & Hb & Hrun' & Hstop'); [lia|].
  rewrite Hr. f_equal.
  destruct (Z.lt_trichotomy r j) as [Hlt|[->|Hgt]]; [exfalso| reflexivity |exfalso].
  - destruct Hstop' as (b & Hb1 & Hb2); [lia|].
    rewrite Hrun in Hb1 by lia. congruence.
  - destruct Hstop as (b & Hb1 & Hb2); [lia|].
    rewrite Hrun' in Hb1 by lia. congruence.
Qed.

(** Whatever the offset, the loop never moves backwards. *)
Lemma skip_fill_from_ge fuel : forall data j r,
  skip_fill_from fuel data j = Some r -> j <= r.
Proof.
  induction fuel as [|fuel IH]; intros data j r; simpl.
  - intros [= ->]. lia.
  - destruct (j <? len data); [|intros [= ->]; lia].
    destruct (index data j) as [b|]; [|discriminate].
    destruct (ord b =? 0xFF); [|intros [= ->]; lia].
    intros H. apply IH in H. lia.
Qed.

(** On an escape byte inside the blob it moves forward. *)
Lemma skip_fill_gt data i j :
  i < len data -> index data i = Some xff ->
  skip_fill data i = Some j -> i < j.
Proof.
  intros Hi Hb. unfold skip_fill.
  destruct (Z.to_nat (len data - i)) as [|fuel] eqn:E; [lia|]. simpl.
  destruct (Z.ltb_spec i (len data)); [|lia]. rewrite Hb. simpl.
  intros Hr. apply skip_fill_from_ge in Hr. lia.
Qed.

Lemma marker_at_bound data i j mb : marker_at data i j mb -> j < len data.
Proof.
  intros (Hij & _ & Hj & _). apply (index_Some_bound data j mb); [lia|exact Hj].
Qed.

(** The fill-byte loop started at [i] stops on the category byte. *)
Lemma marker_at_skip_fill data i j mb :
  marker_at data i j mb -> skip_fill data i = Some j.
Proof.
  intros M. pose proof (marker_at_bound _ _ _ _ M) as Hj.
  destruct M as (Hij & Hrun & Hmb & Hne).
  apply skip_fill_unique; [lia|lia|exact Hrun|]. intros _. now exists mb.
Qed.

(** On a marker the turn of the loop is [handle_marker]. *)
Lemma step_at_marker data s j mb :
  marker_at data (cur s) j mb ->
  step data s = handle_marker data s j (ord mb).
Proof.
  intros M. pose proof (marker_at_bound _ _ _ _ M) as Hj.
  pose proof (marker_at_skip_fill _ _ _ _ M) as Hs.
  destruct M as (Hij & Hrun & Hmb & Hne).
  unfold step. cbv zeta.
  destruct (Z.ltb_spec (cur s) (len data - 1)); [simpl|lia].
  rewrite (Hrun (cur s)) by lia. change (ord xff =? 255) with true. simpl.
  rewrite Hs. rewrite Z.geb_leb.
  destruct (Z.leb_spec (len data) j); [lia|]. now rewrite Hmb.
Qed.

(** The four ways a turn of the loop can go, from a cursor inside the
    blob. *)
Lemma step_cases data s :
  0 <= cur s ->
  (len data - 1 <= cur s /\ step data s = Fail (ValueError EOINotFound))
  \/ (cur s < len data - 1
      /\ (exists b, index data (cur s) = Some b /\ b <> xff)
      /\ step data s = Next {| cur := cur s + 1; in_scan := in_scan s |})
  \/ (cur s < len data - 1
      /\ (forall k, cur s <= k < len data -> index data k = Some xff)
      /\ step data s = Fail (ValueError EOINotFound))
  \/ (exists j mb, marker_at data (cur s) j mb
                  /\ step data s = handle_marker data s j (ord mb)).
Proof.
  intros H0.
  destruct (Z.le_gt_cases (len data - 1) (cur s)) as [Hge|Hlt].
  { left. split; [exact Hge|]. unfold step. cbv zeta.
    destruct (Z.ltb_spec (cur s) (len data - 1)); [lia|reflexivity]. }
  right.
  destruct (index_defined data (cur s)) as [b Hb]; [lia|].
  destruct (Byte.byte_eq_dec b xff) as [->|Hne].
  2:{ left. split; [lia|]. split; [now exists b|].
      unfold step. cbv zeta.
      destruct (Z.ltb_spec (cur s) (len data - 1)); [simpl|lia].
      rewrite Hb. apply ord_not_ff in Hne. now rewrite Hne. }
  right.
  destruct (skip_fill_spec data (cur s)) as (j & Hj & Hb1 & Hrun & Hstop); [lia|].
  assert (cur s < j) by (apply (skip_fill_gt data); auto; lia).
  destruct (Z.le_gt_cases (len data) j) as [Hend|Hin].
  - left. split; [lia|]. split; [intros k Hk; apply Hrun; lia|].
    unfold step. cbv zeta.
    destruct (Z.ltb_spec (cur s) (len data - 1)); [simpl|lia].
    rewrite Hb. change (ord xff =? 255) with true. simpl. rewrite Hj.
    rewrite Z.geb_leb. destruct (Z.leb_spec (len data) j); [reflexivity|lia].
  - right. destruct Hstop as (mb & Hmb & Hne); [lia|].
    exists j, mb.
    assert (M : marker_at data (cur s) j mb) by (repeat split; auto; lia).
    split; [exact M|]. now apply step_at_marker.
Qed.

Lemma holds_true data k b : holds data k b = true -> index data k = Some b.
Proof.
  unfold holds. destruct (index data k) as [x|]; [|discriminate].
  intros H. apply Byte.byte_dec_bl in H. now subst.
Qed.

Lemma marker_atb_sound data i j mb :
  marker_atb data i j mb = true -> marker_at data i j mb.
Proof.
  unfold marker_atb. rewrite !andb_true_iff, negb_true_iff.
  intros ((((H0 & Hij) & Hrun) & Hmb) & Hne).
  apply Z.leb_le in H0. apply Z.ltb_lt in Hij.
  split; [lia|]. split; [|split].
  - intros k Hk. rewrite forallb_forall in Hrun.
    specialize (Hrun (Z.to_nat (k - i))).
    replace (i + Z.of_nat (Z.to_nat (k - i))) with k in Hrun by lia.
    apply holds_true, Hrun, in_seq. lia.
  - now apply holds_true.
  - now apply Byte.eqb_false.
Qed.

Lemma index_app_r (pre l : bytes) i :
  0 <= i -> index (pre ++ l) (len pre + i) = index l i.
Proof.
  intros H0. pose proof (len_nonneg pre) as Hp.
  destruct (Z.lt_ge_cases i (len l)) as [Hlt|Hge].
  - rewrite !index_in_range; try lia.
    + rewrite nth_error_app2 by (unfold len in *; lia).
      f_equal. unfold len. lia.
    + unfold len in *. rewrite length_app. lia.
  - destruct (index (pre ++ l) (len pre + i)) as [b|] eqn:E.
    + apply index_Some_bound in E; [|lia].
      unfold len in *. rewrite length_app in E. lia.
    + destruct (index l i) as [b|] eqn:E'; [|reflexivity].
      apply index_Some_bound in E'; lia.
Qed.

(** The blobs [marker_at] speaks of: any bytes, then a run of one or more
    [0xFF] that starts at the cursor, then the category byte. *)
Lemma marker_at_run (pre post : bytes) (k : nat) (mb : byte) :
  mb <> xff ->
  marker_at (pre ++ repeat xff (S k) ++ mb :: post)
    (len pre) (len pre + Z.of_nat (S k)) mb.
Proof.
  intros Hne. pose proof (len_nonneg pre) as Hp.
  split; [lia|]. split; [|split; [|exact Hne]].
  - intros z Hz. replace z with (len pre + (z - len pre)) by lia.
    rewrite index_app_r by lia.
    rewrite index_in_range
      by (unfold len in *; rewrite length_app, repeat_length; lia).
    rewrite nth_error_app1 by (rewrite repeat_length; lia).
    apply nth_error_repeat. lia.
  - rewrite index_app_r by lia.
    rewrite index_in_range
      by (unfold len in *; rewrite length_app, repeat_length; simpl length; lia).
    rewrite nth_error_app2 by (rewrite repeat_length; lia).
    rewrite repeat_length.
    replace (Z.to_nat (Z.of_nat (S k)) - S k)%nat with 0%nat by lia.
    reflexivity.
Qed.

(** ** One turn of the scanner loop *)

Lemma handle_marker_advances data s j m s' :
  handle_marker data s j m = Next s' -> j < cur s'.
Proof.
  marker_tests; intros [= <-] || discriminate; simpl; lia.
Qed.

Lemma handle_marker_sticky data s j m s' :
  handle_marker data s j m = Next s' ->
  in_scan s = true -> in_scan s' = true.
Proof.
  marker_tests; intros [= <-] || discriminate; simpl; auto.
Qed.

Lemma handle_marker_sets data s j m s' :
  handle_marker data s j m = Next s' ->
  in_scan s = false -> in_scan s' = true -> m = SOS.
Proof.
  marker_tests; intros [= <-] || discriminate; simpl; congruence.
Qed.

Lemma handle_marker_done data s j m e :
  handle_marker data s j m = Done e -> e = j + 1 /\ m = 0xD9.
Proof.
  marker_tests; intros [= <-] || discriminate; auto.
Qed.

(** From a marker byte inside the blob only the four segment errors can be
    raised. *)
Lemma handle_marker_fail data s j m x :
  0 <= j ->
  handle_marker data s j m = Fail x ->
  exists k, x = ValueError k
            /\ (kind_of k = TruncatedSegment \/ kind_of k = InvalidSegmentLength).
Proof.
  intros H0. marker_tests; intros [= <-] || discriminate;
    try (eexists; split; [reflexivity|simpl; auto]).
  all: exfalso;
    destruct (slice_two data (j + 1)) as (hi & lo & E & _); try lia;
    rewrite E, u16be_two in *; discriminate.
Qed.

Lemma step_guard data s s' : step data s = Next s' -> cur s < len data - 1.
Proof.
  unfold step. cbv zeta.
  destruct (Z.ltb_spec (cur s) (len data - 1)); [auto|discriminate].
Qed.

(** Every turn that goes round again moves the cursor forward, from any
    state whatever. *)
Lemma step_advances data s s' : step data s = Next s' -> cur s < cur s'.
Proof.
  intros H. pose proof (step_guard _ _ _ H) as G. revert H.
  unfold step. cbv zeta.
  destruct (cur s <? len data - 1); [simpl|discriminate].
  destruct (index data (cur s)) as [b|] eqn:Hb; [|discriminate].
  destruct (ord b =? 0xFF) eqn:E; simpl.
  2:{ intros [= <-]. simpl. lia. }
  apply ord_ff in E. subst b.
  destruct (skip_fill data (cur s)) as [j|] eqn:Hj; [|discriminate].
  assert (cur s < j) by (apply (skip_fill_gt data); auto; lia).
  destruct (j >=? len data); [discriminate|].
  destruct (index data j); [|discriminate].
  intros Hm. apply handle_marker_advances in Hm. lia.
Qed.

(** [in_scan] is never reset. *)
Lemma step_sticky data s s' :
  step data s = Next s' -> in_scan s = true -> in_scan s' = true.
Proof.
  unfold step. cbv zeta.
  destruct (cur s <? len data - 1); [simpl|discriminate].
  destruct (index data (cur s)) as [b|]; [|discriminate].
  destruct (ord b =? 0xFF); simpl; [|intros [= <-]; auto].
  destruct (skip_fill data (cur s)) as [j|]; [|discriminate].
  destruct (j >=? len data); [discriminate|].
  destruct (index data j); [|discriminate].
  apply handle_marker_sticky.
Qed.

(** [in_scan] is set only on the marker [0xDA]. *)
Lemma step_sets data s s' :
  0 <= cur s ->
  step data s = Next s' -> in_scan s = false -> in_scan s' = true ->
  exists j, marker_at data (cur s) j xda.
Proof.
  intros H0 H Hf Ht.
  destruct (step_cases data s H0)
    as [[_ E]|[(_ & _ & E)|[(_ & _ & E)|(j & mb & M & E)]]];
    rewrite E in H; try discriminate.
  - injection H as <-. simpl in Ht. congruence.
  - exists j. apply handle_marker_sets in H; auto.
    apply (ord_inj mb xda) in H. now subst mb.
Qed.

(** The loop returns just after an end marker. *)
Lemma step_done data s e :
  0 <= cur s -> step data s = Done e ->
  exists j, marker_at data (cur s) j xd9 /\ e = j + 1.
Proof.
  intros H0 H.
  destruct (step_cases data s H0)
    as [[_ E]|[(_ & _ & E)|[(_ & _ & E)|(j & mb & M & E)]]];
    rewrite E in H; try discriminate.
  apply handle_marker_done in H. destruct H as [-> H].
  apply (ord_inj mb xd9) in H. subst mb. now exists j.
Qed.

(** From a cursor inside the blob a turn raises nothing but the
    [ValueError]s of the loop. *)
Lemma step_fail data s x :
  0 <= cur s -> step data s = Fail x ->
  exists k, x = ValueError k /\ k <> NotAtSOI.
Proof.
  intros H0 H.
  destruct (step_cases data s H0)
    as [[_ E]|[(_ & _ & E)|[(_ & _ & E)|(j & mb & M & E)]]];
    rewrite E in H; try discriminate.
  - injection H as <-. eexists; split; [reflexivity|discriminate].
  - injection H as <-. eexists; split; [reflexivity|discriminate].
  - apply handle_marker_fail in H; [|destruct M; lia].
    destruct H as (k & -> & Hk). exists k. split; [reflexivity|].
    intros ->. simpl in Hk. destruct Hk; discriminate.
Qed.

(** ** The scanner loop *)

Lemma scan_next fuel data s s' :
  step data s = Next s' -> scan (S fuel) data s = scan fuel data s'.
Proof. intros E. simpl. now rewrite E. Qed.

Lemma scan_fail fuel data s x :
  step data s = Fail x -> scan fuel data s = Some (Raises x).
Proof. intros E. destruct fuel; simpl; now rewrite E. Qed.

(** The loop test fails once the cursor is on the last byte or beyond. *)
Lemma step_exit data s :
  len data - 1 <= cur s -> step data s = Fail (ValueError EOINotFound).
Proof.
  intros H. unfold step. cbv zeta.
  destruct (Z.ltb_spec (cur s) (len data - 1)); [lia|reflexivity].
Qed.

(** Fuel for every offset between the cursor and the end is enough. *)
Lemma scan_total fuel : forall data s,
  (Z.to_nat (len data - 1 - cur s) <= fuel)%nat ->
  exists r, scan fuel data s = Some r.
Proof.
  induction fuel as [|fuel IH]; intros data s Hf; simpl;
    destruct (step data s) as [s'| |] eqn:E; eauto.
  - apply step_guard in E. lia.
  - apply IH. pose proof (step_advances _ _ _ E).
    pose proof (step_guard _ _ _ E). lia.
Qed.

Lemma scan_mono fuel : forall data s r fuel',
  scan fuel data s = Some r -> (fuel <= fuel')%nat ->
  scan fuel' data s = Some r.
Proof.
  induction fuel as [|fuel IH]; intros data s r fuel'; simpl;
    destruct (step data s) as [s'| |] eqn:E; try discriminate;
    intros H Hle; destruct fuel' as [|fuel']; simpl; rewrite E; auto; try lia.
  apply (IH _ _ _ _ H). lia.
Qed.

Lemma scan_deterministic data s f f' r r' :
  scan f data s = Some r -> scan f' data s = Some r' -> r = r'.
Proof.
  intros H H'.
  apply (scan_mono _ _ _ _ (Nat.max f f')) in H; [|lia].
  apply (scan_mono _ _ _ _ (Nat.max f f')) in H'; [|lia].
  congruence.
Qed.

(** What the loop can end with, from a cursor inside the blob. *)
Lemma scan_result fuel : forall data s r,
  0 <= cur s -> scan fuel data s = Some r ->
  match r with
  | Returns e =>
      cur s + 2 <= e <= len data
      /\ index data (e - 2) = Some xff /\ index data (e - 1) = Some xd9
  | Raises x => exists k, x = ValueError k /\ k <> NotAtSOI
  end.
Proof.
  assert (D : forall data s e, 0 <= cur s -> step data s = Done e ->
              cur s + 2 <= e <= len data
              /\ index data (e - 2) = Some xff /\ index data (e - 1) = Some xd9).
  { intros data s e H0 E.
    destruct (step_done _ _ _ H0 E) as (j & M & ->).
    pose proof (marker_at_bound _ _ _ _ M).
    destruct M as (Hij & Hrun & Hmb & _).
    replace (j + 1 - 1) with j by lia. repeat split; try lia; auto.
    apply Hrun. lia. }
  induction fuel as [|fuel IH]; intros data s r H0; simpl;
    destruct (step data s) as [s'| |] eqn:E; try discriminate;
    try (intros [= <-]; (now apply D) || now apply (step_fail data s)).
  intros H. pose proof (step_advances _ _ _ E).
  apply IH in H; [|lia]. destruct r as [e|x]; [|exact H]. intuition lia.
Qed.

(** The result of the loop from a state it goes through is the result of
    the loop. *)
Lemma reaches_scan data s u :
  reaches data s u ->
  forall fuel r, scan fuel data u = Some r ->
  exists fuel', scan fuel' data s = Some r.
Proof.
  induction 1 as [|u v _ IH E]; intros fuel r H; [eauto|].
  apply (IH (S fuel)). simpl. now rewrite E.
Qed.

Lemma reaches_cur data s u : reaches data s u -> cur s <= cur u.
Proof.
  induction 1 as [|u v _ IH E]; [lia|].
  apply step_advances in E. lia.
Qed.

(** ** The record scanner *)

Lemma bytes_eqb_eq a b : bytes_eqb a b = true <-> a = b.
Proof.
  unfold bytes_eqb.
  destruct (list_eq_dec Byte.byte_eq_dec a b); intuition congruence.
Qed.

(** The three tests of the precondition. *)
Lemma not_at_soi_true data start :
  not_at_soi data start = true <->
  start < 0 \/ start + 2 > len data \/ slice data start (start + 2) <> SOI.
Proof.
  unfold not_at_soi. rewrite !orb_true_iff, negb_true_iff, Z.gtb_ltb.
  rewrite !Z.ltb_lt, <- not_true_iff_false, bytes_eqb_eq. intuition lia.
Qed.

Lemma not_at_soi_false data start :
  not_at_soi data start = false <->
  0 <= start /\ start + 2 <= len data /\ slice data start (start + 2) = SOI.
Proof.
  rewrite <- not_true_iff_false, not_at_soi_true.
  destruct (list_eq_dec Byte.byte_eq_dec (slice data start (start + 2)) SOI);
    intuition lia.
Qed.

Lemma parse_fuel_total fuel data start :
  (length data <= fuel)%nat ->
  exists r, parse_one_jpeg_fuel fuel data start = Some r.
Proof.
  intros Hf. unfold parse_one_jpeg_fuel.
  destruct (not_at_soi data start) eqn:G; [eauto|].
  apply not_at_soi_false in G. apply scan_total. unfold len in *. simpl. lia.
Qed.

(** The scanner returns or raises, with the fuel [parse_one_jpeg] gives
    it. *)
Lemma parse_total data start : exists r, parse_one_jpeg data start = Some r.
Proof. now apply parse_fuel_total. Qed.

(** More fuel changes nothing. *)
Lemma parse_fuel_stable fuel data start :
  (length data <= fuel)%nat ->
  parse_one_jpeg_fuel fuel data start = parse_one_jpeg data start.
Proof.
  intros Hf. destruct (parse_total data start) as [r Hr]. rewrite Hr.
  revert Hr. unfold parse_one_jpeg, parse_one_jpeg_fuel.
  destruct (not_at_soi data start); [auto|].
  intros Hr. now apply (scan_mono _ _ _ _ fuel) in Hr.
Qed.

(** What a call can end with. *)
Lemma parse_result data start r :
  parse_one_jpeg data start = Some r ->
  match r with
  | Returns e =>
      0 <= start /\ start + 4 <= e <= len data
      /\ index data (e - 2) = Some xff /\ index data (e - 1) = Some xd9
  | Raises x => exists k, x = ValueError k
  end.
Proof.
  unfold parse_one_jpeg, parse_one_jpeg_fuel.
  destruct (not_at_soi data start) eqn:G.
  - intros [= <-]. eauto.
  - apply not_at_soi_false in G. intros H.
    apply scan_result in H; [|simpl; lia].
    destruct r as [e|x]; simpl in H.
    + intuition lia.
    + destruct H as (k & -> & _). eauto.
Qed.

(** Past the precondition, what is raised is one of the three errors of a
    record scan. *)
Lemma parse_raises_kind data start x :
  not_at_soi data start = false ->
  parse_one_jpeg data start = Some (Raises x) ->
  exists k, x = ValueError k
            /\ (kind_of k = TruncatedSegment
                \/ kind_of k = InvalidSegmentLength
                \/ kind_of k = UnterminatedRecord).
Proof.
  intros G. unfold parse_one_jpeg, parse_one_jpeg_fuel. rewrite G.
  apply not_at_soi_false in G. intros H.
  apply scan_result in H; [|simpl; lia].
  destruct H as (k & -> & Hk). exists k. split; [reflexivity|].
  destruct k; simpl; auto. congruence.
Qed.

(** A state the loop goes through decides the result of the call. *)
Lemma parse_reaches data start u fuel r :
  not_at_soi data start = false ->
  reaches data (initial start) u ->
  scan fuel data u = Some r ->
  parse_one_jpeg data start = Some r.
Proof.
  intros G R H.
  destruct (reaches_scan _ _ _ R _ _ H) as [fuel' H'].
  destruct (parse_total data start) as [r0 H0]. rewrite H0.
  revert H0. unfold parse_one_jpeg, parse_one_jpeg_fuel. rewrite G.
  intros H0. f_equal. eapply scan_deterministic; eauto.
Qed.

(** ** Searching for the start signature *)

Lemma find_from_cons a l k :
  find_from (a :: l) k
  = if bytes_eqb (firstn 2 (a :: l)) SOI then k else find_from l (k + 1).
Proof. reflexivity. Qed.

Lemma find_from_spec l : forall k r,
  find_from l k = r ->
  r = -1
  \/ (k <= r /\ r + 2 <= k + len l
      /\ firstn 2 (skipn (Z.to_nat (r - k)) l) = SOI).
Proof.
  induction l as [|a l IH]; intros k r; [simpl; auto|].
  rewrite find_from_cons.
  destruct (bytes_eqb (firstn 2 (a :: l)) SOI) eqn:E.
  - intros <-. right. apply bytes_eqb_eq in E.
    replace (Z.to_nat (k - k)) with 0%nat by lia.
    split; [lia|]. split; [|exact E].
    destruct l; [discriminate|]. unfold len. simpl length. lia.
  - intros H. destruct (IH _ _ H) as [->|(H1 & H2 & H3)]; [auto|right].
    unfold len in *. simpl length. split; [lia|]. split; [lia|].
    replace (Z.to_nat (r - k)) with (S (Z.to_nat (r - (k + 1)))) by lia.
    exact H3.
Qed.

(** A signature that is found lies inside the blob, at or after the search
    position. *)
Lemma find_next_soi_spec data p :
  find_next_soi data p = -1
  \/ (p <= find_next_soi data p
      /\ 0 <= find_next_soi data p
      /\ find_next_soi data p + 2 <= len data).
Proof.
  pose proof (len_nonneg data) as Hn.
  pose proof (clamp_bounds (len data) p Hn) as Hk.
  unfold find_next_soi. cbv zeta.
  set (k := clamp (len data) p) in *.
  destruct (find_from_spec _ _ _
              (eq_refl (find_from (skipn (Z.to_nat k) data) k)))
    as [E|(H1 & H2 & _)]; [auto|right].
  set (r := find_from (skipn (Z.to_nat k) data) k) in *.
  assert (L : len (skipn (Z.to_nat k) data) = len data - k).
  { unfold len in *. rewrite length_skipn. lia. }
  rewrite L in H2. split; [|lia].
  destruct (Z.le_gt_cases p (len data)) as [Hp|Hp].
  - pose proof (clamp_ge _ _ Hn Hp). lia.
  - exfalso. revert H1 H2. subst k. unfold clamp. cbv zeta. ztest.
Qed.

(** The two bytes at a signature that is found are the signature. *)
Lemma find_next_soi_at data p :
  0 <= find_next_soi data p ->
  not_at_soi data (find_next_soi data p) = false.
Proof.
  intros H0. apply not_at_soi_false.
  destruct (find_next_soi_spec data p) as [E|(H1 & H2 & H3)]; [lia|].
  split; [lia|]. split; [lia|].
  pose proof (len_nonneg data) as Hn.
  pose proof (clamp_bounds (len data) p Hn) as Hk.
  revert H0 H1 H2 H3. unfold find_next_soi. cbv zeta.
  set (k := clamp (len data) p) in *. intros H0 H1 H2 H3.
  destruct (find_from_spec _ _ _ (eq_refl (find_from (skipn (Z.to_nat k) data) k)))
    as [E|(G1 & G2 & G3)]; [lia|].
  set (r := find_from (skipn (Z.to_nat k) data) k) in *.
  unfold slice. rewrite !clamp_in_range by lia.
  replace (Z.to_nat (r + 2 - r)) with 2%nat by lia.
  rewrite skipn_skipn in G3.
  replace (Z.to_nat (r - k) + Z.to_nat k)%nat with (Z.to_nat r) in G3 by lia.
  exact G3.
Qed.

(** ** The splitter loop *)

(** A turn of the splitter loop either leaves the loop or goes round again;
    the two ways it goes round again. *)
Lemma split_step_cases data t soi :
  find_next_soi data (pos t) = soi ->
  (soi = -1 /\ split_step data t = SBreak)
  \/ (0 <= soi /\ pos t <= soi /\ soi + 2 <= len data
      /\ ((exists k, parse_one_jpeg data soi = Some (Raises (ValueError k))
                     /\ split_step data t
                        = SNext {| pos := soi + 2; idx := idx t;
                                   written := written t |})
          \/ (exists e, parse_one_jpeg data soi = Some (Returns e)
                        /\ soi + 4 <= e <= len data
                        /\ split_step data t
                           = SNext {| pos := e; idx := idx t + 1;
                                      written := written t ++
                                        [{| rec_start := soi;
                                            rec_end := e |}] |}))).
Proof.
  intros <-.
  pose proof (find_next_soi_spec data (pos t)) as F.
  unfold split_step. cbv zeta.
  set (soi := find_next_soi data (pos t)) in *.
  destruct F as [E|(H1 & H2 & H3)].
  - left. now rewrite E.
  - right. split; [exact H2|]. split; [exact H1|]. split; [exact H3|].
    destruct (Z.ltb_spec soi 0); [lia|].
    destruct (parse_total data soi) as [r Hr]. rewrite Hr.
    pose proof (parse_result _ _ _ Hr) as P. destruct r as [e|x].
    + right. exists e. intuition lia.
    + left. destruct P as [k ->]. now exists k.
Qed.

(** The search position moves forward on every turn that goes round
    again, and stays inside the blob. *)
Lemma split_step_advances data t t' :
  split_step data t = SNext t' -> pos t < pos t' <= len data.
Proof.
  intros H.
  destruct (split_step_cases data t _ eq_refl)
    as [[_ E]|(H0 & H1 & H2 & [(k & _ & E)|(e & _ & He & E)])];
    rewrite E in H; try discriminate; injection H as <-; simpl; lia.
Qed.

Lemma split_loop_total fuel : forall data t,
  (Z.to_nat (len data - pos t) <= fuel)%nat ->
  exists count files, split_loop fuel data t = Some (SplitReturns count files).
Proof.
  induction fuel as [|fuel IH]; intros data t Hf; simpl;
    destruct (split_step_cases data t _ eq_refl)
      as [[_ E]|(H0 & H1 & H2 & [(k & _ & E)|(e & _ & He & E)])];
    rewrite E; eauto; try lia; apply IH; simpl; lia.
Qed.

Lemma ordered_app_one l x :
  ordered l -> (forall r, In r l -> rec_end r <= rec_start x) ->
  ordered (l ++ [x]).
Proof.
  induction l as [|a [|b l] IH]; intros Ho Hall.
  - exact I.
  - split; [apply Hall; now left|exact I].
  - destruct Ho as [Hab Ho]. split; [exact Hab|].
    apply IH; [exact Ho|]. intros r Hr. apply Hall. now right.
Qed.

Lemma ordered_nth l : ordered l ->
  forall i r1 r2, nth_error l i = Some r1 -> nth_error l (S i) = Some r2 ->
  rec_end r1 <= rec_start r2.
Proof.
  induction l as [|a [|b l] IH]; intros Ho i r1 r2 H1 H2.
  - destruct i; discriminate.
  - destruct i as [|[|i]]; discriminate.
  - destruct Ho as [Hab Ho]. destruct i as [|i].
    + simpl in H1, H2. injection H1 as <-. injection H2 as <-. exact Hab.
    + apply (IH Ho i); assumption.
Qed.

Lemma split_inv_start data : split_inv data split_start.
Proof.
  repeat split; simpl; auto. apply len_nonneg.
Qed.

Lemma split_inv_step data t t' :
  split_inv data t -> split_step data t = SNext t' -> split_inv data t'.
Proof.
  intros (Ho & Hall & Hidx & Hpos) H.
  destruct (split_step_cases data t _ eq_refl)
    as [[_ E]|(H0 & H1 & H2 & [(k & _ & E)|(e & _ & He & E)])];
    rewrite E in H; try discriminate; injection H as <-;
    unfold split_inv; simpl.
  - split; [exact Ho|]. split; [|split; [exact Hidx|lia]].
    eapply Forall_impl; [|exact Hall]. simpl. intros r Hr. lia.
  - rewrite Forall_forall in Hall. split; [|split; [|split]].
    + apply ordered_app_one; [exact Ho|]. simpl. intros r Hr.
      specialize (Hall r Hr). lia.
    + apply Forall_app. split.
      * apply Forall_forall. intros r Hr. specialize (Hall r Hr).
        simpl in *. lia.
      * constructor; [simpl; lia|constructor].
    + rewrite length_app. simpl. lia.
    + lia.
Qed.

(** The files of a finished pass. *)
Lemma split_loop_inv fuel : forall data t count files,
  split_inv data t ->
  split_loop fuel data t = Some (SplitReturns count files) ->
  ordered files
  /\ Forall (fun r => 0 <= rec_start r /\ rec_start r < rec_end r
                      /\ rec_end r <= len data) files
  /\ count = Z.of_nat (length files).
Proof.
  induction fuel as [|fuel IH]; intros data t count files Inv; simpl;
    destruct (split_step data t) as [t'| | |] eqn:E; try discriminate;
    try (intros [= <- <-]; destruct Inv as (Ho & Hall & Hidx & Hpos);
         split; [exact Ho|]; split; [|exact Hidx];
         eapply Forall_impl; [|exact Hall]; simpl; intros r Hr; lia).
  apply IH. now apply (split_inv_step data t).
Qed.

(** The pass ends and returns, with the fuel [split_concatenated_jpegs]
    gives it. *)
Lemma split_total data :
  exists count files,
    split_concatenated_jpegs data = Some (SplitReturns count files).
Proof.
  apply split_loop_total. unfold len. simpl. lia.
Qed.

(** ** Segments *)

(** On a marker that carries a length whose two bytes lie inside the blob,
    the loop reads them big-endian, raises on a length below 2 and
    otherwise moves the cursor by the length from the length field. *)
Lemma step_segment data s j mb :
  marker_at data (cur s) j mb -> has_length s mb = true ->
  j + 3 <= len data ->
  exists hi lo,
    index data (j + 1) = Some hi /\ index data (j + 2) = Some lo
    /\ _u16be (slice data (j + 1) (j + 3)) = Some (256 * ord hi + ord lo)
    /\ step data s
       = if 256 * ord hi + ord lo <? 2
         then Fail (ValueError (if ord mb =? SOS then BadSOSSeglen
                                else BadSegmentSeglen))
         else Next {| cur := j + 1 + (256 * ord hi + ord lo);
                      in_scan := in_scan s || (ord mb =? SOS) |}.
Proof.
  intros M HL Hn. rewrite (step_at_marker _ _ _ _ M).
  destruct M as (Hij & _).
  destruct (slice_two data (j + 1)) as (hi & lo & E & Hhi & Hlo); try lia.
  replace (j + 1 + 2) with (j + 3) in E by lia.
  replace (j + 1 + 1) with (j + 2) in Hlo by lia.
  exists hi, lo. split; [exact Hhi|]. split; [exact Hlo|].
  split; [now rewrite E, u16be_two|].
  unfold has_length in HL. apply andb_true_iff in HL. destruct HL as [HN HS].
  apply negb_true_iff in HN, HS.
  unfold handle_marker. cbv zeta. rewrite HS.
  destruct (Z.eqb_spec (ord mb) 0xD9) as [D|_].
  { rewrite D in HN. discriminate. }
  replace (j + 1 + 2) with (j + 3) by lia. rewrite E, u16be_two.
  rewrite Z.gtb_ltb. destruct (Z.ltb_spec (len data) (j + 3)); [lia|].
  destruct (ord mb =? SOS).
  - now rewrite orb_true_r.
  - now rewrite HN, orb_false_r.
Qed.

(** When the two bytes of the length field do not both lie inside the
    blob, the turn raises a truncated-segment error. *)
Lemma step_truncated data s j mb :
  marker_at data (cur s) j mb -> has_length s mb = true ->
  len data < j + 3 ->
  exists k, step data s = Fail (ValueError k)
            /\ kind_of k = TruncatedSegment.
Proof.
  intros M HL Hn. rewrite (step_at_marker _ _ _ _ M).
  unfold has_length in HL. apply andb_true_iff in HL. destruct HL as [HN HS].
  apply negb_true_iff in HN, HS.
  unfold handle_marker. cbv zeta. rewrite HS.
  destruct (Z.eqb_spec (ord mb) 0xD9) as [D|_].
  { rewrite D in HN. discriminate. }
  rewrite Z.gtb_ltb. destruct (Z.ltb_spec (len data) (j + 1 + 2)); [|lia].
  destruct (ord mb =? SOS); [|rewrite HN]; eexists; split; reflexivity.
Qed.

(** ** The properties of the specification *)

(** C1.  On the 18-byte blob FF D8 FF E0 00 04 01 02 FF DA 00 02 AA FF 00
    BB FF D9 the record scanner started at offset 0 returns 18, the blob
    length, and the splitter writes exactly one record, from 0 to 18. *)
Theorem C1_scenario_one_record :
  len scenario = 18
  /\ parse_one_jpeg scenario 0 = Some (Returns 18)
  /\ split_concatenated_jpegs scenario
     = Some (SplitReturns 1 [{| rec_start := 0; rec_end := 18 |}]).
Proof.
  repeat split; vm_compute; reflexivity.
Qed.

(** C2.  In scan mode, a run of escape bytes [0xFF] at the cursor whose
    category byte is [0x00] is not a marker and does not end the scan: the
    turn of the loop moves the cursor just past the zero byte, leaves
    [in_scan] true, and the loop goes on from there. *)
Theorem C2_stuffed_escape_is_skipped data s j :
  in_scan s = true ->
  marker_at data (cur s) j x00 ->
  step data s = Next {| cur := j + 1; in_scan := true |}
  /\ forall fuel,
       scan (S fuel) data s = scan fuel data {| cur := j + 1; in_scan := true |}.
Proof.
  intros Hs M.
  assert (E : step data s = Next {| cur := j + 1; in_scan := true |}).
  { rewrite (step_at_marker _ _ _ _ M). unfold handle_marker. cbv zeta.
    rewrite Hs. reflexivity. }
  split; [exact E|]. intros fuel. now apply scan_next.
Qed.

Lemma C2_witness :
  step scenario {| cur := 13; in_scan := true |}
  = Next {| cur := 14 + 1; in_scan := true |}
  /\ forall fuel,
       scan (S fuel) scenario {| cur := 13; in_scan := true |}
       = scan fuel scenario {| cur := 14 + 1; in_scan := true |}.
Proof.
  apply (C2_stuffed_escape_is_skipped scenario {| cur := 13; in_scan := true |} 14).
  - reflexivity.
  - apply marker_atb_sound. reflexivity.
Defined.

(** C3.  In the sequence of records written by one pass, each record ends
    at or before the start of the next one. *)
Theorem C3_records_do_not_overlap data count files :
  split_concatenated_jpegs data = Some (SplitReturns count files) ->
  forall i r1 r2,
    nth_error files i = Some r1 -> nth_error files (S i) = Some r2 ->
    rec_end r1 <= rec_start r2.
Proof.
  intros H. apply (split_loop_inv _ _ _ _ _ (split_inv_start data)) in H.
  apply ordered_nth. apply H.
Qed.

Lemma C3_witness :
  split_concatenated_jpegs (scenario ++ x00 :: scenario)
  = Some (SplitReturns 2 [{| rec_start := 0; rec_end := 18 |};
                          {| rec_start := 19; rec_end := 37 |}])
  /\ rec_end {| rec_start := 0; rec_end := 18 |}
     <= rec_start {| rec_start := 19; rec_end := 37 |}.
Proof.
  assert (E : split_concatenated_jpegs (scenario ++ x00 :: scenario)
              = Some (SplitReturns 2 [{| rec_start := 0; rec_end := 18 |};
                                      {| rec_start := 19; rec_end := 37 |}]))
    by (vm_compute; reflexivity).
  split; [exact E|].
  apply (C3_records_do_not_overlap _ _ _ E 0%nat); reflexivity.
Defined.

(** C4.  The splitter never raises: no turn of its loop lets an exception
    through, and the pass returns.  When the record scanner raises on the
    signature found at [soi], the exception is a [ValueError] of a
    truncated segment, an invalid length or an unterminated record, no
    record is written, the count is unchanged and the search resumes at
    [soi + 2]. *)
Theorem C4_scan_failures_are_skipped data :
  (forall t x, split_step data t <> SRaise x)
  /\ (exists count files,
        split_concatenated_jpegs data = Some (SplitReturns count files))
  /\ (forall t soi x,
        find_next_soi data (pos t) = soi -> 0 <= soi ->
        parse_one_jpeg data soi = Some (Raises x) ->
        (exists k, x = ValueError k
                   /\ (kind_of k = TruncatedSegment
                       \/ kind_of k = InvalidSegmentLength
                       \/ kind_of k = UnterminatedRecord))
        /\ split_step data t
           = SNext {| pos := soi + 2; idx := idx t; written := written t |}).
Proof.
  split; [|split].
  - intros t x H.
    destruct (split_step_cases data t _ eq_refl)
      as [[_ E]|(_ & _ & _ & [(k & _ & E)|(e & _ & _ & E)])];
      rewrite E in H; discriminate.
  - apply split_total.
  - intros t soi x <- H0 Hx.
    destruct (split_step_cases data t _ eq_refl)
      as [[E _]|(_ & _ & _ & [(k & P & E)|(e & P & _ & E)])];
      [lia| |congruence].
    split; [|rewrite P in Hx; injection Hx as <-; exact E].
    apply (parse_raises_kind data (find_next_soi data (pos t)));
      [now apply find_next_soi_at|exact Hx].
Qed.

Lemma C4_witness :
  find_next_soi dangling (pos split_start) = 0
  /\ parse_one_jpeg dangling 0 = Some (Raises (ValueError EOINotFound))
  /\ split_step dangling split_start
     = SNext {| pos := 0 + 2; idx := 0; written := [] |}.
Proof.
  split; [reflexivity|]. split; [vm_compute; reflexivity|].
  destruct (C4_scan_failures_are_skipped dangling) as (_ & _ & H).
  apply (H split_start 0 (ValueError EOINotFound));
    [reflexivity|lia|vm_compute; reflexivity].
Defined.

(** C5, as the code has it.  When the loop is on a marker that carries a
    length, the two length bytes lie inside the blob and the declared
    length would move the cursor past the end of the blob, the record scan
    fails with the error of an unterminated record ("EOI not found"): the
    cursor is moved, the loop test fails and the final [raise] is
    reached. *)
Theorem C5_overlong_segment_is_unterminated data start s j mb hi lo :
  not_at_soi data start = false ->
  reaches data (initial start) s ->
  marker_at data (cur s) j mb -> has_length s mb = true ->
  index data (j + 1) = Some hi -> index data (j + 2) = Some lo ->
  j + 1 + (256 * ord hi + ord lo) > len data ->
  exists k, parse_one_jpeg data start = Some (Raises (ValueError k))
            /\ kind_of k = UnterminatedRecord.
Proof.
  intros G R M HL Hhi Hlo Hover.
  assert (Hn : j + 3 <= len data).
  { destruct M as (Hij & _).
    assert (j + 2 < len data); [|lia].
    apply (index_Some_bound data (j + 2) lo); [lia|exact Hlo]. }
  destruct (step_segment _ _ _ _ M HL Hn) as (hi' & lo' & Hhi' & Hlo' & _ & E).
  assert (hi' = hi) by congruence. assert (lo' = lo) by congruence.
  subst hi' lo'.
  pose proof (ord_range hi). pose proof (ord_range lo).
  destruct (Z.ltb_spec (256 * ord hi + ord lo) 2); [lia|].
  exists EOINotFound. split; [|reflexivity].
  apply (parse_reaches data start s 1 _ G R).
  rewrite (scan_next _ _ _ _ E). apply scan_fail, step_exit.
  cbn [cur]. lia.
Qed.

Lemma C5_witness :
  exists k, parse_one_jpeg overlong 0 = Some (Raises (ValueError k))
            /\ kind_of k = UnterminatedRecord.
Proof.
  apply (C5_overlong_segment_is_unterminated
           overlong 0 (initial 0) 3 xe0 x00 x10).
  - reflexivity.
  - constructor.
  - apply marker_atb_sound. reflexivity.
  - reflexivity.
  - reflexivity.
  - reflexivity.
  - vm_compute. reflexivity.
Defined.

(** C5, as stated, fails: on FF D8 FF E0 00 10 the segment marker E0 at
    offset 3 declares 16 bytes at offset 4, where 2 are left; the length
    bytes are readable, and the scan fails with "EOI not found", which is
    not a truncated-segment error. *)
Lemma C5_counterexample :
  marker_at overlong (cur (initial 0)) 3 xe0
  /\ has_length (initial 0) xe0 = true
  /\ _u16be (slice overlong 4 6) = Some 16
  /\ 4 + 16 > len overlong
  /\ parse_one_jpeg overlong 0 = Some (Raises (ValueError EOINotFound))
  /\ ~ (exists k, parse_one_jpeg overlong 0 = Some (Raises (ValueError k))
                  /\ kind_of k = TruncatedSegment).
Proof.
  assert (P : parse_one_jpeg overlong 0 = Some (Raises (ValueError EOINotFound)))
    by (vm_compute; reflexivity).
  split.
  { apply marker_atb_sound. reflexivity. }
  split; [reflexivity|]. split; [reflexivity|].
  split; [vm_compute; reflexivity|]. split; [exact P|].
  intros (k & Hk & Hkind). rewrite P in Hk. injection Hk as <-. discriminate.
Qed.

(** C6.  On a marker that carries a length (scan-start included) whose two
    length bytes lie inside the blob, the declared length [L] is their
    big-endian value; if [L >= 2] the cursor after the turn is the offset
    of the length field plus [L], and if [L < 2] the turn raises an
    invalid-length error. *)
Theorem C6_segment_advances_by_declared_length data s j mb :
  marker_at data (cur s) j mb -> has_length s mb = true ->
  j + 3 <= len data ->
  exists hi lo,
    index data (j + 1) = Some hi /\ index data (j + 2) = Some lo
    /\ _u16be (slice data (j + 1) (j + 3)) = Some (256 * ord hi + ord lo)
    /\ (2 <= 256 * ord hi + ord lo ->
        step data s
        = Next {| cur := (j + 1) + (256 * ord hi + ord lo);
                  in_scan := in_scan s || (ord mb =? SOS) |})
    /\ (256 * ord hi + ord lo < 2 ->
        exists k, step data s = Fail (ValueError k)
                  /\ kind_of k = InvalidSegmentLength).
Proof.
  intros M HL Hn.
  destruct (step_segment _ _ _ _ M HL Hn) as (hi & lo & Hhi & Hlo & HU & E).
  exists hi, lo. split; [exact Hhi|]. split; [exact Hlo|]. split; [exact HU|].
  rewrite E. destruct (Z.ltb_spec (256 * ord hi + ord lo) 2); split; intros HL2;
    try lia; auto.
  eexists. split; [reflexivity|]. now destruct (ord mb =? SOS).
Qed.

Lemma C6_witness :
  exists hi lo,
    index scenario (3 + 1) = Some hi /\ index scenario (3 + 2) = Some lo
    /\ _u16be (slice scenario (3 + 1) (3 + 3)) = Some (256 * ord hi + ord lo)
    /\ (2 <= 256 * ord hi + ord lo ->
        step scenario (initial 0)
        = Next {| cur := (3 + 1) + (256 * ord hi + ord lo);
                  in_scan := in_scan (initial 0) || (ord xe0 =? SOS) |})
    /\ (256 * ord hi + ord lo < 2 ->
        exists k, step scenario (initial 0) = Fail (ValueError k)
                  /\ kind_of k = InvalidSegmentLength).
Proof.
  apply (C6_segment_advances_by_declared_length scenario (initial 0) 3 xe0).
  - apply marker_atb_sound. reflexivity.
  - reflexivity.
  - vm_compute. discriminate.
Defined.

(** C7.  In a record scan, [in_scan] is false on entering the loop, where
    the cursor is the record start plus 2; a turn of the loop sets it only
    on the scan-start marker [0xDA]; and once it is true it stays true in
    every later state of the scan. *)
Theorem C7_in_scan_is_sticky data start :
  not_at_soi data start = false ->
  cur (initial start) = start + 2 /\ in_scan (initial start) = false
  /\ forall s, reaches data (initial start) s ->
       (forall s', step data s = Next s' ->
          (in_scan s = true -> in_scan s' = true)
          /\ (in_scan s = false -> in_scan s' = true ->
              exists j, marker_at data (cur s) j xda))
       /\ (forall u, reaches data s u -> in_scan s = true -> in_scan u = true).
Proof.
  intros G. apply not_at_soi_false in G.
  split; [reflexivity|]. split; [reflexivity|].
  intros s R. apply reaches_cur in R. simpl in R. split.
  - intros s' E. split; [now apply (step_sticky data s)|].
    apply (step_sets data s s'); [lia|exact E].
  - intros u Ru. induction Ru as [|u v _ IH E]; [auto|].
    intros Hs. apply (step_sticky data u v E). now apply IH.
Qed.

Lemma C7_witness :
  not_at_soi scenario 0 = false
  /\ cur (initial 0) = 0 + 2 /\ in_scan (initial 0) = false
  /\ forall s, reaches scenario (initial 0) s ->
       (forall s', step scenario s = Next s' ->
          (in_scan s = true -> in_scan s' = true)
          /\ (in_scan s = false -> in_scan s' = true ->
              exists j, marker_at scenario (cur s) j xda))
       /\ (forall u, reaches scenario s u -> in_scan s = true -> in_scan u = true).
Proof.
  split; [reflexivity|].
  apply (C7_in_scan_is_sticky scenario 0). reflexivity.
Defined.

(** C8.  When the record scan started at [start] returns [e], then
    [start < e <= len data], and [e] is just after an end marker: the byte
    before [e] is [0xD9] and the one before it is the escape byte. *)
Theorem C8_end_is_after_end_marker data start e :
  parse_one_jpeg data start = Some (Returns e) ->
  start < e <= len data
  /\ index data (e - 2) = Some xff /\ index data (e - 1) = Some xd9.
Proof.
  intros H. apply parse_result in H. simpl in H. intuition lia.
Qed.

Lemma C8_witness :
  parse_one_jpeg scenario 0 = Some (Returns 18)
  /\ 0 < 18 <= len scenario
  /\ index scenario (18 - 2) = Some xff /\ index scenario (18 - 1) = Some xd9.
Proof.
  assert (E : parse_one_jpeg scenario 0 = Some (Returns 18))
    by (vm_compute; reflexivity).
  split; [exact E|]. exact (C8_end_is_after_end_marker scenario 0 18 E).
Defined.

(** C9.  Both loops end on every blob.  Each turn of the scanner loop that
    goes round again moves the cursor forward by at least one byte, so the
    record scan returns or raises within as many turns as the blob has
    bytes; each turn of the splitter loop that goes round again, after an
    accepted or a rejected candidate, moves the search position forward,
    and the pass returns within as many turns as the blob has bytes. *)
Theorem C9_scan_and_pass_terminate data :
  (forall s s', step data s = Next s' -> cur s + 1 <= cur s')
  /\ (forall start, exists r, parse_one_jpeg data start = Some r)
  /\ (forall fuel start, (length data <= fuel)%nat ->
        parse_one_jpeg_fuel fuel data start = parse_one_jpeg data start)
  /\ (forall t t', split_step data t = SNext t' -> pos t + 1 <= pos t')
  /\ (exists count files,
        split_concatenated_jpegs data = Some (SplitReturns count files)).
Proof.
  split; [|split; [|split; [|split]]].
  - intros s s' E. apply step_advances in E. lia.
  - apply parse_total.
  - intros fuel start. apply parse_fuel_stable.
  - intros t t' E. apply split_step_advances in E. lia.
  - apply split_total.
Qed.

Lemma C9_witness :
  cur (initial 0) + 1 <= cur {| cur := 8; in_scan := false |}
  /\ pos split_start + 1
     <= pos {| pos := 18; idx := 1;
               written := [{| rec_start := 0; rec_end := 18 |}] |}.
Proof.
  destruct (C9_scan_and_pass_terminate scenario) as (A & _ & _ & B & _).
  split.
  - apply (A (initial 0) {| cur := 8; in_scan := false |}). reflexivity.
  - apply (B split_start). vm_compute. reflexivity.
Defined.

(** C10, as the code has it.  The record scan checks its precondition
    first: it raises "start is not at SOI" exactly when [start < 0], or
    [start + 2] exceeds the blob length, or the two bytes at [start] are
    not FF D8, and then at once, before any turn of the loop; whatever it
    raises is one of its [ValueError]s.  In the first two cases the outcome
    depends on no byte of the blob; in the third the check has read the two
    bytes at [start] and [start + 1], and the outcome depends on no other
    byte. *)
Theorem C10_precondition_is_checked_first data start :
  (parse_one_jpeg data start = Some (Raises (ValueError NotAtSOI))
   <-> start < 0 \/ start + 2 > len data
       \/ slice data start (start + 2) <> SOI)
  /\ (forall x, parse_one_jpeg data start = Some (Raises x) ->
        exists k, x = ValueError k)
  /\ (not_at_soi data start = true ->
      forall fuel,
        parse_one_jpeg_fuel fuel data start
        = Some (Raises (ValueError NotAtSOI)))
  /\ (start < 0 \/ start + 2 > len data ->
      content_blind (fun d => parse_one_jpeg d start) data)
  /\ (slice data start (start + 2) <> SOI ->
      content_blind_except [start; start + 1]
        (fun d => parse_one_jpeg d start) data).
Proof.
  assert (T : forall d, not_at_soi d start = true ->
                forall fuel, parse_one_jpeg_fuel fuel d start
                             = Some (Raises (ValueError NotAtSOI))).
  { intros d G fuel. unfold parse_one_jpeg_fuel. now rewrite G. }
  split; [|split; [|split; [|split]]].
  - rewrite <- not_at_soi_true. split; [|intros G; now apply T].
    unfold parse_one_jpeg, parse_one_jpeg_fuel.
    destruct (not_at_soi data start) eqn:G; [reflexivity|].
    apply not_at_soi_false in G. intros H.
    apply scan_result in H; [|simpl; lia].
    destruct H as (k & [= <-] & Hk). congruence.
  - intros x H. now apply parse_result in H.
  - apply T.
  - intros C d Hd. unfold parse_one_jpeg. rewrite !T; auto;
      apply not_at_soi_true; rewrite ?Hd; tauto.
  - intros C d Hd Hsame.
    assert (G : not_at_soi data start = true) by (apply not_at_soi_true; tauto).
    unfold parse_one_jpeg. rewrite (T data G). apply T.
    apply not_at_soi_true. rewrite Hd.
    destruct (Z.lt_ge_cases start 0) as [|H0]; [tauto|].
    destruct (Z.lt_ge_cases (len data) (start + 2)) as [|Hn]; [right; left; lia|].
    right. right.
    destruct (slice_two data start) as (hi & lo & E & Hhi & Hlo); try lia.
    destruct (slice_two d start) as (hi' & lo' & E' & Hhi' & Hlo'); try lia.
    rewrite (Hsame start) in Hhi' by (simpl; auto).
    rewrite (Hsame (start + 1)) in Hlo' by (simpl; auto).
    assert (hi' = hi) by congruence. assert (lo' = lo) by congruence.
    subst. rewrite E'. now rewrite <- E.
Qed.

Lemma C10_witness :
  slice zeros 0 (0 + 2) <> SOI
  /\ parse_one_jpeg zeros 0 = Some (Raises (ValueError NotAtSOI))
  /\ content_blind_except [0; 0 + 1] (fun d => parse_one_jpeg d 0) zeros.
Proof.
  assert (N : slice zeros 0 (0 + 2) <> SOI) by discriminate.
  destruct (C10_precondition_is_checked_first zeros 0) as (A & _ & _ & _ & B).
  split; [exact N|]. split; [|exact (B N)].
  apply A. right. right. exact N.
Defined.

(** C10, as stated, fails: on 00 00 00 00 with [start = 0] the first two
    tests pass and the third one fails the call, yet the outcome does depend
    on the blob: FF D8 FF D9, of the same length, is scanned to its end.
    The check has read the two bytes at [start]. *)
Lemma C10_counterexample :
  0 <= 0 /\ 0 + 2 <= len zeros /\ slice zeros 0 (0 + 2) <> SOI
  /\ parse_one_jpeg zeros 0 = Some (Raises (ValueError NotAtSOI))
  /\ ~ content_blind (fun d => parse_one_jpeg d 0) zeros.
Proof.
  split; [lia|]. split; [vm_compute; discriminate|].
  split; [discriminate|]. split; [vm_compute; reflexivity|].
  intros B. specialize (B [xff; xd8; xff; xd9] eq_refl).
  vm_compute in B. discriminate.
Qed.

(** ** Further properties of the splitter *)

Lemma slice_in_range data a b :
  0 <= a <= b -> b <= len data ->
  slice data a b = firstn (Z.to_nat (b - a)) (skipn (Z.to_nat a) data).
Proof.
  intros Ha Hb. unfold slice. now rewrite !clamp_in_range by lia.
Qed.

(** [data[k:k+2]] for any offset from 0 on, past the end included. *)
Lemma slice_pair data k :
  0 <= k -> slice data k (k + 2) = firstn 2 (skipn (Z.to_nat k) data).
Proof.
  intros Hk. pose proof (len_nonneg data) as Hn.
  destruct (Z.le_gt_cases (k + 2) (len data)) as [H2|H2].
  { rewrite slice_in_range by lia. f_equal. lia. }
  unfold slice. cbv zeta.
  assert (Hb : clamp (len data) (k + 2) = len data)
    by (unfold clamp; cbv zeta; ztest).
  rewrite Hb.
  destruct (Z.le_gt_cases (len data) k) as [Hge|Hlt].
  - assert (Ha : clamp (len data) k = len data)
      by (unfold clamp; cbv zeta; ztest).
    rewrite Ha, Z.sub_diag. simpl firstn.
    rewrite (skipn_all2 data) by (unfold len in *; lia). reflexivity.
  - rewrite clamp_in_range by lia.
    assert (L : length (skipn (Z.to_nat k) data) = 1%nat)
      by (rewrite length_skipn; unfold len in *; lia).
    replace (Z.to_nat (len data - k)) with 1%nat by lia.
    destruct (skipn (Z.to_nat k) data) as [|x [|y l]]; simpl in L; try lia.
    reflexivity.
Qed.

(** [find_from] returns the first position of the signature, if any. *)
Lemma find_from_first l : forall k,
  (find_from l k = -1 /\ forall m, firstn 2 (skipn m l) <> SOI)
  \/ (exists d, find_from l k = k + Z.of_nat d
                /\ firstn 2 (skipn d l) = SOI
                /\ forall m, (m < d)%nat -> firstn 2 (skipn m l) <> SOI).
Proof.
  induction l as [|a l IH]; intros k.
  - left. split; [reflexivity|]. intros m. rewrite skipn_nil. discriminate.
  - rewrite find_from_cons.
    destruct (bytes_eqb (firstn 2 (a :: l)) SOI) eqn:E.
    + right. exists 0%nat. apply bytes_eqb_eq in E.
      split; [lia|]. split; [exact E|]. intros m Hm. lia.
    + assert (N : firstn 2 (a :: l) <> SOI).
      { intros H. apply bytes_eqb_eq in H. congruence. }
      destruct (IH (k + 1)) as [[H1 H2]|(d & H1 & H2 & H3)].
      * left. split; [exact H1|]. intros [|m]; [exact N|apply H2].
      * right. exists (S d). split; [lia|]. split; [exact H2|].
        intros [|m] Hm; [exact N|]. apply H3. lia.
Qed.

Lemma find_next_soi_first_occurrence data p :
  0 <= p ->
  (find_next_soi data p = -1
   /\ forall k, p <= k -> slice data k (k + 2) <> SOI)
  \/ (p <= find_next_soi data p
      /\ find_next_soi data p + 2 <= len data
      /\ slice data (find_next_soi data p) (find_next_soi data p + 2) = SOI
      /\ forall k, p <= k < find_next_soi data p ->
           slice data k (k + 2) <> SOI).
Proof.
  intros Hp. pose proof (len_nonneg data) as Hn.
  pose proof (find_next_soi_spec data p) as S.
  pose proof (find_next_soi_at data p) as A.
  revert S A. unfold find_next_soi. cbv zeta.
  set (c := clamp (len data) p).
  assert (Hc : c = Z.min p (len data))
    by (subst c; unfold clamp; cbv zeta; ztest).
  intros S A.
  destruct (find_from_first (skipn (Z.to_nat c) data) c)
    as [[H1 H2]|(d & H1 & H2 & H3)].
  - left. split; [exact H1|]. intros k Hk. rewrite slice_pair by lia.
    destruct (Z.le_gt_cases p (len data)) as [Hle|Hgt].
    + specialize (H2 (Z.to_nat (k - c))). rewrite skipn_skipn in H2.
      replace (Z.to_nat (k - c) + Z.to_nat c)%nat with (Z.to_nat k) in H2 by lia.
      exact H2.
    + rewrite (skipn_all2 data) by (unfold len in *; lia). discriminate.
  - right. destruct S as [S|(S1 & S2 & S3)]; [lia|].
    split; [exact S1|]. split; [exact S3|]. split.
    + apply not_at_soi_false in A; [|lia]. apply A.
    + intros k Hk. rewrite slice_pair by lia.
      assert (c = p) by lia.
      specialize (H3 (Z.to_nat (k - c))). rewrite skipn_skipn in H3.
      replace (Z.to_nat (k - c) + Z.to_nat c)%nat with (Z.to_nat k) in H3 by lia.
      apply H3. lia.
Qed.

Lemma slice_len data a b :
  0 <= a <= b -> b <= len data -> len (slice data a b) = b - a.
Proof.
  intros Ha Hb. rewrite slice_in_range by lia. unfold len in *.
  rewrite length_firstn, length_skipn. lia.
Qed.

Lemma slice_head data a b :
  0 <= a -> a + 2 <= b -> b <= len data ->
  firstn 2 (slice data a b) = slice data a (a + 2).
Proof.
  intros H0 Ha Hb. rewrite !slice_in_range by lia.
  rewrite firstn_firstn. f_equal. lia.
Qed.

Lemma slice_tail data a b :
  0 <= a -> a + 2 <= b -> b <= len data ->
  skipn (Z.to_nat (b - a - 2)) (slice data a b) = slice data (b - 2) b.
Proof.
  intros H0 Ha Hb. rewrite !slice_in_range by lia.
  rewrite skipn_firstn_comm, skipn_skipn. f_equal; [lia|f_equal; lia].
Qed.

(** Every file of a finished pass, beyond those written before the loop
    was entered in state [t], is a range the record scanner returned on a
    signature. *)
Lemma split_loop_records fuel : forall data t count files,
  split_loop fuel data t = Some (SplitReturns count files) ->
  exists news,
    files = written t ++ news
    /\ Forall (fun r => 0 <= rec_start r
                        /\ not_at_soi data (rec_start r) = false
                        /\ parse_one_jpeg data (rec_start r)
                           = Some (Returns (rec_end r))) news.
Proof.
  induction fuel as [|fuel IH]; intros data t count files; simpl;
    destruct (split_step_cases data t _ eq_refl)
      as [[_ E]|(H0 & H1 & H2 & [(k & P & E)|(e & P & He & E)])];
    rewrite E; try discriminate;
    try (intros [= <- <-]; exists []; split; [now rewrite app_nil_r|constructor]).
  - intros H. apply IH in H. exact H.
  - intros H. apply IH in H. destruct H as (news & -> & Hn). simpl.
    exists ({| rec_start := find_next_soi data (pos t); rec_end := e |} :: news).
    split; [now rewrite <- app_assoc|].
    constructor; [|exact Hn]. simpl.
    split; [exact H0|]. split; [now apply find_next_soi_at|exact P].
Qed.

(** What the record scanner's return says of the bytes of the range. *)
Lemma returned_range data start e :
  parse_one_jpeg data start = Some (Returns e) ->
  0 <= start /\ start + 4 <= e <= len data
  /\ firstn 2 (slice data start e) = SOI
  /\ skipn (Z.to_nat (e - start - 2)) (slice data start e) = [xff; xd9].
Proof.
  intros P. pose proof (parse_result _ _ _ P) as (H0 & He & Hff & Hd9).
  split; [exact H0|]. split; [exact He|].
  assert (G : not_at_soi data start = false).
  { destruct (not_at_soi data start) eqn:G; [|reflexivity].
    unfold parse_one_jpeg, parse_one_jpeg_fuel in P. rewrite G in P.
    discriminate. }
  apply not_at_soi_false in G. destruct G as (_ & _ & G).
  rewrite slice_head, slice_tail by lia. split; [exact G|].
  destruct (slice_two data (e - 2)) as (hi & lo & E & Hhi & Hlo); try lia.
  replace (e - 2 + 2) with e in E by lia.
  replace (e - 2 + 1) with (e - 1) in Hlo by lia.
  rewrite E. congruence.
Qed.

(** X2.  The count a pass returns is the number of files it wrote, and
    every file, holding [data[start:end]], has at least four bytes, lies
    inside the blob, begins with FF D8 and ends with FF D9. *)
Theorem X2_files_are_delimited data count files :
  split_concatenated_jpegs data = Some (SplitReturns count files) ->
  count = Z.of_nat (length files)
  /\ Forall (fun r =>
       0 <= rec_start r /\ rec_end r <= len data
       /\ 4 <= len (slice data (rec_start r) (rec_end r))
       /\ len (slice data (rec_start r) (rec_end r))
          = rec_end r - rec_start r
       /\ firstn 2 (slice data (rec_start r) (rec_end r)) = SOI
       /\ skipn (Z.to_nat (rec_end r - rec_start r - 2))
            (slice data (rec_start r) (rec_end r)) = [xff; xd9]) files.
Proof.
  intros H.
  pose proof (split_loop_inv _ _ _ _ _ (split_inv_start data) H) as (_ & _ & C).
  split; [exact C|].
  apply split_loop_records in H. destruct H as (news & -> & Hn). simpl.
  eapply Forall_impl; [|exact Hn]. simpl. intros r (_ & _ & P).
  apply returned_range in P. destruct P as (H0 & He & Hh & Ht).
  rewrite slice_len by lia. repeat split; try lia; assumption.
Qed.

Lemma X2_witness :
  split_concatenated_jpegs scenario
  = Some (SplitReturns 1 [{| rec_start := 0; rec_end := 18 |}])
  /\ firstn 2 (slice scenario 0 18) = SOI
  /\ skipn (Z.to_nat (18 - 0 - 2)) (slice scenario 0 18) = [xff; xd9].
Proof.
  assert (E : split_concatenated_jpegs scenario
              = Some (SplitReturns 1 [{| rec_start := 0; rec_end := 18 |}]))
    by (vm_compute; reflexivity).
  split; [exact E|].
  pose proof (X2_files_are_delimited _ _ _ E) as (_ & F).
  apply Forall_inv in F. simpl in F. split; apply F.
Defined.

(** ** Blobs laid end to end *)

Lemma len_app (a b : bytes) : len (a ++ b) = len a + len b.
Proof. unfold len. rewrite length_app. lia. Qed.

Lemma index_app_l (data extra : bytes) i :
  0 <= i < len data -> index (data ++ extra) i = index data i.
Proof.
  intros H. pose proof (len_nonneg extra).
  rewrite !index_in_range by (rewrite ?len_app; lia).
  apply nth_error_app1. unfold len in *. lia.
Qed.

Lemma slice_app_l (data extra : bytes) a b :
  0 <= a <= b -> b <= len data ->
  slice (data ++ extra) a b = slice data a b.
Proof.
  intros Ha Hb. pose proof (len_nonneg extra).
  rewrite !slice_in_range by (rewrite ?len_app; lia).
  rewrite skipn_app, firstn_app.
  replace (Z.to_nat (b - a) - length (skipn (Z.to_nat a) data))%nat with 0%nat
    by (rewrite length_skipn; unfold len in *; lia).
  simpl. apply app_nil_r.
Qed.

Lemma clamp_shift n k a :
  0 <= n -> 0 <= k -> 0 <= a -> clamp (k + n) (k + a) = k + clamp n a.
Proof. intros Hn Hk Ha. unfold clamp. cbv zeta. ztest. Qed.

Lemma slice_app_r (pre data : bytes) a b :
  0 <= a -> 0 <= b ->
  slice (pre ++ data) (len pre + a) (len pre + b) = slice data a b.
Proof.
  intros Ha Hb. pose proof (len_nonneg pre) as Hp.
  pose proof (len_nonneg data) as Hn.
  pose proof (clamp_bounds (len data) a Hn).
  unfold slice. cbv zeta. rewrite len_app, !clamp_shift by lia.
  rewrite skipn_app.
  rewrite (skipn_all2 pre) by (unfold len in *; lia). simpl.
  f_equal; [lia|f_equal; unfold len in *; lia].
Qed.

Lemma skip_fill_from_shift (pre data : bytes) fuel : forall j,
  0 <= j ->
  skip_fill_from fuel (pre ++ data) (len pre + j)
  = option_map (Z.add (len pre)) (skip_fill_from fuel data j).
Proof.
  induction fuel as [|fuel IH]; intros j Hj; simpl; [reflexivity|].
  rewrite len_app, index_app_r by lia.
  destruct (Z.ltb_spec j (len data)); destruct (Z.ltb_spec (len pre + j) (len pre + len data));
    try lia; [|reflexivity].
  destruct (index data j) as [b|]; [|reflexivity].
  destruct (ord b =? 255); [|reflexivity].
  replace (len pre + j + 1) with (len pre + (j + 1)) by lia.
  apply IH. lia.
Qed.

Lemma handle_marker_shift (pre data : bytes) s j m :
  0 <= j ->
  handle_marker (pre ++ data) (shift_state (len pre) s) (len pre + j) m
  = shift_outcome (len pre) (handle_marker data s j m).
Proof.
  intros Hj. unfold handle_marker. cbv zeta. rewrite len_app.
  replace (len pre + j + 1 + 2) with (len pre + (j + 1 + 2)) by lia.
  replace (len pre + j + 1) with (len pre + (j + 1)) by lia.
  rewrite slice_app_r by lia.
  rewrite !Z.gtb_ltb. simpl in_scan.
  destruct (in_scan s && (m =? 0)); [reflexivity|].
  destruct (m =? 217); [reflexivity|].
  destruct (Z.ltb_spec (len data) (j + 1 + 2));
    destruct (Z.ltb_spec (len pre + len data) (len pre + (j + 1 + 2)));
    try lia.
  - destruct (m =? SOS); [reflexivity|]. now destruct (mem m NO_LEN).
  - destruct (_u16be (slice data (j + 1) (j + 1 + 2))) as [L|].
    + destruct (L <? 2).
      * destruct (m =? SOS); [reflexivity|]. now destruct (mem m NO_LEN).
      * destruct (m =? SOS); [unfold shift_outcome, shift_state; simpl; do 2 f_equal; lia|].
        destruct (mem m NO_LEN); [reflexivity|].
        unfold shift_outcome, shift_state; simpl; do 2 f_equal; lia.
    + destruct (m =? SOS); [reflexivity|]. now destruct (mem m NO_LEN).
Qed.

(** A turn of the scanner loop behind a prefix is the turn without the
    prefix, moved. *)
Lemma step_shift (pre data : bytes) s :
  0 <= cur s ->
  step (pre ++ data) (shift_state (len pre) s)
  = shift_outcome (len pre) (step data s).
Proof.
  intros H0. unfold step. cbv zeta. rewrite len_app. simpl cur.
  rewrite index_app_r by lia.
  destruct (Z.ltb_spec (cur s) (len data - 1));
    destruct (Z.ltb_spec (len pre + cur s) (len pre + len data - 1));
    try lia; simpl negb; cbv iota; [|reflexivity].
  destruct (index data (cur s)) as [b|]; [|reflexivity].
  destruct (ord b =? 255); simpl negb; cbv iota.
  2:{ unfold shift_outcome, shift_state. simpl. do 2 f_equal. lia. }
  unfold skip_fill.
  replace (Z.to_nat (len pre + len data - (len pre + cur s)))
    with (Z.to_nat (len data - cur s)) by lia.
  rewrite len_app.
  replace (Z.to_nat (len pre + len data - (len pre + cur s)))
    with (Z.to_nat (len data - cur s)) by lia.
  rewrite skip_fill_from_shift by lia.
  destruct (skip_fill_from (Z.to_nat (len data - cur s)) data (cur s))
    as [j|] eqn:Ej; simpl option_map; cbv iota; [|reflexivity].
  apply skip_fill_from_ge in Ej.
  rewrite !Z.geb_leb.
  destruct (Z.leb_spec (len data) j);
    destruct (Z.leb_spec (len pre + len data) (len pre + j)); try lia;
    [reflexivity|].
  rewrite index_app_r by lia.
  destruct (index data j) as [mb|]; [|reflexivity].
  apply handle_marker_shift. lia.
Qed.

Lemma scan_shift (pre data : bytes) fuel : forall s,
  0 <= cur s ->
  scan fuel (pre ++ data) (shift_state (len pre) s)
  = option_map (shift_result (len pre)) (scan fuel data s).
Proof.
  induction fuel as [|fuel IH]; intros s H0; simpl;
    rewrite step_shift by lia;
    destruct (step data s) as [s'| |] eqn:E; simpl; try reflexivity.
  apply IH. apply step_advances in E. lia.
Qed.

Lemma not_at_soi_shift (pre data : bytes) start :
  0 <= start ->
  not_at_soi (pre ++ data) (len pre + start) = not_at_soi data start.
Proof.
  intros H0. pose proof (len_nonneg pre). unfold not_at_soi.
  rewrite len_app.
  replace (len pre + start + 2) with (len pre + (start + 2)) by lia.
  rewrite slice_app_r by lia. rewrite !Z.gtb_ltb.
  destruct (Z.ltb_spec start 0); destruct (Z.ltb_spec (len pre + start) 0);
    try lia.
  destruct (Z.ltb_spec (len data) (start + 2));
    destruct (Z.ltb_spec (len pre + len data) (len pre + (start + 2)));
    try lia; reflexivity.
Qed.

(** The record scanner behind a prefix. *)
Lemma parse_shift (pre data : bytes) start :
  0 <= start ->
  parse_one_jpeg (pre ++ data) (len pre + start)
  = option_map (shift_result (len pre)) (parse_one_jpeg data start).
Proof.
  intros H0.
  rewrite <- (parse_fuel_stable (length (pre ++ data)) data start)
    by (rewrite length_app; lia).
  unfold parse_one_jpeg, parse_one_jpeg_fuel.
  rewrite not_at_soi_shift by lia.
  destruct (not_at_soi data start); [reflexivity|].
  change (initial (len pre + start))
    with {| cur := len pre + start + 2; in_scan := false |}.
  replace {| cur := len pre + start + 2; in_scan := false |}
    with (shift_state (len pre) (initial start))
    by (unfold shift_state, initial; simpl; f_equal; lia).
  apply scan_shift. simpl. lia.
Qed.

Lemma marker_at_app data extra i j mb :
  marker_at data i j mb -> marker_at (data ++ extra) i j mb.
Proof.
  intros M. pose proof (marker_at_bound _ _ _ _ M) as Hj.
  destruct M as (Hij & Hrun & Hmb & Hne).
  split; [exact Hij|]. split; [|split; [|exact Hne]].
  - intros k Hk. rewrite index_app_l by lia. now apply Hrun.
  - rewrite index_app_l by lia. exact Hmb.
Qed.

Lemma handle_marker_app data extra s j m o :
  0 <= j ->
  handle_marker data s j m = o -> (forall x, o <> Fail x) ->
  handle_marker (data ++ extra) s j m = o.
Proof.
  intros Hj H N. pose proof (len_nonneg extra) as Hx. subst o. revert N.
  unfold handle_marker. cbv zeta. rewrite len_app, !Z.gtb_ltb.
  destruct (in_scan s && (m =? 0)); [reflexivity|].
  destruct (m =? 217); [reflexivity|].
  destruct (Z.ltb_spec (len data) (j + 1 + 2)).
  - destruct (m =? SOS); [intros N; now destruct (N _ eq_refl)|].
    destruct (mem m NO_LEN); [reflexivity|].
    intros N; now destruct (N _ eq_refl).
  - destruct (Z.ltb_spec (len data + len extra) (j + 1 + 2)); [lia|].
    rewrite slice_app_l by lia. reflexivity.
Qed.

(** A turn of the scanner loop that does not raise is the same when bytes
    are added after the blob. *)
Lemma step_app data extra s o :
  0 <= cur s -> step data s = o -> (forall x, o <> Fail x) ->
  step (data ++ extra) s = o.
Proof.
  intros H0 H N. pose proof (len_nonneg extra) as Hx.
  destruct (step_cases data s H0)
    as [[_ E]|[(Hg & (b & Hb & Hne) & E)|[(_ & _ & E)|(j & mb & M & E)]]];
    rewrite E in H; subst o; try (now destruct (N _ eq_refl)).
  - unfold step. cbv zeta. rewrite len_app.
    destruct (Z.ltb_spec (cur s) (len data + len extra - 1)); [|lia].
    rewrite index_app_l by lia. rewrite Hb. apply ord_not_ff in Hne.
    now rewrite Hne.
  - rewrite (step_at_marker _ _ _ _ (marker_at_app _ extra _ _ _ M)).
    apply handle_marker_app; auto. destruct M; lia.
Qed.

Lemma scan_app data extra fuel : forall s e,
  0 <= cur s -> scan fuel data s = Some (Returns e) ->
  scan fuel (data ++ extra) s = Some (Returns e).
Proof.
  induction fuel as [|fuel IH]; intros s e H0; simpl;
    destruct (step data s) as [s'| |] eqn:E; try discriminate;
    try (intros H; rewrite (step_app data extra s _ H0 E) by discriminate;
         exact H).
  intros H. rewrite (step_app data extra s _ H0 E) by discriminate.
  apply IH; [|exact H]. apply step_advances in E. lia.
Qed.

(** The end of a record does not depend on what follows it. *)
Lemma parse_app data extra start e :
  parse_one_jpeg data start = Some (Returns e) ->
  parse_one_jpeg (data ++ extra) start = Some (Returns e).
Proof.
  intros P. rewrite <- (parse_fuel_stable (length (data ++ extra)) data start) in P
    by (rewrite length_app; lia).
  revert P. unfold parse_one_jpeg, parse_one_jpeg_fuel.
  destruct (not_at_soi data start) eqn:G; [discriminate|].
  apply not_at_soi_false in G. destruct G as (G0 & G1 & G2).
  assert (G' : not_at_soi (data ++ extra) start = false).
  { apply not_at_soi_false. pose proof (len_nonneg extra).
    rewrite len_app, slice_app_l by lia. repeat split; auto; lia. }
  rewrite G'. apply scan_app. simpl. lia.
Qed.

Lemma find_from_shift l : forall c k,
  0 <= k ->
  find_from l (c + k)
  = if find_from l k <? 0 then -1 else c + find_from l k.
Proof.
  induction l as [|a l IH]; intros c k Hk; [reflexivity|].
  rewrite !find_from_cons.
  destruct (bytes_eqb (firstn 2 (a :: l)) SOI).
  - destruct (Z.ltb_spec k 0); [lia|reflexivity].
  - replace (c + k + 1) with (c + (k + 1)) by lia. apply IH. lia.
Qed.

(** The signature search behind a prefix. *)
Lemma find_next_soi_shift (pre data : bytes) p :
  0 <= p ->
  find_next_soi (pre ++ data) (len pre + p)
  = if find_next_soi data p <? 0 then -1
    else len pre + find_next_soi data p.
Proof.
  intros Hp. pose proof (len_nonneg pre) as Hl.
  pose proof (len_nonneg data) as Hn.
  pose proof (clamp_bounds (len data) p Hn) as Hc.
  unfold find_next_soi. cbv zeta.
  rewrite len_app, clamp_shift by lia.
  rewrite skipn_app, (skipn_all2 pre) by (unfold len in *; lia). simpl.
  replace (Z.to_nat (len pre + clamp (len data) p) - length pre)%nat
    with (Z.to_nat (clamp (len data) p)) by (unfold len in *; lia).
  apply find_from_shift. lia.
Qed.

(** A turn of the splitter loop behind a prefix. *)
Lemma split_step_shift (pre data : bytes) count0 files0 t :
  0 <= pos t ->
  split_step (pre ++ data) (shift_split_state (len pre) count0 files0 t)
  = shift_split_outcome (len pre) count0 files0 (split_step data t).
Proof.
  intros H0. unfold split_step. cbv zeta. simpl pos.
  rewrite find_next_soi_shift by lia.
  destruct (find_next_soi_spec data (pos t)) as [E|(H1 & H2 & H3)].
  { rewrite E. reflexivity. }
  pose proof (len_nonneg pre).
  destruct (Z.ltb_spec (find_next_soi data (pos t)) 0); [lia|].
  destruct (Z.ltb_spec (len pre + find_next_soi data (pos t)) 0); [lia|].
  rewrite parse_shift by lia.
  destruct (parse_one_jpeg data (find_next_soi data (pos t))) as [[e|[k| |]]|];
    simpl; try reflexivity; unfold shift_split_state; simpl; f_equal; f_equal;
    try lia.
  now rewrite map_app, app_assoc.
Qed.

Lemma split_loop_shift (pre data : bytes) count0 files0 fuel : forall t,
  0 <= pos t ->
  split_loop fuel (pre ++ data) (shift_split_state (len pre) count0 files0 t)
  = option_map (shift_split (len pre) count0 files0) (split_loop fuel data t).
Proof.
  induction fuel as [|fuel IH]; intros t H0; simpl;
    rewrite split_step_shift by lia;
    destruct (split_step data t) as [t'| | |] eqn:E; simpl; try reflexivity.
  apply IH. apply split_step_advances in E. lia.
Qed.

Lemma split_loop_mono fuel : forall data t r fuel',
  split_loop fuel data t = Some r -> (fuel <= fuel')%nat ->
  split_loop fuel' data t = Some r.
Proof.
  induction fuel as [|fuel IH]; intros data t r fuel'; simpl;
    destruct (split_step data t) as [t'| | |] eqn:E; try discriminate;
    intros H Hle; destruct fuel' as [|fuel']; simpl; rewrite E; auto; try lia.
  apply (IH _ _ _ _ H). lia.
Qed.

(** A whole record in front of a blob is written first, and the rest of
    the pass is the pass over the blob, moved. *)
Lemma split_cons rec rest count files :
  whole rec ->
  split_concatenated_jpegs rest = Some (SplitReturns count files) ->
  split_concatenated_jpegs (rec ++ rest)
  = Some (SplitReturns (1 + count)
            ({| rec_start := 0; rec_end := len rec |}
             :: map (shift_rec (len rec)) files)).
Proof.
  intros W R. unfold whole in W.
  pose proof (parse_result _ _ _ W) as (_ & Hlen & _).
  pose proof (parse_app _ rest _ _ W) as P.
  assert (G : slice (rec ++ rest) 0 (0 + 2) = SOI).
  { rewrite slice_app_l by lia.
    destruct (not_at_soi rec 0) eqn:G.
    - unfold parse_one_jpeg, parse_one_jpeg_fuel in W. rewrite G in W.
      discriminate.
    - apply not_at_soi_false in G. apply G. }
  assert (F : find_next_soi (rec ++ rest) 0 = 0).
  { destruct (find_next_soi_first_occurrence (rec ++ rest) 0)
      as [[_ N]|(F1 & _ & _ & N)]; [lia| |].
    - now destruct (N 0 ltac:(lia)).
    - destruct (Z.eq_dec (find_next_soi (rec ++ rest) 0) 0) as [|Hne]; [auto|].
      now destruct (N 0 ltac:(lia)). }
  assert (S1 : split_step (rec ++ rest) split_start
               = SNext (shift_split_state (len rec) 1
                          [{| rec_start := 0; rec_end := len rec |}]
                          split_start)).
  { unfold split_step. cbv zeta. simpl pos. rewrite F, P. simpl.
    unfold shift_split_state. simpl. f_equal. f_equal. lia. }
  unfold split_concatenated_jpegs.
  destruct (length (rec ++ rest)) as [|fuel] eqn:L.
  { rewrite length_app in L. unfold len in Hlen. lia. }
  simpl. rewrite S1. rewrite split_loop_shift by (simpl; lia).
  unfold split_concatenated_jpegs in R.
  rewrite (split_loop_mono _ _ _ _ fuel R).
  - reflexivity.
  - rewrite length_app in L. unfold len in Hlen. lia.
Qed.

Lemma ranges_shift k recs : forall j,
  map (shift_rec k) (ranges j recs) = ranges (k + j) recs.
Proof.
  induction recs as [|rec recs IH]; intros j; simpl; [reflexivity|].
  rewrite IH. unfold shift_rec. simpl.
  replace (k + (j + len rec)) with (k + j + len rec) by lia. reflexivity.
Qed.

(** Whole records laid end to end are written one by one. *)
Lemma split_concat recs :
  Forall whole recs ->
  split_concatenated_jpegs (concat recs)
  = Some (SplitReturns (Z.of_nat (length recs)) (ranges 0 recs)).
Proof.
  induction 1 as [|rec recs W _ IH]; [reflexivity|].
  simpl concat. rewrite (split_cons _ _ _ _ W IH).
  simpl ranges. rewrite ranges_shift.
  replace (len rec + 0) with (0 + len rec) by lia.
  do 2 f_equal. simpl length. lia.
Qed.

(** ** Well-formed records are scanned to their end *)

Lemma no_len_marker m :
  mem (ord m) NO_LEN = true -> m <> xff /\ ord m <> 0 /\ ord m <> SOS.
Proof.
  intros H. repeat split; intros E; rewrite E in H; vm_compute in H;
    discriminate.
Qed.

Lemma len_cons (x : byte) (l : bytes) : len (x :: l) = 1 + len l.
Proof. unfold len. simpl length. lia. Qed.

Lemma len_repeat (x : byte) k : len (repeat x k) = Z.of_nat k.
Proof. unfold len. now rewrite repeat_length. Qed.

Lemma body_bytes_len its fill : 2 <= len (body_bytes its fill).
Proof.
  unfold body_bytes. rewrite !len_app, len_repeat.
  pose proof (len_nonneg (concat (map item_bytes its))).
  change (len [xd9]) with 1. lia.
Qed.

(** The escape bytes and the category byte of an item that begins a
    blob. *)
Lemma marker_at_front fill m (post : bytes) :
  m <> xff ->
  marker_at (repeat xff (S fill) ++ m :: post) 0 (Z.of_nat (S fill)) m.
Proof.
  intros H. exact (marker_at_run [] post fill m H).
Qed.

(** The bytes after the category byte of an item that begins a blob. *)
Lemma index_after_fill fill (l : bytes) i :
  0 <= i -> index (repeat xff (S fill) ++ l) (Z.of_nat (S fill) + i) = index l i.
Proof.
  intros H. rewrite <- (len_repeat xff (S fill)). now apply index_app_r.
Qed.

Lemma app_marker fill m (tail rest : bytes) :
  (repeat xff (S fill) ++ m :: tail) ++ rest
  = repeat xff (S fill) ++ m :: (tail ++ rest).
Proof. now rewrite <- app_assoc. Qed.

Lemma scan_done fuel data s e :
  step data s = Done e -> scan fuel data s = Some (Returns e).
Proof. intros E. destruct fuel; simpl; now rewrite E. Qed.

(** One turn of the scanner loop walks one item. *)
Lemma step_item b it (rest : bytes) :
  item_ok b it = true -> 2 <= len rest ->
  step (item_bytes it ++ rest) {| cur := 0; in_scan := b |}
  = Next {| cur := len (item_bytes it); in_scan := item_scan b it |}.
Proof.
  intros Hok Hrest. destruct it as [x|fill m|fill|fill m hi lo payload];
    unfold item_bytes, item_scan; cbn [item_ok] in Hok.
  - apply negb_true_iff, Byte.eqb_false in Hok.
    change ([x] ++ rest) with (x :: rest).
    unfold step. cbv zeta. cbn [cur in_scan]. rewrite len_cons.
    destruct (Z.ltb_spec 0 (1 + len rest - 1)); [|lia].
    rewrite index_in_range by (rewrite len_cons; lia).
    change (nth_error (x :: rest) (Z.to_nat 0)) with (Some x).
    apply ord_not_ff in Hok. cbn [negb]. now rewrite Hok.
  - apply andb_true_iff in Hok. destruct Hok as [Hm Hd].
    apply negb_true_iff in Hd.
    destruct (no_len_marker m Hm) as (Hff & H0 & Hs).
    rewrite app_marker.
    rewrite (step_at_marker _ _ (Z.of_nat (S fill)) m)
      by (apply marker_at_front; exact Hff).
    unfold handle_marker. cbv zeta. cbn [in_scan].
    apply Z.eqb_neq in H0, Hs. rewrite H0, andb_false_r, Hd, Hs, Hm.
    f_equal. f_equal. rewrite len_app, len_repeat. change (len [m]) with 1.
    reflexivity.
  - subst b. rewrite app_marker.
    rewrite (step_at_marker _ _ (Z.of_nat (S fill)) x00)
      by (apply marker_at_front; discriminate).
    unfold handle_marker. cbv zeta. cbn [in_scan].
    change (ord x00 =? 0) with true. cbn [andb].
    f_equal. f_equal. rewrite len_app, len_repeat. change (len [x00]) with 1.
    reflexivity.
  - apply andb_true_iff in Hok. destruct Hok as [Hok HL].
    apply andb_true_iff in Hok. destruct Hok as [Hff Hhl].
    apply negb_true_iff, Byte.eqb_false in Hff. apply Z.eqb_eq in HL.
    pose proof (len_nonneg payload) as Hp.
    rewrite app_marker.
    change ((hi :: lo :: payload) ++ rest) with (hi :: lo :: payload ++ rest).
    set (data := repeat xff (S fill) ++ m :: hi :: lo :: payload ++ rest).
    assert (M : marker_at data (cur {| cur := 0; in_scan := b |})
                  (Z.of_nat (S fill)) m)
      by (apply marker_at_front; exact Hff).
    assert (Hn : Z.of_nat (S fill) + 3 <= len data).
    { subst data. rewrite len_app, len_repeat, !len_cons, len_app. lia. }
    destruct (step_segment _ _ _ _ M Hhl Hn) as (hi' & lo' & Hhi & Hlo & _ & E).
    assert (Hhi' : index data (Z.of_nat (S fill) + 1) = Some hi).
    { subst data. rewrite index_after_fill by lia.
      rewrite index_in_range by (rewrite !len_cons, len_app; lia).
      reflexivity. }
    assert (Hlo' : index data (Z.of_nat (S fill) + 2) = Some lo).
    { subst data. rewrite index_after_fill by lia.
      rewrite index_in_range by (rewrite !len_cons, len_app; lia).
      reflexivity. }
    assert (hi' = hi) by congruence. assert (lo' = lo) by congruence.
    subst hi' lo'. rewrite E.
    destruct (Z.ltb_spec (256 * ord hi + ord lo) 2); [lia|].
    f_equal. cbn [in_scan]. f_equal.
    rewrite len_app, len_repeat, !len_cons. lia.
Qed.

(** The scanner loop walks a body to the end of its end marker. *)
Lemma scan_body fill its : forall b,
  items_ok b its = true ->
  exists fuel,
    scan fuel (body_bytes its fill) {| cur := 0; in_scan := b |}
    = Some (Returns (len (body_bytes its fill))).
Proof.
  induction its as [|it its IH]; intros b Hok.
  - exists 0%nat.
    change (body_bytes [] fill) with (repeat xff (S fill) ++ [xd9]).
    rewrite len_app, len_repeat. change (len [xd9]) with 1.
    apply scan_done.
    rewrite (step_at_marker _ _ (Z.of_nat (S fill)) xd9)
      by (apply marker_at_front; discriminate).
    unfold handle_marker. cbv zeta. cbn [in_scan].
    change (ord xd9 =? 0) with false. rewrite andb_false_r. reflexivity.
  - cbn [items_ok] in Hok. apply andb_true_iff in Hok.
    destruct Hok as [Hit Hits].
    destruct (IH _ Hits) as [fuel Hf]. exists (S fuel).
    assert (B : body_bytes (it :: its) fill
                = item_bytes it ++ body_bytes its fill).
    { unfold body_bytes. simpl. now rewrite app_assoc. }
    rewrite B.
    rewrite (scan_next _ _ _ _ (step_item b it _ Hit (body_bytes_len its fill))).
    replace {| cur := len (item_bytes it); in_scan := item_scan b it |}
      with (shift_state (len (item_bytes it))
              {| cur := 0; in_scan := item_scan b it |})
      by (unfold shift_state; simpl; f_equal; lia).
    rewrite scan_shift by (simpl; lia). rewrite Hf. simpl.
    now rewrite len_app.
Qed.

(** A well-formed record is whole. *)
Lemma record_whole its fill :
  items_ok false its = true -> whole (record_bytes its fill).
Proof.
  intros Hok. unfold whole, record_bytes.
  pose proof (body_bytes_len its fill) as Hb.
  unfold parse_one_jpeg, parse_one_jpeg_fuel.
  assert (G : not_at_soi (SOI ++ body_bytes its fill) 0 = false).
  { apply not_at_soi_false. rewrite len_app. change (len SOI) with 2.
    split; [lia|]. split; [lia|].
    now rewrite slice_app_l by (change (len SOI) with 2; lia). }
  rewrite G.
  change (initial 0) with (shift_state (len SOI) {| cur := 0; in_scan := false |}).
  rewrite scan_shift by (simpl; lia).
  destruct (scan_body fill its false Hok) as [fuel Hf].
  destruct (scan_total (length (SOI ++ body_bytes its fill))
              (body_bytes its fill) {| cur := 0; in_scan := false |})
    as [r Hr].
  { rewrite length_app. unfold len. simpl. lia. }
  rewrite Hr. rewrite (scan_deterministic _ _ _ _ _ _ Hr Hf).
  cbn [option_map shift_result]. now rewrite len_app.
Qed.

(** ** Further properties of [split_jpeg.py] *)

(** X1.  From a search position [p >= 0], [find_next_soi] returns the
    first offset at or after [p] where the two bytes FF D8 stand, and -1
    exactly when there is none. *)
Theorem X1_find_next_soi_is_first data p :
  0 <= p ->
  (find_next_soi data p = -1
   /\ forall k, p <= k -> slice data k (k + 2) <> SOI)
  \/ (p <= find_next_soi data p
      /\ find_next_soi data p + 2 <= len data
      /\ slice data (find_next_soi data p) (find_next_soi data p + 2) = SOI
      /\ forall k, p <= k < find_next_soi data p ->
           slice data k (k + 2) <> SOI).
Proof. apply find_next_soi_first_occurrence. Qed.

Lemma X1_witness :
  0 <= 1
  /\ find_next_soi (scenario ++ scenario) 1 = 18
  /\ slice (scenario ++ scenario) 18 (18 + 2) = SOI
  /\ slice (scenario ++ scenario) 8 (8 + 2) <> SOI.
Proof.
  assert (F : find_next_soi (scenario ++ scenario) 1 = 18) by reflexivity.
  split; [lia|]. split; [exact F|].
  destruct (X1_find_next_soi_is_first (scenario ++ scenario) 1)
    as [[E _]|(_ & _ & A & B)]; [lia|rewrite F in E; discriminate|].
  rewrite F in A, B. split; [exact A|]. apply B. lia.
Defined.

(** X3.  A blob in which FF D8 stands nowhere, or FF D9 stands nowhere,
    gives no file: the pass returns 0 and writes nothing. *)
Theorem X3_no_signature_no_file data :
  (forall k, 0 <= k -> slice data k (k + 2) <> SOI)
  \/ (forall k, 0 <= k -> slice data k (k + 2) <> [xff; xd9]) ->
  split_concatenated_jpegs data = Some (SplitReturns 0 []).
Proof.
  intros [N|N].
  - unfold split_concatenated_jpegs.
    assert (E : split_step data split_start = SBreak).
    { destruct (split_step_cases data split_start _ eq_refl)
        as [[_ E]|(H0 & H1 & H2 & _)]; [exact E|exfalso].
      pose proof H0 as A.
      apply find_next_soi_at, not_at_soi_false in A.
      now apply (N (find_next_soi data (pos split_start))). }
    destruct (length data); simpl; now rewrite E.
  - destruct (split_total data) as (count & files & H). rewrite H.
    pose proof (split_loop_inv _ _ _ _ _ (split_inv_start data) H) as (_ & _ & C).
    apply split_loop_records in H. destruct H as (news & -> & Hn).
    simpl in *. destruct news as [|r news]; [now subst|exfalso].
    apply Forall_inv in Hn. destruct Hn as (_ & _ & P).
    pose proof (parse_result _ _ _ P) as (H0 & He & Hff & Hd9).
    apply (N (rec_end r - 2)); [lia|].
    destruct (slice_two data (rec_end r - 2)) as (hi & lo & E & Hhi & Hlo);
      try lia.
    replace (rec_end r - 2 + 1) with (rec_end r - 1) in Hlo by lia.
    rewrite E. congruence.
Qed.

Lemma X3_witness :
  split_concatenated_jpegs overlong = Some (SplitReturns 0 []).
Proof.
  apply X3_no_signature_no_file. right. intros k Hk.
  rewrite slice_pair by lia.
  destruct (Z.to_nat k) as [|[|[|[|[|[|n]]]]]]; try discriminate.
  simpl. rewrite skipn_nil. discriminate.
Defined.

(** X4.  The end the record scanner returns does not depend on what
    follows the record: bytes added after the blob leave it unchanged. *)
Theorem X4_record_end_is_local data extra start e :
  parse_one_jpeg data start = Some (Returns e) ->
  parse_one_jpeg (data ++ extra) start = Some (Returns e).
Proof. apply parse_app. Qed.

Lemma X4_witness :
  parse_one_jpeg (scenario ++ overlong) 0 = Some (Returns 18).
Proof.
  apply (X4_record_end_is_local scenario overlong 0 18).
  vm_compute. reflexivity.
Defined.

(** X5.  The record scanner works on offsets relative to nothing but the
    start it is given: behind a prefix, started [len pre] further, it
    returns an end [len pre] further, or raises the same exception. *)
Theorem X5_scanner_behind_prefix (pre data : bytes) start :
  0 <= start ->
  parse_one_jpeg (pre ++ data) (len pre + start)
  = option_map (shift_result (len pre)) (parse_one_jpeg data start).
Proof. apply parse_shift. Qed.

Lemma X5_witness :
  parse_one_jpeg (overlong ++ scenario) (len overlong + 0)
  = option_map (shift_result (len overlong)) (parse_one_jpeg scenario 0).
Proof.
  apply (X5_scanner_behind_prefix overlong scenario 0). lia.
Defined.

(** X6.  When a blob begins with a whole record, the pass writes that
    record first, from 0 to its length, and then the files of the pass over
    the rest of the blob, moved by the length of the record. *)
Theorem X6_leading_record_is_split_off rec rest count files :
  whole rec ->
  split_concatenated_jpegs rest = Some (SplitReturns count files) ->
  split_concatenated_jpegs (rec ++ rest)
  = Some (SplitReturns (1 + count)
            ({| rec_start := 0; rec_end := len rec |}
             :: map (shift_rec (len rec)) files)).
Proof. apply split_cons. Qed.

Lemma X6_witness :
  split_concatenated_jpegs (scenario ++ x00 :: scenario)
  = Some (SplitReturns (1 + 1)
            ({| rec_start := 0; rec_end := len scenario |}
             :: map (shift_rec (len scenario))
                  [{| rec_start := 1; rec_end := 19 |}])).
Proof.
  apply (X6_leading_record_is_split_off scenario (x00 :: scenario) 1
           [{| rec_start := 1; rec_end := 19 |}]).
  - vm_compute. reflexivity.
  - vm_compute. reflexivity.
Defined.

(** X7.  A well-formed record (the start signature; then plain bytes,
    markers without a length, segments whose length counts its own two
    bytes and the payload, and, once a scan-start segment has gone by,
    stuffed FF 00 pairs; then the end marker, fill bytes allowed before
    every marker) is scanned to its exact end, whatever follows it. *)
Theorem X7_well_formed_record_is_scanned its fill rest :
  items_ok false its = true ->
  parse_one_jpeg (record_bytes its fill ++ rest) 0
  = Some (Returns (len (record_bytes its fill))).
Proof.
  intros Hok. apply parse_app. now apply record_whole.
Qed.

Lemma X7_witness :
  record_bytes restart_items 2
  = [xff; xd8; xff; xff; xdb; x00; x03; xff; xff; xda; x00; x02; x11;
     xff; xd0; xff; xff; x00; x22; xff; xff; xff; xd9]
  /\ parse_one_jpeg (record_bytes restart_items 2 ++ [x00]) 0
     = Some (Returns (len (record_bytes restart_items 2))).
Proof.
  split; [reflexivity|].
  apply (X7_well_formed_record_is_scanned restart_items 2 [x00]).
  reflexivity.
Defined.

(** X8.  A blob made of well-formed records laid end to end is split into
    exactly those records: as many files as records, each from the end of
    the one before to its own end. *)
Theorem X8_concatenated_records_are_recovered
  (specs : list (list item * nat)) :
  Forall (fun p => items_ok false (fst p) = true) specs ->
  split_concatenated_jpegs
    (concat (map (fun p => record_bytes (fst p) (snd p)) specs))
  = Some (SplitReturns (Z.of_nat (length specs))
            (ranges 0 (map (fun p => record_bytes (fst p) (snd p)) specs))).
Proof.
  intros H.
  rewrite <- (length_map (fun p => record_bytes (fst p) (snd p)) specs).
  apply split_concat. apply Forall_map.
  eapply Forall_impl; [|exact H]. intros [its fill] Hok. now apply record_whole.
Qed.

Lemma X8_witness :
  record_bytes scenario_items 0 = scenario
  /\ split_concatenated_jpegs
       (concat (map (fun p => record_bytes (fst p) (snd p))
                  [(scenario_items, 0%nat); (restart_items, 2%nat)]))
     = Some (SplitReturns 2 [{| rec_start := 0; rec_end := 18 |};
                             {| rec_start := 18; rec_end := 41 |}]).
Proof.
  split; [reflexivity|].
  apply (X8_concatenated_records_are_recovered
           [(scenario_items, 0%nat); (restart_items, 2%nat)]).
  repeat constructor.
Defined.

(** X9.  On a marker without a length (SOI, RST0 to RST7, TEM) the loop
    moves just past the marker byte, reads no length field and leaves the
    scan mode as it is. *)
Theorem X9_standalone_marker_has_no_length data s j m :
  marker_at data (cur s) j m ->
  mem (ord m) NO_LEN = true -> m <> xd9 ->
  step data s = Next {| cur := j + 1; in_scan := in_scan s |}.
Proof.
  intros M Hm Hd. destruct (no_len_marker m Hm) as (_ & H0 & Hs).
  rewrite (step_at_marker _ _ _ _ M). unfold handle_marker. cbv zeta.
  apply Z.eqb_neq in H0, Hs. rewrite H0, andb_false_r, Hs, Hm.
  destruct (Z.eqb_spec (ord m) 0xD9) as [E|_]; [|reflexivity].
  apply (ord_inj m xd9) in E. contradiction.
Qed.

Lemma X9_witness :
  step (record_bytes restart_items 2) {| cur := 13; in_scan := true |}
  = Next {| cur := 14 + 1; in_scan := true |}.
Proof.
  apply (X9_standalone_marker_has_no_length
           (record_bytes restart_items 2) {| cur := 13; in_scan := true |}
           14 xd0).
  - apply marker_atb_sound. reflexivity.
  - reflexivity.
  - discriminate.
Defined.

(** X10.  [_u16be] returns a value exactly on two bytes, and then their
    big-endian value, between 0 and 65535; on any other length it
    raises. *)
Theorem X10_u16be_is_big_endian b :
  match _u16be b with
  | Some v =>
      exists hi lo, b = [hi; lo] /\ v = 256 * ord hi + ord lo
                    /\ 0 <= v < 65536
  | None => length b <> 2%nat
  end.
Proof.
  destruct b as [|hi [|lo [|x b]]]; try (simpl; lia).
  rewrite u16be_two. exists hi, lo.
  pose proof (ord_range hi). pose proof (ord_range lo).
  repeat split; lia.
Qed.

Lemma X10_witness :
  exists hi lo, [x01; x02] = [hi; lo] /\ 258 = 256 * ord hi + ord lo
                /\ 0 <= 258 < 65536.
Proof. exact (X10_u16be_is_big_endian [x01; x02]). Defined.

(** * Properties of [bgz_dump.py] *)

(** ** Byte values *)

Lemma be_value_snoc (b : bytes) x :
  be_value (b ++ [x]) = 256 * be_value b + ord x.
Proof. unfold be_value. now rewrite fold_left_app. Qed.

Lemma be_value_range (b : bytes) : 0 <= be_value b < 256 ^ len b.
Proof.
  induction b as [|x b IH] using rev_ind.
  - change (0 <= 0 < 1). lia.
  - rewrite be_value_snoc, len_app. change (len [x]) with 1.
    pose proof (len_nonneg b). pose proof (ord_range x).
    rewrite Z.pow_add_r by lia. change (256 ^ 1) with 256. nia.
Qed.

Lemma le_value_rev (b : bytes) : le_value b = be_value (rev b).
Proof.
  induction b as [|x b IH]; [reflexivity|].
  simpl rev. rewrite be_value_snoc, <- IH.
  change (le_value (x :: b)) with (ord x + 256 * le_value b). lia.
Qed.

(** [data[a:b]] has the bytes between the two bounds that lie inside the
    blob. *)
Lemma slice_len_clamped data a b :
  0 <= a <= b ->
  len (slice data a b) = Z.min b (len data) - Z.min a (len data).
Proof.
  intros H. pose proof (len_nonneg data) as Hn. unfold slice. cbv zeta.
  assert (Ea : clamp (len data) a = Z.min a (len data))
    by (unfold clamp; cbv zeta; ztest).
  assert (Eb : clamp (len data) b = Z.min b (len data))
    by (unfold clamp; cbv zeta; ztest).
  rewrite Ea, Eb. unfold len in *. rewrite length_firstn, length_skipn. lia.
Qed.

(** ** Reading the file *)

Lemma read_u32_content f endian :
  BgzDump.content (snd (BgzDump.read_u32 f endian)) = BgzDump.content f.
Proof.
  unfold BgzDump.read_u32, BgzDump.read. cbv zeta.
  repeat match goal with |- context [if ?c then _ else _] => destruct c end;
    reflexivity.
Qed.

(** With four bytes left, [read_u32] reads them and moves on by four. *)
Lemma read_u32_fits f endian :
  0 <= BgzDump.tell f -> BgzDump.tell f + 4 <= len (BgzDump.content f) ->
  BgzDump.read_u32 f endian
  = (if String.eqb endian "be" || String.eqb endian "le"
     then inr (decode_u32 endian
                 (slice (BgzDump.content f) (BgzDump.tell f)
                    (BgzDump.tell f + 4)))
     else inl BgzDump.EndianValueError,
     {| BgzDump.content := BgzDump.content f;
        BgzDump.tell := BgzDump.tell f + 4 |}).
Proof.
  intros H0 H4. unfold BgzDump.read_u32, BgzDump.read, decode_u32. cbv zeta.
  change (4 <? 0) with false. cbv iota.
  rewrite slice_len by lia.
  replace (BgzDump.tell f + 4 - BgzDump.tell f) with 4 by lia.
  change (negb (4 =? 4)) with false. cbv iota.
  destruct (String.eqb endian "be"); [reflexivity|].
  destruct (String.eqb endian "le"); reflexivity.
Qed.

(** With fewer than four bytes left, it raises [EOFError], whatever
    [endian] is. *)
Lemma read_u32_short f endian :
  0 <= BgzDump.tell f -> len (BgzDump.content f) < BgzDump.tell f + 4 ->
  fst (BgzDump.read_u32 f endian) = inl BgzDump.EOFError.
Proof.
  intros H0 H4. unfold BgzDump.read_u32, BgzDump.read. cbv zeta.
  change (4 <? 0) with false. cbv iota.
  rewrite slice_len_clamped by lia.
  destruct (Z.eqb_spec (Z.min (BgzDump.tell f + 4) (len (BgzDump.content f))
                        - Z.min (BgzDump.tell f) (len (BgzDump.content f))) 4);
    [lia|reflexivity].
Qed.



(** ** The blocks *)

Lemma seek_read_content f o f1 k :
  BgzDump.seek f o = Some f1 ->
  BgzDump.content (snd (BgzDump.read f1 k)) = BgzDump.content f
  /\ 0 <= o
  /\ (0 <= k -> fst (BgzDump.read f1 k) = slice (BgzDump.content f) o (o + k)).
Proof.
  unfold BgzDump.seek, BgzDump.read. cbv zeta.
  destruct (Z.ltb_spec o 0); [discriminate|]. intros [= <-]. simpl.
  split; [reflexivity|]. split; [lia|]. intros Hk.
  destruct (Z.ltb_spec k 0); [lia|reflexivity].
Qed.

(** A turn of the block loop never raises, leaves the content of the file
    alone and appends the block [block_spec] describes. *)
Lemma block_step_spec abs_ptrs rm f i ofs :
  exists b f',
    BgzDump.block_step (len (BgzDump.content f)) abs_ptrs rm f i ofs
    = inr (b, f')
    /\ BgzDump.content f' = BgzDump.content f
    /\ block_spec (BgzDump.content f) abs_ptrs i ofs b.
Proof.
  set (data := BgzDump.content f).
  unfold BgzDump.block_step, BgzDump.within. cbv zeta.
  rewrite Nat.add_1_r.
  destruct (Z.leb_spec 0 ofs); destruct (Z.ltb_spec ofs (len data));
    cbn [andb negb];
    try (eexists; eexists; split; [reflexivity|]; split; [reflexivity|];
         unfold block_spec; cbn; split; [reflexivity|]; split; [reflexivity|];
         right; split; [reflexivity|]; split; [reflexivity|]; left;
         split; [reflexivity|lia]).
  assert (Sized : forall size,
    0 < size -> ofs + size <= len data ->
    ((S i < length abs_ptrs)%nat -> size = nth (S i) abs_ptrs 0 - ofs) ->
    ((length abs_ptrs <= S i)%nat -> size = len data - ofs) ->
    exists b f',
      match BgzDump.seek f ofs with
      | Some f1 =>
          let (sig, f2) := BgzDump.read f1 16 in
          inr ({| BgzDump.index := Z.of_nat i; BgzDump.ofs := ofs;
                  BgzDump.size := size;
                  BgzDump.ext := BgzDump.detect_ext sig;
                  BgzDump.note := String.EmptyString |}, f2)
      | None => inl BgzDump.SeekError
      end = inr (b, f')
      /\ BgzDump.content f' = data /\ block_spec data abs_ptrs i ofs b).
  { intros size Hs1 Hs2 Hs3 Hs4.
    destruct (BgzDump.seek f ofs) as [f1|] eqn:Es.
    2:{ unfold BgzDump.seek in Es. destruct (Z.ltb_spec ofs 0); [lia|discriminate]. }
    destruct (seek_read_content f ofs f1 16 Es) as (C & _ & R).
    specialize (R ltac:(lia)).
    destruct (BgzDump.read f1 16) as [sig f2]. simpl in C, R. subst sig.
    eexists; eexists. split; [reflexivity|]. split; [exact C|].
    unfold block_spec; cbn. split; [reflexivity|]. split; [reflexivity|].
    left. repeat split; auto; lia. }
  destruct (Z.ltb_spec (Z.of_nat i) (Z.of_nat (length abs_ptrs) - 1)).
  - destruct (Z.ltb_spec (nth (S i) abs_ptrs 0) ofs).
    + assert (E : (if rm
                   then inr ({| BgzDump.index := Z.of_nat i; BgzDump.ofs := ofs;
                                BgzDump.size := 0; BgzDump.ext := "bin";
                                BgzDump.note := "NON_MONOTONIC_NEXT_PTR" |}, f)
                   else inr ({| BgzDump.index := Z.of_nat i; BgzDump.ofs := ofs;
                                BgzDump.size := 0; BgzDump.ext := "bin";
                                BgzDump.note := "NON_MONOTONIC_NEXT_PTR" |}, f))
                  = (inr ({| BgzDump.index := Z.of_nat i; BgzDump.ofs := ofs;
                             BgzDump.size := 0; BgzDump.ext := "bin";
                             BgzDump.note := "NON_MONOTONIC_NEXT_PTR" |}, f)
                     : BgzDump.error + BgzDump.Block * BgzDump.file))
        by (destruct rm; reflexivity).
      rewrite E. eexists; eexists. split; [reflexivity|]. split; [reflexivity|].
      unfold block_spec; cbn. split; [reflexivity|]. split; [reflexivity|].
      right. split; [reflexivity|]. split; [reflexivity|]. right.
      split; [lia|]. split; [lia|]. left. split; [reflexivity|lia].
    + rewrite Z.gtb_ltb.
      destruct (Z.leb_spec (nth (S i) abs_ptrs 0 - ofs) 0);
        [|destruct (Z.ltb_spec (len data) (ofs + (nth (S i) abs_ptrs 0 - ofs)))];
        cbn [orb];
        try (eexists; eexists; split; [reflexivity|]; split; [reflexivity|];
             unfold block_spec; cbn; split; [reflexivity|]; split; [reflexivity|];
             right; split; [reflexivity|]; split; [reflexivity|]; right;
             split; [lia|]; split; [lia|]; right; split; [reflexivity|lia]).
      apply Sized; lia.
  - rewrite Z.gtb_ltb.
    destruct (Z.leb_spec (len data - ofs) 0); [lia|].
    destruct (Z.ltb_spec (len data) (ofs + (len data - ofs))); [lia|].
    cbn [orb]. apply Sized; lia.
Qed.

Lemma block_loop_spec data abs_ptrs rm todo : forall f blocks,
  BgzDump.content f = data ->
  exists news,
    BgzDump.block_loop (len data) abs_ptrs rm f todo blocks
    = inr (blocks ++ news)
    /\ Forall2 (fun p b => block_spec data abs_ptrs (fst p) (snd p) b)
         todo news.
Proof.
  induction todo as [|[i ofs] todo IH]; intros f blocks C.
  - exists []. split; [simpl; now rewrite app_nil_r|constructor].
  - cbn [BgzDump.block_loop].
    destruct (block_step_spec abs_ptrs rm f i ofs) as (b & f' & E & C' & S).
    rewrite C in E, C', S. rewrite E.
    destruct (IH f' (blocks ++ [b]) C') as (news & E' & F).
    exists (b :: news). split.
    + rewrite E'. now rewrite <- app_assoc.
    + constructor; [exact S|exact F].
Qed.

Lemma enumerate_nth {A} (l : list A) : forall s k p,
  nth_error (combine (seq s (length l)) l) k = Some p ->
  fst p = (s + k)%nat /\ nth_error l k = Some (snd p).
Proof.
  induction l as [|x l IH]; intros s k p; simpl.
  - destruct k; discriminate.
  - destruct k as [|k]; simpl.
    + intros [= <-]. simpl. split; [lia|reflexivity].
    + intros H. apply IH in H. split; [lia|apply H].
Qed.

Lemma Forall2_nth_r {A B} (P : A -> B -> Prop) l1 l2 :
  Forall2 P l1 l2 ->
  forall k b, nth_error l2 k = Some b ->
  exists a, nth_error l1 k = Some a /\ P a b.
Proof.
  induction 1 as [|a b l1 l2 Hab _ IH]; intros k y.
  - destruct k; discriminate.
  - destruct k as [|k]; simpl.
    + intros [= <-]. now exists a.
    + apply IH.
Qed.

(** What [read_pointer_blocks] returns: a block for each absolute pointer,
    in order. *)
Lemma read_pointer_blocks_spec data table_offset count endian base rm blocks :
  BgzDump.read_pointer_blocks data table_offset count endian base rm
  = inr blocks ->
  exists ptrs,
    BgzDump.read_ptrs (Z.to_nat count)
      {| BgzDump.content := data; BgzDump.tell := table_offset |} endian
    = inr ptrs
    /\ 0 <= table_offset
    /\ length blocks = length ptrs
    /\ forall k b, nth_error blocks k = Some b ->
         exists p, nth_error ptrs k = Some p
                   /\ block_spec data (map (fun p => base + p) ptrs) k
                        (base + p) b.
Proof.
  unfold BgzDump.read_pointer_blocks, BgzDump.seek. cbv zeta.
  cbn [BgzDump.content].
  destruct (Z.ltb_spec table_offset 0); [discriminate|].
  destruct (BgzDump.read_ptrs (Z.to_nat count) _ endian) as [e|ptrs];
    [discriminate|].
  intros Hb. exists ptrs. split; [reflexivity|]. split; [lia|].
  destruct (block_loop_spec data (map (fun p => base + p) ptrs) rm
              (BgzDump.enumerate (map (fun p => base + p) ptrs))
              {| BgzDump.content := data; BgzDump.tell := 0 |} [] eq_refl)
    as (news & E & F).
  rewrite E in Hb. injection Hb as <-. simpl app. split.
  - apply Forall2_length in F. rewrite <- F. unfold BgzDump.enumerate.
    rewrite length_combine, length_seq, length_map. lia.
  - intros k b Hk.
    destruct (Forall2_nth_r _ _ _ F k b Hk) as ([i ofs] & Hp & S).
    apply enumerate_nth in Hp. simpl in Hp. destruct Hp as [-> Hofs].
    rewrite nth_error_map in Hofs.
    destruct (nth_error ptrs k) as [p|]; [|discriminate].
    injection Hofs as <-. exists p. split; [reflexivity|exact S].
Qed.

Lemma block_step_flag fs abs_ptrs f i ofs :
  BgzDump.block_step fs abs_ptrs true f i ofs
  = BgzDump.block_step fs abs_ptrs false f i ofs.
Proof. reflexivity. Qed.

Lemma block_loop_flag fs abs_ptrs todo : forall f blocks,
  BgzDump.block_loop fs abs_ptrs true f todo blocks
  = BgzDump.block_loop fs abs_ptrs false f todo blocks.
Proof.
  induction todo as [|[i ofs] todo IH]; intros f blocks; [reflexivity|].
  cbn [BgzDump.block_loop]. rewrite block_step_flag.
  destruct (BgzDump.block_step fs abs_ptrs false f i ofs) as [e|[b f']];
    [reflexivity|apply IH].
Qed.

(** The block after a block that is not the last one stands at the next
    absolute pointer. *)
Lemma blocks_next (ptrs : list Z) base data blocks k :
  length blocks = length ptrs ->
  (forall k b, nth_error blocks k = Some b ->
     exists p, nth_error ptrs k = Some p
               /\ block_spec data (map (fun p => base + p) ptrs) k
                    (base + p) b) ->
  (S k < length ptrs)%nat ->
  exists b', nth_error blocks (S k) = Some b'
             /\ BgzDump.ofs b' = nth (S k) (map (fun p => base + p) ptrs) 0.
Proof.
  intros L Sp Hk.
  destruct (nth_error blocks (S k)) as [b'|] eqn:E.
  2:{ apply nth_error_None in E. lia. }
  exists b'. split; [reflexivity|].
  destruct (Sp _ _ E) as (p & Hp & _ & Ho & _). rewrite Ho.
  symmetry. apply nth_error_nth. rewrite nth_error_map, Hp. reflexivity.
Qed.

(** X11.  [read_u32] at a position with four bytes left reads them in the
    byte order asked for, as a value between 0 and 2^32 - 1 (the
    little-endian value being the big-endian value of the bytes reversed),
    and moves the position by four; an [endian] other than "be" and "le"
    then raises [ValueError].  With fewer than four bytes left it raises
    [EOFError], whatever [endian] is. *)
Theorem X11_read_u32 f endian :
  0 <= BgzDump.tell f ->
  (BgzDump.tell f + 4 <= len (BgzDump.content f) ->
   BgzDump.read_u32 f endian
   = (if String.eqb endian "be"
      then inr (be_value (slice (BgzDump.content f) (BgzDump.tell f)
                            (BgzDump.tell f + 4)))
      else if String.eqb endian "le"
      then inr (be_value (rev (slice (BgzDump.content f) (BgzDump.tell f)
                                 (BgzDump.tell f + 4))))
      else inl BgzDump.EndianValueError,
      {| BgzDump.content := BgzDump.content f;
         BgzDump.tell := BgzDump.tell f + 4 |})
   /\ 0 <= be_value (slice (BgzDump.content f) (BgzDump.tell f)
                       (BgzDump.tell f + 4)) < 2 ^ 32
   /\ 0 <= be_value (rev (slice (BgzDump.content f) (BgzDump.tell f)
                            (BgzDump.tell f + 4))) < 2 ^ 32)
  /\ (len (BgzDump.content f) < BgzDump.tell f + 4 ->
      fst (BgzDump.read_u32 f endian) = inl BgzDump.EOFError).
Proof.
  intros H0. split; [|now apply read_u32_short].
  intros H4. rewrite read_u32_fits by lia. unfold decode_u32.
  rewrite le_value_rev.
  set (b := slice (BgzDump.content f) (BgzDump.tell f) (BgzDump.tell f + 4)).
  assert (L : len b = 4) by (subst b; rewrite slice_len; lia).
  assert (L' : len (rev b) = 4) by (unfold len in *; now rewrite length_rev).
  pose proof (be_value_range b) as R. pose proof (be_value_range (rev b)) as R'.
  rewrite L in R. rewrite L' in R'. change (256 ^ 4) with (2 ^ 32) in R, R'.
  split; [|split; assumption].
  destruct (String.eqb endian "be"); [reflexivity|].
  destruct (String.eqb endian "le"); reflexivity.
Qed.

Lemma X11_witness :
  BgzDump.read_u32 {| BgzDump.content := bgz_sample; BgzDump.tell := 4 |} "le"
  = (inr 0x10000000, {| BgzDump.content := bgz_sample; BgzDump.tell := 8 |})
  /\ fst (BgzDump.read_u32
            {| BgzDump.content := bgz_sample; BgzDump.tell := 21 |} "xx")
     = inl BgzDump.EOFError.
Proof.
  destruct (X11_read_u32 {| BgzDump.content := bgz_sample; BgzDump.tell := 4 |}
              "le") as [A _]; [simpl; lia|].
  destruct (X11_read_u32 {| BgzDump.content := bgz_sample; BgzDump.tell := 21 |}
              "xx") as [_ B]; [simpl; lia|].
  split.
  - destruct A as [A _]; [vm_compute; discriminate|]. rewrite A. reflexivity.
  - apply B. vm_compute. reflexivity.
Defined.



(** X13.  Every block [read_pointer_blocks] returns is of one of two
    kinds.  Either its note is empty, and then it lies inside the file with
    a positive size and its extension is what [detect_ext] makes of the
    bytes at its offset, 16 of them at most.  Or its size is 0 and its
    extension "bin", with the note OUT_OF_RANGE when its offset is outside
    the file, NON_MONOTONIC_NEXT_PTR when the next block's offset is
    smaller than its own, and BAD_SIZE when the next block's offset is its
    own or lies past the end of the file. *)
Theorem X13_blocks_are_classified
  data table_offset count endian base rm blocks :
  BgzDump.read_pointer_blocks data table_offset count endian base rm
  = inr blocks ->
  forall k b, nth_error blocks k = Some b ->
    (BgzDump.note b = String.EmptyString
     /\ 0 <= BgzDump.ofs b /\ 0 < BgzDump.size b
     /\ BgzDump.ofs b + BgzDump.size b <= len data
     /\ BgzDump.ext b
        = BgzDump.detect_ext (slice data (BgzDump.ofs b) (BgzDump.ofs b + 16)))
    \/ (BgzDump.size b = 0 /\ BgzDump.ext b = "bin"
        /\ ((BgzDump.note b = "OUT_OF_RANGE"
             /\ ~ 0 <= BgzDump.ofs b < len data)
            \/ (0 <= BgzDump.ofs b < len data
                /\ exists b', nth_error blocks (S k) = Some b'
                   /\ ((BgzDump.note b = "NON_MONOTONIC_NEXT_PTR"
                        /\ BgzDump.ofs b' < BgzDump.ofs b)
                       \/ (BgzDump.note b = "BAD_SIZE"
                           /\ (BgzDump.ofs b' = BgzDump.ofs b
                               \/ len data < BgzDump.ofs b')))))).
Proof.
  intros R k b Hb.
  destruct (read_pointer_blocks_spec _ _ _ _ _ _ _ R) as (ptrs & _ & _ & L & Sp).
  destruct (Sp k b Hb) as (p & Hp & _ & Ho & C). rewrite Ho.
  destruct C as [(N & H0 & Hs & He & Hx & _)|(Hs & Hx & C)].
  - left. repeat split; auto.
  - right. split; [exact Hs|]. split; [exact Hx|].
    destruct C as [C|(Hr & Hk & C)]; [left; exact C|right].
    split; [exact Hr|]. rewrite length_map in Hk.
    destruct (blocks_next ptrs base data blocks k L Sp Hk) as (b' & Hb' & Ho').
    exists b'. split; [exact Hb'|]. rewrite Ho'. exact C.
Qed.

Lemma X13_witness :
  BgzDump.read_pointer_blocks bgz_skips 0 4 "be" 0 true
  = inr [ {| BgzDump.index := 0; BgzDump.ofs := 16; BgzDump.size := 0;
             BgzDump.ext := "bin";
             BgzDump.note := "NON_MONOTONIC_NEXT_PTR" |};
          {| BgzDump.index := 1; BgzDump.ofs := 8; BgzDump.size := 12;
             BgzDump.ext := "bin"; BgzDump.note := String.EmptyString |};
          {| BgzDump.index := 2; BgzDump.ofs := 20; BgzDump.size := 0;
             BgzDump.ext := "bin"; BgzDump.note := "BAD_SIZE" |};
          {| BgzDump.index := 3; BgzDump.ofs := 64; BgzDump.size := 0;
             BgzDump.ext := "bin"; BgzDump.note := "OUT_OF_RANGE" |} ]
  /\ 8 + 12 <= len bgz_skips.
Proof.
  assert (R : BgzDump.read_pointer_blocks bgz_skips 0 4 "be" 0 true
    = inr [ {| BgzDump.index := 0; BgzDump.ofs := 16; BgzDump.size := 0;
               BgzDump.ext := "bin";
               BgzDump.note := "NON_MONOTONIC_NEXT_PTR" |};
            {| BgzDump.index := 1; BgzDump.ofs := 8; BgzDump.size := 12;
               BgzDump.ext := "bin"; BgzDump.note := String.EmptyString |};
            {| BgzDump.index := 2; BgzDump.ofs := 20; BgzDump.size := 0;
               BgzDump.ext := "bin"; BgzDump.note := "BAD_SIZE" |};
            {| BgzDump.index := 3; BgzDump.ofs := 64; BgzDump.size := 0;
               BgzDump.ext := "bin"; BgzDump.note := "OUT_OF_RANGE" |} ])
    by (vm_compute; reflexivity).
  split; [exact R|].
  destruct (X13_blocks_are_classified _ _ _ _ _ _ _ R 1%nat _ eq_refl)
    as [(_ & _ & _ & H & _)|(H & _)]; [exact H|discriminate].
Defined.

(** X14.  The flag [require_monotonic] changes nothing: a pointer followed
    by a smaller one gives the same skipped block with and without it. *)
Theorem X14_require_monotonic_is_ignored
  data table_offset count endian base :
  BgzDump.read_pointer_blocks data table_offset count endian base true
  = BgzDump.read_pointer_blocks data table_offset count endian base false.
Proof.
  unfold BgzDump.read_pointer_blocks. cbv zeta.
  destruct (BgzDump.seek _ table_offset) as [f|]; [|reflexivity].
  destruct (BgzDump.read_ptrs (Z.to_nat count) f endian) as [e|ptrs];
    [reflexivity|apply block_loop_flag].
Qed.

(** X15.  A block with a positive size ends where the next block begins,
    and the last block, if it has a positive size, ends at the end of the
    file. *)
Theorem X15_sized_blocks_abut
  data table_offset count endian base rm blocks :
  BgzDump.read_pointer_blocks data table_offset count endian base rm
  = inr blocks ->
  forall k b, nth_error blocks k = Some b -> 0 < BgzDump.size b ->
    match nth_error blocks (S k) with
    | Some b' => BgzDump.ofs b + BgzDump.size b = BgzDump.ofs b'
    | None => BgzDump.ofs b + BgzDump.size b = len data
    end.
Proof.
  intros R k b Hb Hpos.
  destruct (read_pointer_blocks_spec _ _ _ _ _ _ _ R) as (ptrs & _ & _ & L & Sp).
  destruct (Sp k b Hb) as (p & Hp & _ & Ho & C). rewrite Ho.
  destruct C as [(_ & _ & _ & _ & _ & Hn & Hl)|(Hs & _)]; [|lia].
  rewrite length_map in Hn, Hl.
  destruct (Nat.lt_ge_cases (S k) (length ptrs)) as [Hk|Hk].
  - destruct (blocks_next ptrs base data blocks k L Sp Hk) as (b' & Hb' & Ho').
    rewrite Hb', Ho', (Hn Hk). lia.
  - assert (E : nth_error blocks (S k) = None) by (apply nth_error_None; lia).
    rewrite E, (Hl Hk). lia.
Qed.

Lemma X15_witness :
  BgzDump.read_pointer_blocks bgz_sample 0 3 "be" 0 true
  = inr [ {| BgzDump.index := 0; BgzDump.ofs := 12; BgzDump.size := 4;
             BgzDump.ext := "jpg"; BgzDump.note := String.EmptyString |};
          {| BgzDump.index := 1; BgzDump.ofs := 16; BgzDump.size := 4;
             BgzDump.ext := "shd"; BgzDump.note := String.EmptyString |};
          {| BgzDump.index := 2; BgzDump.ofs := 20; BgzDump.size := 4;
             BgzDump.ext := "bin"; BgzDump.note := String.EmptyString |} ]
  /\ 12 + 4 = 16 /\ 20 + 4 = len bgz_sample.
Proof.
  assert (R : BgzDump.read_pointer_blocks bgz_sample 0 3 "be" 0 true
    = inr [ {| BgzDump.index := 0; BgzDump.ofs := 12; BgzDump.size := 4;
               BgzDump.ext := "jpg"; BgzDump.note := String.EmptyString |};
            {| BgzDump.index := 1; BgzDump.ofs := 16; BgzDump.size := 4;
               BgzDump.ext := "shd"; BgzDump.note := String.EmptyString |};
            {| BgzDump.index := 2; BgzDump.ofs := 20; BgzDump.size := 4;
               BgzDump.ext := "bin"; BgzDump.note := String.EmptyString |} ])
    by (vm_compute; reflexivity).
  split; [exact R|]. split.
  - exact (X15_sized_blocks_abut _ _ _ _ _ _ _ R 0%nat _ eq_refl eq_refl).
  - exact (X15_sized_blocks_abut _ _ _ _ _ _ _ R 2%nat _ eq_refl eq_refl).
Defined.

(** X16.  The last pointer of the table, when it points inside the file,
    always gives a block that runs to the end of the file: it is never
    skipped. *)
Theorem X16_last_pointer_runs_to_the_end
  data table_offset count endian base rm blocks :
  BgzDump.read_pointer_blocks data table_offset count endian base rm
  = inr blocks ->
  forall k b, nth_error blocks k = Some b -> nth_error blocks (S k) = None ->
    0 <= BgzDump.ofs b < len data ->
    BgzDump.note b = String.EmptyString
    /\ BgzDump.size b = len data - BgzDump.ofs b.
Proof.
  intros R k b Hb Hlast Hin.
  destruct (read_pointer_blocks_spec _ _ _ _ _ _ _ R) as (ptrs & _ & _ & L & Sp).
  destruct (Sp k b Hb) as (p & Hp & _ & Ho & C). rewrite Ho in *.
  apply nth_error_None in Hlast.
  destruct C as [(N & _ & _ & _ & _ & _ & Hl)|(_ & _ & [(_ & C)|(_ & Hk & _)])].
  - split; [exact N|]. apply Hl. rewrite length_map. lia.
  - contradiction.
  - rewrite length_map in Hk. lia.
Qed.

Lemma X16_witness :
  BgzDump.note {| BgzDump.index := 2; BgzDump.ofs := 20; BgzDump.size := 4;
                  BgzDump.ext := "bin"; BgzDump.note := String.EmptyString |}
  = String.EmptyString
  /\ BgzDump.size
       {| BgzDump.index := 2; BgzDump.ofs := 20; BgzDump.size := 4;
          BgzDump.ext := "bin"; BgzDump.note := String.EmptyString |}
     = len bgz_sample - 20.
Proof.
  assert (R : BgzDump.read_pointer_blocks bgz_sample 0 3 "be" 0 true
    = inr [ {| BgzDump.index := 0; BgzDump.ofs := 12; BgzDump.size := 4;
               BgzDump.ext := "jpg"; BgzDump.note := String.EmptyString |};
            {| BgzDump.index := 1; BgzDump.ofs := 16; BgzDump.size := 4;
               BgzDump.ext := "shd"; BgzDump.note := String.EmptyString |};
            {| BgzDump.index := 2; BgzDump.ofs := 20; BgzDump.size := 4;
               BgzDump.ext := "bin"; BgzDump.note := String.EmptyString |} ])
    by (vm_compute; reflexivity).
  apply (X16_last_pointer_runs_to_the_end _ _ _ _ _ _ _ R 2%nat _ eq_refl eq_refl).
  vm_compute. split; [discriminate|reflexivity].
Defined.

(** * Properties of [shd_to_obj.py] *)

(** ** Ranges *)

Lemma range3_bound a b s j :
  0 < s ->
  (j < Z.to_nat ((b - a + s - 1) / s))%nat <-> a + s * Z.of_nat j < b.
Proof.
  intros Hs. split.
  - intros Hj.
    assert (Hq : Z.of_nat j + 1 <= (b - a + s - 1) / s) by lia.
    pose proof (Z.mul_div_le (b - a + s - 1) s Hs). nia.
  - intros Hj.
    assert (Hq : Z.of_nat j + 1 <= (b - a + s - 1) / s)
      by (apply Z.div_le_lower_bound; lia).
    lia.
Qed.

(** The elements of [range(a, b, s)], by position. *)
Lemma range3_nth a b s j :
  0 < s ->
  nth_error (ShdToObj.range3 a b s) j
  = if a + s * Z.of_nat j <? b then Some (a + s * Z.of_nat j) else None.
Proof.
  intros Hs. unfold ShdToObj.range3. rewrite nth_error_map, nth_error_seq.
  pose proof (range3_bound a b s j Hs) as B.
  destruct (Nat.ltb_spec j (Z.to_nat ((b - a + s - 1) / s)));
    destruct (Z.ltb_spec (a + s * Z.of_nat j) b); simpl; try reflexivity;
    exfalso; lia.
Qed.

(** An offset of the range, found at its position. *)
Lemma range3_at a b s k :
  0 < s -> a <= k < b -> (k - a) mod s = 0 ->
  nth_error (ShdToObj.range3 a b s) (Z.to_nat ((k - a) / s)) = Some k.
Proof.
  intros Hs Hk Hm. rewrite range3_nth by lia.
  assert (E : k - a = s * ((k - a) / s))
    by (apply Z.div_exact; lia).
  assert (0 <= (k - a) / s) by (apply Z.div_pos; lia).
  rewrite Z2Nat.id by lia. rewrite <- E.
  replace (a + (k - a)) with k by lia.
  destruct (Z.ltb_spec k b); [reflexivity|lia].
Qed.

(** ** Unpacking *)

Lemma unpack_from_inside k d o :
  0 <= o ->
  ShdToObj.unpack_from k d o
  = if o + k <=? len d then Some (slice d o (o + k)) else None.
Proof.
  intros H0. unfold ShdToObj.unpack_from.
  destruct (Z.ltb_spec o 0); [lia|].
  destruct (Z.ltb_spec (len d - o) k); destruct (Z.leb_spec (o + k) (len d));
    try reflexivity; lia.
Qed.

Lemma u32be_inside d o :
  0 <= o -> o + 4 <= len d ->
  ShdToObj.u32be d o = Some (be_value (slice d o (o + 4)))
  /\ 0 <= be_value (slice d o (o + 4)) < 2 ^ 32.
Proof.
  intros H0 H4. unfold ShdToObj.u32be. rewrite unpack_from_inside by lia.
  destruct (Z.leb_spec (o + 4) (len d)); [|lia]. split; [reflexivity|].
  pose proof (be_value_range (slice d o (o + 4))) as R.
  rewrite slice_len in R by lia.
  replace (o + 4 - o) with 4 in R by lia. exact R.
Qed.

Lemma u32be_nonneg d o v : ShdToObj.u32be d o = Some v -> 0 <= v.
Proof.
  unfold ShdToObj.u32be. destruct (ShdToObj.unpack_from 4 d o) as [b|];
    [|discriminate].
  intros [= <-]. apply be_value_range.
Qed.

Lemma u16be_nonneg d o v : ShdToObj.u16be d o = Some v -> 0 <= v.
Proof.
  unfold ShdToObj.u16be. destruct (ShdToObj.unpack_from 2 d o) as [b|];
    [|discriminate].
  intros [= <-]. apply be_value_range.
Qed.

(** ** The descriptor record *)

(** The loop of [find_first_record], over offsets at which a word can be
    read. *)
Lemma first_nonzero_spec d offs :
  Forall (fun o => exists v, ShdToObj.u32be d o = Some v) offs ->
  exists r, ShdToObj.first_nonzero d offs = inr r
    /\ ((r = -1 /\ Forall (fun o => ShdToObj.u32be d o = Some 0) offs)
        \/ exists j v,
             nth_error offs j = Some r
             /\ ShdToObj.u32be d r = Some v /\ v <> 0
             /\ forall i o, (i < j)%nat -> nth_error offs i = Some o ->
                  ShdToObj.u32be d o = Some 0).
Proof.
  induction 1 as [|o offs [v Hv] _ IH]; simpl.
  - exists (-1). split; [reflexivity|]. left. split; [reflexivity|constructor].
  - rewrite Hv. destruct (Z.eqb_spec v 0) as [->|Hne]; simpl.
    + destruct IH as (r & E & C). exists r. split; [exact E|].
      destruct C as [[-> F]|(j & w & Hj & Hw & Hne & Hz)].
      * left. split; [reflexivity|]. constructor; assumption.
      * right. exists (S j), w. split; [exact Hj|]. split; [exact Hw|].
        split; [exact Hne|]. intros [|i] o' Hi; simpl.
        -- intros [= <-]. exact Hv.
        -- apply Hz. lia.
    + exists o. split; [reflexivity|]. right. exists 0%nat, v.
      split; [reflexivity|]. split; [exact Hv|]. split; [exact Hne|].
      intros i o' Hi. lia.
Qed.

Lemma find_first_record_spec d ofs_desc :
  0 <= ofs_desc ->
  exists r,
    ShdToObj.find_first_record d ofs_desc = inr r
    /\ ((r = -1
         /\ forall k, ofs_desc <= k < Z.min (ofs_desc + 0x200) (len d - 16) ->
              (k - ofs_desc) mod 4 = 0 -> ShdToObj.u32be d k = Some 0)
        \/ (ofs_desc <= r < Z.min (ofs_desc + 0x200) (len d - 16)
            /\ (r - ofs_desc) mod 4 = 0
            /\ (exists v, ShdToObj.u32be d r = Some v /\ v <> 0)
            /\ forall k, ofs_desc <= k < r -> (k - ofs_desc) mod 4 = 0 ->
                 ShdToObj.u32be d k = Some 0)).
Proof.
  intros H0. unfold ShdToObj.find_first_record.
  set (hi := Z.min (ofs_desc + 0x200) (len d - 16)).
  assert (N : forall j o, nth_error (ShdToObj.range3 ofs_desc hi 4) j = Some o ->
                o = ofs_desc + 4 * Z.of_nat j /\ o < hi).
  { intros j o. rewrite range3_nth by lia.
    destruct (Z.ltb_spec (ofs_desc + 4 * Z.of_nat j) hi); [|discriminate].
    intros [= <-]. split; [reflexivity|assumption]. }
  destruct (first_nonzero_spec d (ShdToObj.range3 ofs_desc hi 4))
    as (r & E & C).
  { apply Forall_forall. intros o Ho. apply In_nth_error in Ho.
    destruct Ho as [j Hj]. apply N in Hj. destruct Hj as [-> Hj].
    eexists. apply u32be_inside; lia. }
  exists r. split; [exact E|].
  destruct C as [[-> F]|(j & v & Hj & Hv & Hne & Hz)].
  - left. split; [reflexivity|]. intros k Hk Hm.
    rewrite Forall_forall in F. apply F.
    apply (nth_error_In _ (Z.to_nat ((k - ofs_desc) / 4))).
    apply range3_at; auto; lia.
  - right. destruct (N _ _ Hj) as [Er Hr].
    split; [lia|]. split.
    { rewrite Er. replace (ofs_desc + 4 * Z.of_nat j - ofs_desc)
        with (Z.of_nat j * 4) by lia. apply Z.mod_mul. lia. }
    split; [now exists v|]. intros k Hk Hm.
    apply (Hz (Z.to_nat ((k - ofs_desc) / 4))).
    + assert (Ek : k - ofs_desc = 4 * ((k - ofs_desc) / 4))
        by (apply Z.div_exact; lia).
      assert (0 <= (k - ofs_desc) / 4) by (apply Z.div_pos; lia).
      lia.
    + apply range3_at; auto; lia.
Qed.

(** X17.  From a descriptor offset that is not negative,
    [find_first_record] never raises.  It returns the first offset, going
    by steps of 4 from the descriptor offset and staying below both 0x200
    bytes further and 16 bytes before the end of the file, at which the
    32-bit word is not zero; and -1 when every such word is zero. *)
Theorem X17_find_first_record d ofs_desc :
  0 <= ofs_desc ->
  exists r,
    ShdToObj.find_first_record d ofs_desc = inr r
    /\ ((r = -1
         /\ forall k, ofs_desc <= k < Z.min (ofs_desc + 0x200) (len d - 16) ->
              (k - ofs_desc) mod 4 = 0 -> ShdToObj.u32be d k = Some 0)
        \/ (ofs_desc <= r < Z.min (ofs_desc + 0x200) (len d - 16)
            /\ (r - ofs_desc) mod 4 = 0
            /\ (exists v, ShdToObj.u32be d r = Some v /\ v <> 0)
            /\ forall k, ofs_desc <= k < r -> (k - ofs_desc) mod 4 = 0 ->
                 ShdToObj.u32be d k = Some 0)).
Proof. apply find_first_record_spec. Qed.

Lemma X17_witness :
  ShdToObj.find_first_record shd_sample 0x40 = inr 0x44
  /\ ShdToObj.u32be shd_sample 0x40 = Some 0.
Proof.
  destruct (X17_find_first_record shd_sample 0x40) as (r & E & C); [lia|].
  assert (R : ShdToObj.find_first_record shd_sample 0x40 = inr 0x44)
    by (vm_compute; reflexivity).
  split; [exact R|]. rewrite R in E. injection E as <-.
  destruct C as [[C _]|(_ & _ & _ & C)]; [discriminate|].
  apply C; [lia|reflexivity].
Defined.

(** ** Searching for a pattern *)

Lemma find_at_spec (d pat : bytes) n : forall i,
  (ShdToObj.find_at d pat i n = -1
   /\ forall k, i <= k < i + Z.of_nat n -> slice d k (k + len pat) <> pat)
  \/ (i <= ShdToObj.find_at d pat i n < i + Z.of_nat n
      /\ slice d (ShdToObj.find_at d pat i n)
           (ShdToObj.find_at d pat i n + len pat) = pat
      /\ forall k, i <= k < ShdToObj.find_at d pat i n ->
           slice d k (k + len pat) <> pat).
Proof.
  induction n as [|n IH]; intros i; cbn [ShdToObj.find_at].
  - left. split; [reflexivity|]. intros k Hk. lia.
  - destruct (bytes_eqb (slice d i (i + len pat)) pat) eqn:E.
    + apply bytes_eqb_eq in E. right. split; [lia|]. split; [exact E|].
      intros k Hk. lia.
    + assert (N : slice d i (i + len pat) <> pat).
      { intros H. apply bytes_eqb_eq in H. congruence. }
      destruct (IH (i + 1)) as [[H1 H2]|(H1 & H2 & H3)].
      * left. split; [exact H1|]. intros k Hk.
        destruct (Z.eq_dec k i) as [->|]; [exact N|apply H2; lia].
      * right. split; [lia|]. split; [exact H2|]. intros k Hk.
        destruct (Z.eq_dec k i) as [->|]; [exact N|apply H3; lia].
Qed.

Lemma find_spec (d pat : bytes) start end_ :
  0 <= start -> 0 <= end_ ->
  (ShdToObj.find d pat start end_ = -1
   /\ forall k, start <= k -> k + len pat <= Z.min end_ (len d) ->
        slice d k (k + len pat) <> pat)
  \/ (start <= ShdToObj.find d pat start end_
      /\ ShdToObj.find d pat start end_ + len pat <= Z.min end_ (len d)
      /\ slice d (ShdToObj.find d pat start end_)
           (ShdToObj.find d pat start end_ + len pat) = pat
      /\ forall k, start <= k < ShdToObj.find d pat start end_ ->
           slice d k (k + len pat) <> pat).
Proof.
  intros Hs He. unfold ShdToObj.find. cbv zeta.
  assert (Ee : (if end_ >? len d then len d
                else if end_ <? 0
                     then (if end_ + len d <? 0 then 0 else end_ + len d)
                     else end_) = Z.min end_ (len d)) by ztest.
  assert (Es : (if start <? 0
                then (if start + len d <? 0 then 0 else start + len d)
                else start) = start) by ztest.
  rewrite Ee, Es. set (e := Z.min end_ (len d)).
  destruct (Z.ltb_spec (e - start) (len pat)).
  - left. split; [reflexivity|]. intros k Hk1 Hk2. lia.
  - destruct (find_at_spec d pat (Z.to_nat (e - start - len pat + 1)) start)
      as [[H1 H2]|(H1 & H2 & H3)].
    + left. split; [exact H1|]. intros k Hk1 Hk2. apply H2. lia.
    + right. split; [lia|]. split; [lia|]. split; [exact H2|exact H3].
Qed.

(** X18.  With bounds that are not negative, [find_bytes] returns the
    first offset from [start] on at which the pattern stands wholly before
    [end] and before the end of the file; and -1 when it stands at no such
    offset. *)
Theorem X18_find_bytes_is_first (d pat : bytes) start end_ :
  0 <= start -> 0 <= end_ ->
  (ShdToObj.find_bytes d pat start end_ = -1
   /\ forall k, start <= k -> k + len pat <= Z.min end_ (len d) ->
        slice d k (k + len pat) <> pat)
  \/ (start <= ShdToObj.find_bytes d pat start end_
      /\ ShdToObj.find_bytes d pat start end_ + len pat <= Z.min end_ (len d)
      /\ slice d (ShdToObj.find_bytes d pat start end_)
           (ShdToObj.find_bytes d pat start end_ + len pat) = pat
      /\ forall k, start <= k < ShdToObj.find_bytes d pat start end_ ->
           slice d k (k + len pat) <> pat).
Proof. apply find_spec. Qed.

Lemma X18_witness :
  ShdToObj.find_bytes shd_sample ShdToObj.pat 0 200 = 120
  /\ slice shd_sample 120 (120 + len ShdToObj.pat) = ShdToObj.pat
  /\ slice shd_sample 56 (56 + len ShdToObj.pat) <> ShdToObj.pat.
Proof.
  assert (R : ShdToObj.find_bytes shd_sample ShdToObj.pat 0 200 = 120)
    by (vm_compute; reflexivity).
  split; [exact R|].
  destruct (X18_find_bytes_is_first shd_sample ShdToObj.pat 0 200)
    as [[E _]|(_ & _ & A & B)]; [lia|lia|rewrite R in E; discriminate|].
  rewrite R in A, B. split; [exact A|]. apply B. lia.
Defined.

(** ** The header of the mesh *)

Lemma u32be_defined d o v :
  0 <= o -> ShdToObj.u32be d o = Some v -> o + 4 <= len d.
Proof.
  intros H0. unfold ShdToObj.u32be. rewrite unpack_from_inside by lia.
  destruct (Z.leb_spec (o + 4) (len d)); [auto|discriminate].
Qed.

(** What [dump_obj] has checked when it has found the index run. *)
Lemma read_header_spec d h :
  ShdToObj.read_header d = inr h ->
  exists ofs_desc ofs_mark rel_floats,
    ShdToObj.u32be d 0x38 = Some ofs_desc
    /\ ShdToObj.u32be d 0x3C = Some ofs_mark
    /\ ShdToObj.find_first_record d ofs_desc = inr (ShdToObj.rec h)
    /\ ofs_desc <= ShdToObj.rec h /\ ShdToObj.rec h + 16 < len d
    /\ ShdToObj.u32be d (ShdToObj.rec h) = Some rel_floats
    /\ rel_floats <> 0
    /\ ShdToObj.u32be d (ShdToObj.rec h + 4) = Some (ShdToObj.next_ofs h)
    /\ ShdToObj.floats_ofs h = ShdToObj.rec h + rel_floats
    /\ 0 <= ShdToObj.floats_ofs h < ShdToObj.next_ofs h
    /\ ShdToObj.next_ofs h <= len d
    /\ ShdToObj.next_ofs h - ShdToObj.floats_ofs h = 12 * ShdToObj.vert_count h
    /\ ShdToObj.search_end h = Z.min ofs_mark (len d)
    /\ ShdToObj.idx_start h
       = ShdToObj.find_bytes d ShdToObj.pat (ShdToObj.next_ofs h)
           (ShdToObj.search_end h)
    /\ ShdToObj.next_ofs h <= ShdToObj.idx_start h
    /\ ShdToObj.idx_start h + 6 <= ShdToObj.search_end h
    /\ slice d (ShdToObj.idx_start h) (ShdToObj.idx_start h + 6)
       = ShdToObj.pat.
Proof.
  unfold ShdToObj.read_header, ShdToObj.bind, ShdToObj.unpacked. cbv zeta.
  destruct (ShdToObj.u32be d 56) as [ofs_desc|] eqn:E1; [|discriminate].
  destruct (ShdToObj.u32be d 60) as [ofs_mark|] eqn:E2; [|discriminate].
  pose proof (u32be_nonneg _ _ _ E1) as Hd.
  pose proof (u32be_nonneg _ _ _ E2) as Hm.
  destruct (find_first_record_spec d ofs_desc Hd) as (r & E3 & C).
  rewrite E3. destruct (Z.ltb_spec r 0) as [|Hr]; [discriminate|].
  destruct C as [[-> _]|(Hr1 & _ & (v & Hv & Hne) & _)]; [lia|].
  rewrite Z.add_0_r, Hv.
  destruct (ShdToObj.u32be d (r + 4)) as [next|] eqn:E4; [|discriminate].
  destruct (Z.leb_spec 0 (r + v)); [|discriminate].
  destruct (Z.ltb_spec (r + v) (len d)); [|discriminate].
  destruct (Z.leb_spec 0 next); [|discriminate].
  destruct (Z.leb_spec next (len d)); [|discriminate].
  cbn [andb negb orb].
  destruct (Z.leb_spec next (r + v)); [discriminate|].
  destruct (Z.eqb_spec ((next - (r + v)) mod 12) 0) as [M|]; [|discriminate].
  cbn [negb].
  destruct (Z.ltb_spec
              (ShdToObj.find_bytes d ShdToObj.pat next (Z.min ofs_mark (len d))) 0)
    as [|Hi]; [discriminate|].
  intros [= <-].
  cbn [ShdToObj.rec ShdToObj.floats_ofs ShdToObj.next_ofs
       ShdToObj.vert_count ShdToObj.idx_start ShdToObj.search_end].
  exists ofs_desc, ofs_mark, v.
  destruct (find_spec d ShdToObj.pat next (Z.min ofs_mark (len d)))
    as [[F _]|(F1 & F2 & F3 & _)]; try lia.
  { unfold ShdToObj.find_bytes in Hi. lia. }
  fold (ShdToObj.find_bytes d ShdToObj.pat next (Z.min ofs_mark (len d))) in *.
  change (len ShdToObj.pat) with 6 in *.
  repeat split; auto; try lia.
  apply Z.div_exact in M; lia.
Qed.

(** ** The loops of the mesh *)

Lemma for_each_inr {A B} (f : A -> ShdToObj.error + B) l : forall bs,
  ShdToObj.for_each f l = inr bs -> Forall2 (fun a b => f a = inr b) l bs.
Proof.
  induction l as [|a l IH]; intros bs; cbn [ShdToObj.for_each ShdToObj.bind].
  - intros [= <-]. constructor.
  - destruct (f a) as [e|b] eqn:Ea; [discriminate|].
    destruct (ShdToObj.for_each f l) as [e|bs'] eqn:El; [discriminate|].
    intros [= <-]. constructor; [exact Ea|now apply IH].
Qed.

Lemma for_each_ok {A B} (f : A -> ShdToObj.error + B) l :
  (forall a, In a l -> exists b, f a = inr b) ->
  exists bs, ShdToObj.for_each f l = inr bs.
Proof.
  induction l as [|a l IH]; intros H; cbn [ShdToObj.for_each ShdToObj.bind].
  - now exists [].
  - destruct (H a (or_introl eq_refl)) as [b Eb]. rewrite Eb.
    destruct IH as [bs Ebs]; [intros x Hx; apply H; now right|].
    rewrite Ebs. now exists (b :: bs).
Qed.

(** A loop whose turns raise nothing but [struct.error] raises it as soon
    as one turn does. *)
Lemma for_each_struct {A B} (f : A -> ShdToObj.error + B) l :
  (forall a e, f a = inl e -> e = ShdToObj.StructError) ->
  (exists a, In a l /\ f a = inl ShdToObj.StructError) ->
  ShdToObj.for_each f l = inl ShdToObj.StructError.
Proof.
  intros Hf. induction l as [|a l IH]; intros (x & Hx & Ex);
    cbn [ShdToObj.for_each ShdToObj.bind]; [destruct Hx|].
  destruct (f a) as [e|b] eqn:Ea; [now rewrite (Hf _ _ Ea)|].
  destruct Hx as [->|Hx]; [congruence|].
  rewrite IH; [reflexivity|]. now exists x.
Qed.

Lemma range3_In a b s x :
  0 < s -> In x (ShdToObj.range3 a b s) ->
  a <= x < b /\ (x - a) mod s = 0.
Proof.
  intros Hs Hx. apply In_nth_error in Hx. destruct Hx as [j Hj].
  rewrite range3_nth in Hj by lia.
  destruct (Z.ltb_spec (a + s * Z.of_nat j) b); [|discriminate].
  injection Hj as <-. split; [nia|].
  replace (a + s * Z.of_nat j - a) with (Z.of_nat j * s) by lia.
  apply Z.mod_mul. lia.
Qed.

Lemma item_at_inside (indices : list Z) t :
  0 <= t < Z.of_nat (length indices) ->
  exists v, ShdToObj.item_at indices t = inr v /\ In v indices.
Proof.
  intros H. unfold ShdToObj.item_at, index_of_list. cbv zeta.
  destruct (Z.leb_spec 0 t); [|lia].
  destruct (Z.ltb_spec t (Z.of_nat (length indices))); [|lia]. cbn [andb].
  destruct (nth_error indices (Z.to_nat t)) as [v|] eqn:E.
  - exists v. split; [reflexivity|]. now apply nth_error_In in E.
  - apply nth_error_None in E. lia.
Qed.

(** The faces loop, over values of [t] that leave two indices after
    [t]. *)
Lemma build_faces_spec (indices : list Z) vert_count ts :
  Forall (fun t => 0 <= t /\ t + 2 < Z.of_nat (length indices)) ts ->
  exists fs,
    ShdToObj.build_faces indices vert_count ts = inr fs
    /\ Forall (fun f => let '(a, b, c) := f in
                 In a indices /\ In b indices /\ In c indices
                 /\ a < vert_count /\ b < vert_count /\ c < vert_count) fs.
Proof.
  induction 1 as [|t ts [Ht0 Ht2] _ IH];
    cbn [ShdToObj.build_faces ShdToObj.bind].
  - exists []. split; [reflexivity|constructor].
  - destruct (item_at_inside indices t) as (a & Ea & Ia); [lia|].
    destruct (item_at_inside indices (t + 1)) as (b & Eb & Ib); [lia|].
    destruct (item_at_inside indices (t + 2)) as (c & Ec & Ic); [lia|].
    destruct IH as (fs & Efs & Ffs).
    rewrite Ea, Eb, Ec, Efs. cbn [ShdToObj.bind].
    destruct (Z.ltb_spec a vert_count); destruct (Z.ltb_spec b vert_count);
      destruct (Z.ltb_spec c vert_count); cbn [andb];
      eexists; (split; [reflexivity|]); auto.
    constructor; [|exact Ffs]. repeat split; auto.
Qed.

Lemma odd_pred x : x mod 2 = 1 -> (x - 1) mod 2 = 0.
Proof.
  intros H. pose proof (Z.div_mod x 2 ltac:(lia)) as E. rewrite H in E.
  replace (x - 1) with (x / 2 * 2) by lia. apply Z.mod_mul. lia.
Qed.

Lemma even_succ x : x mod 2 = 0 -> (x + 1) mod 2 = 1.
Proof.
  intros H. pose proof (Z.div_mod x 2 ltac:(lia)) as E. rewrite H in E.
  replace (x + 1) with (1 + x / 2 * 2) by lia.
  rewrite Z.mod_add by lia. reflexivity.
Qed.

Lemma unpacked_inside4 d o :
  0 <= o -> o + 4 <= len d ->
  exists v, ShdToObj.unpacked (ShdToObj.f32be d o) = inr v.
Proof.
  intros H0 H4. unfold ShdToObj.f32be. rewrite unpack_from_inside by lia.
  destruct (Z.leb_spec (o + 4) (len d)); [|lia]. simpl. eauto.
Qed.

Lemma unpacked_struct x e :
  ShdToObj.unpacked x = inl e -> e = ShdToObj.StructError.
Proof. destruct x; [discriminate|]. now intros [= <-]. Qed.

Lemma range3_length a b s :
  length (ShdToObj.range3 a b s) = Z.to_nat ((b - a + s - 1) / s).
Proof. unfold ShdToObj.range3. now rewrite length_map, length_seq. Qed.

(** The vertices are read without an exception. *)
Lemma read_verts d (h : ShdToObj.header) :
  0 <= ShdToObj.floats_ofs h ->
  ShdToObj.next_ofs h - ShdToObj.floats_ofs h = 12 * ShdToObj.vert_count h ->
  ShdToObj.next_ofs h <= len d ->
  exists vs,
    ShdToObj.for_each
      (fun i =>
         ShdToObj.bind
           (ShdToObj.unpacked
              (ShdToObj.f32be d (ShdToObj.floats_ofs h + i * 12 + 0)))
           (fun x =>
              ShdToObj.bind
                (ShdToObj.unpacked
                   (ShdToObj.f32be d (ShdToObj.floats_ofs h + i * 12 + 4)))
                (fun y =>
                   ShdToObj.bind
                     (ShdToObj.unpacked
                        (ShdToObj.f32be d
                           (ShdToObj.floats_ofs h + i * 12 + 8)))
                     (fun z => inr (x, y, z)))))
      (ShdToObj.range3 0 (ShdToObj.vert_count h) 1) = inr vs
    /\ length vs = Z.to_nat (ShdToObj.vert_count h).
Proof.
  intros Hf Hv Hn.
  match goal with
  | |- exists vs, ShdToObj.for_each ?f ?l = _ /\ _ =>
      destruct (for_each_ok f l) as [vs E]
  end.
  - intros i Hi. apply range3_In in Hi; [|lia]. destruct Hi as [Hi _].
    destruct (unpacked_inside4 d (ShdToObj.floats_ofs h + i * 12 + 0))
      as [x Ex]; try lia.
    destruct (unpacked_inside4 d (ShdToObj.floats_ofs h + i * 12 + 4))
      as [y Ey]; try lia.
    destruct (unpacked_inside4 d (ShdToObj.floats_ofs h + i * 12 + 8))
      as [z Ez]; try lia.
    rewrite Ex, Ey, Ez. simpl. eauto.
  - exists vs. split; [exact E|].
    apply for_each_inr, Forall2_length in E. rewrite <- E, range3_length.
    f_equal. rewrite Z.div_1_r. lia.
Qed.

(** When the index run does not end with the file after an odd number of
    bytes, the rest of [dump_obj] raises nothing. *)
Lemma read_mesh_ok d (h : ShdToObj.header) :
  0 <= ShdToObj.floats_ofs h ->
  ShdToObj.next_ofs h - ShdToObj.floats_ofs h = 12 * ShdToObj.vert_count h ->
  ShdToObj.next_ofs h <= len d ->
  0 <= ShdToObj.idx_start h <= ShdToObj.search_end h ->
  ShdToObj.search_end h <= len d ->
  ~ odd_run_at_end d h ->
  exists m,
    ShdToObj.read_mesh d h = inr m
    /\ ShdToObj.head m = h
    /\ length (ShdToObj.verts m) = Z.to_nat (ShdToObj.vert_count h)
    /\ Forall (fun f => let '(a, b, c) := f in
                 0 <= a < ShdToObj.vert_count h
                 /\ 0 <= b < ShdToObj.vert_count h
                 /\ 0 <= c < ShdToObj.vert_count h) (ShdToObj.faces m).
Proof.
  intros Hf Hv Hn Hi He Hodd. unfold ShdToObj.read_mesh.
  destruct (read_verts d h Hf Hv Hn) as (vs & Ev & Lv). rewrite Ev.
  cbn [ShdToObj.bind].
  destruct (for_each_ok (fun off => ShdToObj.unpacked (ShdToObj.u16be d off))
              (ShdToObj.range3 (ShdToObj.idx_start h) (ShdToObj.search_end h) 2))
    as [indices Ei].
  { intros off Ho. apply range3_In in Ho; [|lia]. destruct Ho as [Ho Hm].
    assert (off + 2 <= len d).
    { destruct (Z.eq_dec (ShdToObj.search_end h) (len d)) as [Ee|]; [|lia].
      destruct (Z.eq_dec off (ShdToObj.search_end h - 1)) as [->|]; [|lia].
      exfalso. apply Hodd. split; [exact Ee|].
      apply even_succ in Hm.
      replace (ShdToObj.search_end h - 1 - ShdToObj.idx_start h + 1)
        with (ShdToObj.search_end h - ShdToObj.idx_start h) in Hm by lia.
      exact Hm. }
    unfold ShdToObj.u16be. rewrite unpack_from_inside by lia.
    destruct (Z.leb_spec (off + 2) (len d)); [|lia]. simpl. eauto. }
  rewrite Ei. cbn [ShdToObj.bind].
  assert (Nn : Forall (fun v => 0 <= v) indices).
  { apply for_each_inr in Ei. clear - Ei.
    induction Ei as [|off v offs vs E _ IH]; constructor; [|exact IH].
    destruct (ShdToObj.u16be d off) as [w|] eqn:Ew; [|discriminate].
    injection E as <-. now apply u16be_nonneg in Ew. }
  destruct (build_faces_spec indices (ShdToObj.vert_count h)
              (ShdToObj.range3 0 (Z.of_nat (length indices) - 2) 3))
    as (fs & Efs & Ffs).
  { apply Forall_forall. intros t Ht. apply range3_In in Ht; lia. }
  rewrite Efs. cbn [ShdToObj.bind]. eexists. split; [reflexivity|].
  cbn [ShdToObj.head ShdToObj.verts ShdToObj.faces].
  split; [reflexivity|]. split; [exact Lv|].
  rewrite Forall_forall in Nn.
  eapply Forall_impl; [|exact Ffs]. intros [[a b] c] (Ia & Ib & Ic & Ha & Hb & Hc).
  apply Nn in Ia, Ib, Ic. lia.
Qed.

(** When it does, the reading of the indices raises [struct.error]. *)
Lemma read_mesh_odd d (h : ShdToObj.header) :
  0 <= ShdToObj.floats_ofs h ->
  ShdToObj.next_ofs h - ShdToObj.floats_ofs h = 12 * ShdToObj.vert_count h ->
  ShdToObj.next_ofs h <= len d ->
  0 <= ShdToObj.idx_start h <= ShdToObj.search_end h ->
  odd_run_at_end d h ->
  ShdToObj.read_mesh d h = inl ShdToObj.StructError.
Proof.
  intros Hf Hv Hn Hi [Ee Hodd]. unfold ShdToObj.read_mesh.
  destruct (read_verts d h Hf Hv Hn) as (vs & Ev & _). rewrite Ev.
  cbn [ShdToObj.bind].
  rewrite (for_each_struct (fun off => ShdToObj.unpacked (ShdToObj.u16be d off))).
  - reflexivity.
  - intros a e. apply unpacked_struct.
  - assert (Hlt : ShdToObj.idx_start h < ShdToObj.search_end h).
    { destruct (Z.eq_dec (ShdToObj.idx_start h) (ShdToObj.search_end h))
        as [E0|]; [|lia].
      rewrite E0, Z.sub_diag in Hodd. discriminate. }
    exists (ShdToObj.search_end h - 1). split.
    + apply (nth_error_In _
               (Z.to_nat ((ShdToObj.search_end h - 1 - ShdToObj.idx_start h) / 2))).
      apply odd_pred in Hodd.
      apply range3_at; [lia|lia|].
      replace (ShdToObj.search_end h - 1 - ShdToObj.idx_start h)
        with (ShdToObj.search_end h - ShdToObj.idx_start h - 1) by lia.
      exact Hodd.
    + unfold ShdToObj.u16be. rewrite unpack_from_inside by lia.
      destruct (Z.leb_spec (ShdToObj.search_end h - 1 + 2) (len d)); [lia|].
      reflexivity.
Qed.

(** ** [dump_obj] *)

(** What the first part of [dump_obj] raises: [struct.error] on a file
    shorter than 0x40 bytes, and one of its [ValueError]s otherwise. *)
Lemma read_header_error d e :
  ShdToObj.read_header d = inl e ->
  (e = ShdToObj.StructError /\ len d < 0x40)
  \/ (exists m, e = ShdToObj.ValueError m) /\ 0x40 <= len d.
Proof.
  unfold ShdToObj.read_header, ShdToObj.bind, ShdToObj.unpacked. cbv zeta.
  destruct (ShdToObj.u32be d 56) as [ofs_desc|] eqn:E1.
  2:{ intros [= <-]. left. split; [reflexivity|].
      unfold ShdToObj.u32be in E1. rewrite unpack_from_inside in E1 by lia.
      destruct (Z.leb_spec (56 + 4) (len d)); [discriminate|lia]. }
  destruct (ShdToObj.u32be d 60) as [ofs_mark|] eqn:E2.
  2:{ intros [= <-]. left. split; [reflexivity|].
      unfold ShdToObj.u32be in E2. rewrite unpack_from_inside in E2 by lia.
      destruct (Z.leb_spec (60 + 4) (len d)); [discriminate|lia]. }
  pose proof (u32be_nonneg _ _ _ E1) as Hd.
  apply u32be_defined in E2; [|lia].
  destruct (find_first_record_spec d ofs_desc Hd) as (r & E3 & C).
  rewrite E3. intros H. right. split; [|lia]. revert H.
  destruct (Z.ltb_spec r 0) as [|Hr]; [intros [= <-]; eauto|].
  destruct C as [[-> _]|(Hr1 & _ & (v & Hv & Hne) & _)]; [lia|].
  rewrite Z.add_0_r, Hv.
  destruct (u32be_inside d (r + 4)) as [E4 _]; try lia. rewrite E4.
  repeat match goal with
         | |- context [if ?c then _ else _] => destruct c
         end; intros [= <-]; eauto.
Qed.

Lemma read_header_short d :
  len d < 0x40 -> ShdToObj.read_header d = inl ShdToObj.StructError.
Proof.
  intros H. unfold ShdToObj.read_header, ShdToObj.bind, ShdToObj.unpacked.
  cbv zeta. unfold ShdToObj.u32be. rewrite !unpack_from_inside by lia.
  destruct (Z.leb_spec (56 + 4) (len d)); [|reflexivity].
  destruct (Z.leb_spec (60 + 4) (len d)); [lia|reflexivity].
Qed.

(** The rest of [dump_obj], after a header that the first part
    returned. *)
Lemma read_mesh_after_header d h :
  ShdToObj.read_header d = inr h ->
  (odd_run_at_end d h /\ ShdToObj.read_mesh d h = inl ShdToObj.StructError)
  \/ (~ odd_run_at_end d h
      /\ exists m,
           ShdToObj.read_mesh d h = inr m
           /\ ShdToObj.head m = h
           /\ length (ShdToObj.verts m) = Z.to_nat (ShdToObj.vert_count h)
           /\ Forall (fun f => let '(a, b, c) := f in
                        0 <= a < ShdToObj.vert_count h
                        /\ 0 <= b < ShdToObj.vert_count h
                        /\ 0 <= c < ShdToObj.vert_count h)
                (ShdToObj.faces m)).
Proof.
  intros H. destruct (read_header_spec d h H)
    as (ofs_desc & ofs_mark & rel & _ & _ & _ & _ & _ & _ & _ & _ & _
        & Hf & Hn & Hv & Hse & _ & Hi & Hi6 & _).
  assert (ShdToObj.search_end h <= len d) by lia.
  assert (Odd : {(ShdToObj.search_end h - ShdToObj.idx_start h) mod 2 = 1}
                + {(ShdToObj.search_end h - ShdToObj.idx_start h) mod 2 <> 1})
    by apply Z.eq_dec.
  destruct (Z.eq_dec (ShdToObj.search_end h) (len d)) as [Ee|Ne];
    [destruct Odd as [Ho|Ho]|].
  - left. split; [now split|]. apply read_mesh_odd; try lia. now split.
  - right. split; [intros [_ C]; contradiction|].
    apply read_mesh_ok; try lia. intros [_ C]; contradiction.
  - right. split; [intros [C _]; contradiction|].
    apply read_mesh_ok; try lia. intros [C _]; contradiction.
Qed.

(** X19.  When [dump_obj] gets as far as writing the mesh: the file has at
    least 0x40 bytes; the record lies at least 17 bytes before the end; the
    vertices lie after the first word of the record, before the index run,
    and take 12 bytes each; the index run begins with 00 00 00 01 00 02 at
    or after the end of the vertices and ends inside the file; there are as
    many vertices as were counted; and every face names three vertices
    that exist. *)
Theorem X19_mesh_is_consistent d m :
  ShdToObj.dump_obj d = inr m ->
  0x40 <= len d
  /\ 0 <= ShdToObj.rec (ShdToObj.head m)
  /\ ShdToObj.rec (ShdToObj.head m) + 16 < len d
  /\ ShdToObj.rec (ShdToObj.head m) < ShdToObj.floats_ofs (ShdToObj.head m)
  /\ ShdToObj.floats_ofs (ShdToObj.head m)
     < ShdToObj.next_ofs (ShdToObj.head m)
  /\ ShdToObj.next_ofs (ShdToObj.head m) - ShdToObj.floats_ofs (ShdToObj.head m)
     = 12 * ShdToObj.vert_count (ShdToObj.head m)
  /\ ShdToObj.next_ofs (ShdToObj.head m)
     <= ShdToObj.idx_start (ShdToObj.head m)
  /\ ShdToObj.idx_start (ShdToObj.head m) + 6
     <= ShdToObj.search_end (ShdToObj.head m)
  /\ ShdToObj.search_end (ShdToObj.head m) <= len d
  /\ slice d (ShdToObj.idx_start (ShdToObj.head m))
       (ShdToObj.idx_start (ShdToObj.head m) + 6) = ShdToObj.pat
  /\ length (ShdToObj.verts m)
     = Z.to_nat (ShdToObj.vert_count (ShdToObj.head m))
  /\ Forall (fun f => let '(a, b, c) := f in
               0 <= a < ShdToObj.vert_count (ShdToObj.head m)
               /\ 0 <= b < ShdToObj.vert_count (ShdToObj.head m)
               /\ 0 <= c < ShdToObj.vert_count (ShdToObj.head m))
       (ShdToObj.faces m).
Proof.
  unfold ShdToObj.dump_obj, ShdToObj.bind.
  destruct (ShdToObj.read_header d) as [e|h] eqn:H; [discriminate|].
  intros M.
  destruct (read_mesh_after_header d h H) as [[_ E]|(_ & m' & E & Hh & Lv & Ff)];
    [congruence|].
  rewrite E in M. injection M as <-. rewrite Hh.
  destruct (read_header_spec d h H)
    as (ofs_desc & ofs_mark & rel & E1 & E2 & _ & Hr0 & Hr & Er & Hne & _ & Ef
        & Hf & Hn & Hv & Hse & _ & Hi & Hi6 & Hp).
  pose proof (u32be_nonneg _ _ _ E1). pose proof (u32be_nonneg _ _ _ Er).
  apply u32be_defined in E2; [|lia].
  repeat split; auto; lia.
Qed.

Lemma X19_witness :
  ShdToObj.dump_obj shd_sample
  = inr {| ShdToObj.head :=
             {| ShdToObj.rec := 0x44; ShdToObj.floats_ofs := 0x54;
                ShdToObj.next_ofs := 0x78; ShdToObj.vert_count := 3;
                ShdToObj.idx_start := 0x78; ShdToObj.search_end := 0x84 |};
           ShdToObj.verts :=
             [(0x3f3f3f3f, 0x3f3f3f3f, 0x3f3f3f3f);
              (0x3f3f3f3f, 0x3f3f3f3f, 0x3f3f3f3f);
              (0x3f3f3f3f, 0x3f3f3f3f, 0x3f3f3f3f)];
           ShdToObj.faces := [(0, 1, 2)] |}
  /\ slice shd_sample 0x78 (0x78 + 6) = ShdToObj.pat.
Proof.
  assert (R : ShdToObj.dump_obj shd_sample
    = inr {| ShdToObj.head :=
               {| ShdToObj.rec := 0x44; ShdToObj.floats_ofs := 0x54;
                  ShdToObj.next_ofs := 0x78; ShdToObj.vert_count := 3;
                  ShdToObj.idx_start := 0x78; ShdToObj.search_end := 0x84 |};
             ShdToObj.verts :=
               [(0x3f3f3f3f, 0x3f3f3f3f, 0x3f3f3f3f);
                (0x3f3f3f3f, 0x3f3f3f3f, 0x3f3f3f3f);
                (0x3f3f3f3f, 0x3f3f3f3f, 0x3f3f3f3f)];
             ShdToObj.faces := [(0, 1, 2)] |})
    by (vm_compute; reflexivity).
  split; [exact R|].
  apply (X19_mesh_is_consistent _ _ R).
Defined.

(** X20.  [dump_obj] raises [struct.error] in two cases only: when the
    file has fewer than 0x40 bytes, and when every check has passed but the
    index run ends with the file after an odd number of bytes, so that the
    last index is cut.  It never raises [IndexError]. *)
Theorem X20_struct_error d :
  (ShdToObj.dump_obj d = inl ShdToObj.StructError
   <-> len d < 0x40
       \/ exists h, ShdToObj.read_header d = inr h /\ odd_run_at_end d h)
  /\ ShdToObj.dump_obj d <> inl ShdToObj.IndexError.
Proof.
  unfold ShdToObj.dump_obj, ShdToObj.bind.
  destruct (ShdToObj.read_header d) as [e|h] eqn:H.
  - destruct (read_header_error d e H) as [[-> Hs]|[[m ->] Hl]].
    + split; [|discriminate]. split; [auto|reflexivity].
    + split; [|discriminate]. split; [discriminate|].
      intros [C|(h & C & _)]; [lia|discriminate].
  - destruct (read_header_spec d h H) as (_ & ofs_mark & _ & _ & E2 & _).
    apply u32be_defined in E2; [|lia].
    destruct (read_mesh_after_header d h H)
      as [[Ho E]|(Hn & m & E & _)]; rewrite E.
    + split; [|discriminate]. split; [|reflexivity].
      intros _. right. exists h. now split.
    + split; [|discriminate]. split; [discriminate|].
      intros [C|(h' & [= <-] & C)]; [lia|contradiction].
Qed.

Lemma X20_witness :
  ShdToObj.dump_obj shd_odd = inl ShdToObj.StructError
  /\ 0x40 <= len shd_odd.
Proof.
  split; [|vm_compute; discriminate].
  destruct (X20_struct_error shd_odd) as [[_ A] _]. apply A. right.
  exists {| ShdToObj.rec := 0x44; ShdToObj.floats_ofs := 0x54;
            ShdToObj.next_ofs := 0x78; ShdToObj.vert_count := 3;
            ShdToObj.idx_start := 0x78; ShdToObj.search_end := 0x7f |}.
  split; [vm_compute; reflexivity|split; reflexivity].
Defined.

Lemma slice_sub data a b i j :
  0 <= a -> 0 <= i <= j -> a + j <= b -> b <= len data ->
  slice data (a + i) (a + j)
  = firstn (Z.to_nat (j - i)) (skipn (Z.to_nat i) (slice data a b)).
Proof.
  intros Ha Hij Hb Hn. rewrite !slice_in_range by lia.
  rewrite skipn_firstn_comm, firstn_firstn, skipn_skipn.
  f_equal; [lia|f_equal; lia].
Qed.

Lemma item_at_value (indices : list Z) t v :
  0 <= t -> nth_error indices (Z.to_nat t) = Some v ->
  ShdToObj.item_at indices t = inr v.
Proof.
  intros H0 E. unfold ShdToObj.item_at, index_of_list. cbv zeta.
  assert ((Z.to_nat t < length indices)%nat)
    by (apply nth_error_Some; congruence).
  destruct (Z.leb_spec 0 t); [|lia].
  destruct (Z.ltb_spec t (Z.of_nat (length indices))); [|lia].
  cbn [andb]. now rewrite E.
Qed.

(** The two loops behind the faces of a mesh. *)
Lemma read_mesh_faces d h m :
  ShdToObj.read_mesh d h = inr m ->
  exists indices,
    ShdToObj.for_each (fun off => ShdToObj.unpacked (ShdToObj.u16be d off))
      (ShdToObj.range3 (ShdToObj.idx_start h) (ShdToObj.search_end h) 2)
    = inr indices
    /\ ShdToObj.build_faces indices (ShdToObj.vert_count h)
         (ShdToObj.range3 0 (Z.of_nat (length indices) - 2) 3)
       = inr (ShdToObj.faces m).
Proof.
  unfold ShdToObj.read_mesh, ShdToObj.bind.
  destruct (ShdToObj.for_each _ (ShdToObj.range3 0 _ 1)) as [e|vs];
    [discriminate|].
  destruct (ShdToObj.for_each _ (ShdToObj.range3 (ShdToObj.idx_start h) _ 2))
    as [e|indices]; [discriminate|].
  destruct (ShdToObj.build_faces indices _ _) as [e|fs] eqn:E; [discriminate|].
  intros [= <-]. exists indices. split; [reflexivity|exact E].
Qed.

(** The 16-bit value read where two bytes of a known slice stand. *)
Lemma u16be_in_slice d a (known : bytes) i :
  0 <= a -> slice d a (a + len known) = known -> a + len known <= len d ->
  0 <= i -> i + 2 <= len known ->
  ShdToObj.unpacked (ShdToObj.u16be d (a + i))
  = inr (be_value (firstn 2 (skipn (Z.to_nat i) known))).
Proof.
  intros Ha Hk Hn Hi Hi2. unfold ShdToObj.u16be.
  rewrite unpack_from_inside by lia.
  destruct (Z.leb_spec (a + i + 2) (len d)); [|lia].
  replace (a + i + 2) with (a + (i + 2)) by lia.
  rewrite (slice_sub d a (a + len known) i (i + 2)) by lia.
  rewrite Hk. replace (Z.to_nat (i + 2 - i)) with 2%nat by lia. reflexivity.
Qed.

(** X21.  The index run begins with the indices 0, 1 and 2, so a mesh of
    three vertices or more always has the face (0, 1, 2) first. *)
Theorem X21_first_face d m :
  ShdToObj.dump_obj d = inr m ->
  3 <= ShdToObj.vert_count (ShdToObj.head m) ->
  exists fs, ShdToObj.faces m = (0, 1, 2) :: fs.
Proof.
  intros D Hvc. revert D. unfold ShdToObj.dump_obj, ShdToObj.bind.
  destruct (ShdToObj.read_header d) as [e|h] eqn:H; [discriminate|].
  intros M.
  assert (Hh : ShdToObj.head m = h).
  { destruct (read_mesh_after_header d h H) as [[_ E]|(_ & m' & E & Hh & _)];
      congruence. }
  rewrite Hh in *.
  destruct (read_header_spec d h H)
    as (_ & ofs_mark & _ & _ & _ & _ & _ & _ & _ & _ & _ & _
        & Hf & Hn & _ & Hse & _ & Hi0 & Hi6 & Hp).
  destruct (read_mesh_faces d h m M) as (indices & Ei & Ef).
  set (a := ShdToObj.idx_start h) in *.
  assert (Hk : slice d a (a + len ShdToObj.pat) = ShdToObj.pat) by exact Hp.
  change (len ShdToObj.pat) with 6 in Hk.
  assert (N : forall j, (j < 3)%nat ->
            nth_error (ShdToObj.range3 a (ShdToObj.search_end h) 2) j
            = Some (a + 2 * Z.of_nat j)).
  { intros j Hj. rewrite range3_nth by lia.
    destruct (Z.ltb_spec (a + 2 * Z.of_nat j) (ShdToObj.search_end h));
      [reflexivity|lia]. }
  apply for_each_inr in Ei.
  destruct (ShdToObj.range3 a (ShdToObj.search_end h) 2)
    as [|o0 [|o1 [|o2 offs]]] eqn:Eo;
    try (specialize (N 0%nat ltac:(lia)); discriminate);
    try (specialize (N 1%nat ltac:(lia)); discriminate);
    try (specialize (N 2%nat ltac:(lia)); discriminate).
  pose proof (N 0%nat ltac:(lia)) as N0. pose proof (N 1%nat ltac:(lia)) as N1.
  pose proof (N 2%nat ltac:(lia)) as N2. simpl in N0, N1, N2.
  injection N0 as ->. injection N1 as ->. injection N2 as ->.
  inversion Ei as [|? v0 ? r0 E0 Ei0]; subst.
  inversion Ei0 as [|? v1 ? r1 E1 Ei1]; subst.
  inversion Ei1 as [|? v2 ? r2 E2 Ei2]; subst.
  rewrite (u16be_in_slice d a ShdToObj.pat 0) in E0
    by (auto; try (change (len ShdToObj.pat) with 6); lia).
  rewrite (u16be_in_slice d a ShdToObj.pat 2) in E1
    by (auto; try (change (len ShdToObj.pat) with 6); lia).
  rewrite (u16be_in_slice d a ShdToObj.pat 4) in E2
    by (auto; try (change (len ShdToObj.pat) with 6); lia).
  injection E0 as <-. injection E1 as <-. injection E2 as <-.
  change (be_value [x00; x00]) with 0 in *.
  change (be_value [x00; x01]) with 1 in *.
  change (be_value [x00; x02]) with 2 in *.
  assert (T : exists ts,
            ShdToObj.range3 0 (Z.of_nat (length (0 :: 1 :: 2 :: r2)) - 2) 3
            = 0 :: ts).
  { pose proof (range3_nth 0 (Z.of_nat (length (0 :: 1 :: 2 :: r2)) - 2) 3 0
                  ltac:(lia)) as T0.
    destruct (Z.ltb_spec (0 + 3 * Z.of_nat 0)
                (Z.of_nat (length (0 :: 1 :: 2 :: r2)) - 2));
      [|simpl length in *; lia].
    destruct (ShdToObj.range3 0 _ 3) as [|t ts]; [discriminate|].
    injection T0 as ->. now exists ts. }
  destruct T as [ts T]. rewrite T in Ef.
  cbn [ShdToObj.build_faces ShdToObj.bind] in Ef.
  rewrite (item_at_value _ 0 0), (item_at_value _ (0 + 1) 1),
    (item_at_value _ (0 + 2) 2) in Ef by (try lia; reflexivity).
  cbn [ShdToObj.bind] in Ef.
  destruct (ShdToObj.build_faces _ _ ts) as [e|fs]; [discriminate|].
  cbn [ShdToObj.bind] in Ef.
  destruct (Z.ltb_spec 0 (ShdToObj.vert_count (ShdToObj.head m)));
    [|lia].
  destruct (Z.ltb_spec 1 (ShdToObj.vert_count (ShdToObj.head m)));
    [|lia].
  destruct (Z.ltb_spec 2 (ShdToObj.vert_count (ShdToObj.head m)));
    [|lia].
  cbn [andb] in Ef. injection Ef as <-. now exists fs.
Qed.

Lemma X21_witness :
  exists fs,
    ShdToObj.faces
      {| ShdToObj.head :=
           {| ShdToObj.rec := 0x44; ShdToObj.floats_ofs := 0x54;
              ShdToObj.next_ofs := 0x78; ShdToObj.vert_count := 3;
              ShdToObj.idx_start := 0x78; ShdToObj.search_end := 0x84 |};
         ShdToObj.verts :=
           [(0x3f3f3f3f, 0x3f3f3f3f, 0x3f3f3f3f);
            (0x3f3f3f3f, 0x3f3f3f3f, 0x3f3f3f3f);
            (0x3f3f3f3f, 0x3f3f3f3f, 0x3f3f3f3f)];
         ShdToObj.faces := [(0, 1, 2)] |}
    = (0, 1, 2) :: fs.
Proof.
  apply (X21_first_face shd_sample).
  - vm_compute. reflexivity.
  - vm_compute. discriminate.
Defined.



(** * Properties of [extract_blocks] *)

Section ExtractProperties.

Variable join : String.string -> String.string -> String.string.
Variable present : String.string -> bool.

(** What [extract_blocks] has written when a pass over [blocks] ends, and
    when it raises. *)
Lemma extract_loop_spec data out_dir overwrite skip_zero blocks :
  forall f files,
    BgzDump.content f = data ->
    match BgzDump.extract_loop join present out_dir overwrite skip_zero
            f files blocks with
    | inr files' =>
        exists news,
          files' = files ++ news
          /\ Forall (fun w =>
               exists b, In b blocks
                 /\ (skip_zero = true -> BgzDump.size b <> 0)
                 /\ 0 <= BgzDump.ofs b
                 /\ fst w = join out_dir (BgzDump.block_name b)
                 /\ snd w = fst (BgzDump.read
                                   {| BgzDump.content := data;
                                      BgzDump.tell := BgzDump.ofs b |}
                                   (BgzDump.size b))) news
          /\ (overwrite = false ->
              NoDup (map fst news)
              /\ Forall (fun w => BgzDump.path_exists present files (fst w)
                                  = false) news)
    | inl e =>
        e = BgzDump.SeekError
        /\ exists b, In b blocks /\ BgzDump.ofs b < 0
                     /\ (skip_zero = true -> BgzDump.size b <> 0)
    end.
Proof.
  induction blocks as [|b blocks IH]; intros f files C.
  - simpl. exists []. split; [now rewrite app_nil_r|]. split; [constructor|].
    intros _. split; constructor.
  - cbn [BgzDump.extract_loop]. unfold BgzDump.extract_step. cbv zeta.
    assert (Skip :
      match BgzDump.extract_loop join present out_dir overwrite skip_zero
              f files blocks with
      | inr files' =>
          exists news,
            files' = files ++ news
            /\ Forall (fun w =>
                 exists b0, In b0 (b :: blocks)
                   /\ (skip_zero = true -> BgzDump.size b0 <> 0)
                   /\ 0 <= BgzDump.ofs b0
                   /\ fst w = join out_dir (BgzDump.block_name b0)
                   /\ snd w = fst (BgzDump.read
                                     {| BgzDump.content := data;
                                        BgzDump.tell := BgzDump.ofs b0 |}
                                     (BgzDump.size b0))) news
            /\ (overwrite = false ->
                NoDup (map fst news)
                /\ Forall (fun w => BgzDump.path_exists present files (fst w)
                                    = false) news)
      | inl e =>
          e = BgzDump.SeekError
          /\ exists b0, In b0 (b :: blocks) /\ BgzDump.ofs b0 < 0
                        /\ (skip_zero = true -> BgzDump.size b0 <> 0)
      end).
    { specialize (IH f files C).
      destruct (BgzDump.extract_loop join present out_dir overwrite skip_zero
                  f files blocks) as [e|files'].
      - destruct IH as (He & b0 & Hb & Hr). split; [exact He|].
        exists b0. split; [now right|exact Hr].
      - destruct IH as (news & E & F & N). exists news.
        split; [exact E|]. split; [|exact N].
        eapply Forall_impl; [|exact F]. intros w (b0 & Hb & Hr).
        exists b0. split; [now right|exact Hr]. }
    destruct (skip_zero && (BgzDump.size b =? 0)) eqn:Ez; [exact Skip|].
    destruct (negb overwrite
              && BgzDump.path_exists present files
                   (join out_dir (BgzDump.block_name b))) eqn:Ex;
      [exact Skip|]. clear Skip.
    assert (Hsz : skip_zero = true -> BgzDump.size b <> 0).
    { intros ->. simpl in Ez. now apply Z.eqb_neq. }
    unfold BgzDump.seek.
    destruct (Z.ltb_spec (BgzDump.ofs b) 0) as [Hneg|Hpos].
    { split; [reflexivity|]. exists b. split; [now left|]. now split. }
    set (f1 := {| BgzDump.content := BgzDump.content f;
                  BgzDump.tell := BgzDump.ofs b |}).
    assert (R : BgzDump.read f1 (BgzDump.size b)
                = (fst (BgzDump.read {| BgzDump.content := data;
                                        BgzDump.tell := BgzDump.ofs b |}
                          (BgzDump.size b)),
                   snd (BgzDump.read f1 (BgzDump.size b)))).
    { subst f1. rewrite C. now destruct (BgzDump.read _ _). }
    rewrite R.
    set (path := join out_dir (BgzDump.block_name b)) in *.
    set (bytes_read := fst (BgzDump.read {| BgzDump.content := data;
                                           BgzDump.tell := BgzDump.ofs b |}
                              (BgzDump.size b))) in *.
    assert (C2 : BgzDump.content (snd (BgzDump.read f1 (BgzDump.size b)))
                 = data).
    { subst f1. unfold BgzDump.read. cbv zeta. simpl. exact C. }
    specialize (IH (snd (BgzDump.read f1 (BgzDump.size b)))
                  (files ++ [(path, bytes_read)]) C2).
    destruct (BgzDump.extract_loop join present out_dir overwrite skip_zero
                (snd (BgzDump.read f1 (BgzDump.size b)))
                (files ++ [(path, bytes_read)]) blocks) as [e|files'].
    + destruct IH as (He & b0 & Hb & Hr). split; [exact He|].
      exists b0. split; [now right|exact Hr].
    + destruct IH as (news & E & F & N).
      exists ((path, bytes_read) :: news).
      split; [rewrite E; now rewrite <- app_assoc|]. split.
      * constructor.
        -- exists b. split; [now left|]. repeat split; auto.
        -- eapply Forall_impl; [|exact F]. intros w (b0 & Hb & Hr).
           exists b0. split; [now right|exact Hr].
      * intros Ho. destruct (N Ho) as [Nd Fp]. subst overwrite.
        simpl in Ex. rewrite Forall_forall in Fp.
        assert (Q : forall w, In w news ->
                  BgzDump.path_exists present files (fst w) = false
                  /\ fst w <> path).
        { intros w Hw. specialize (Fp w Hw).
          unfold BgzDump.path_exists in *. rewrite existsb_app in Fp.
          apply orb_false_iff in Fp. destruct Fp as [Fp1 Fp2].
          apply orb_false_iff in Fp2. destruct Fp2 as [Fp2 Fp3].
          simpl in Fp3. apply orb_false_iff in Fp3. destruct Fp3 as [Fp3 _].
          split; [now rewrite Fp1, Fp2|].
          intros Heq. rewrite Heq, String.eqb_refl in Fp3. discriminate. }
        split.
        -- simpl. constructor; [|exact Nd].
           intros Hin. apply in_map_iff in Hin. destruct Hin as (w & Hw1 & Hw2).
           now apply (Q w Hw2).
        -- constructor; [exact Ex|]. apply Forall_forall. intros w Hw.
           now apply Q.
Qed.

End ExtractProperties.

(** X24.  [extract_blocks], with [skip_zero] on, on the blocks that
    [read_pointer_blocks] returned for the same file, raises nothing; every
    file it writes is named after a block of positive size and holds
    exactly the [size] bytes of the file from the block's offset on. *)
Theorem X24_extracted_files_are_the_blocks
  (join : String.string -> String.string -> String.string)
  (present : String.string -> bool)
  data table_offset count endian base rm blocks out_dir overwrite :
  BgzDump.read_pointer_blocks data table_offset count endian base rm
  = inr blocks ->
  exists files,
    BgzDump.extract_blocks join present data blocks out_dir overwrite true
    = inr files
    /\ Forall (fun w =>
         exists b, In b blocks /\ 0 < BgzDump.size b
           /\ fst w = join out_dir (BgzDump.block_name b)
           /\ snd w = slice data (BgzDump.ofs b)
                        (BgzDump.ofs b + BgzDump.size b)
           /\ len (snd w) = BgzDump.size b) files.
Proof.
  intros R.
  destruct (read_pointer_blocks_spec _ _ _ _ _ _ _ R) as (ptrs & _ & _ & L & Sp).
  assert (B : forall b, In b blocks ->
            BgzDump.size b = 0
            \/ (0 <= BgzDump.ofs b /\ 0 < BgzDump.size b
                /\ BgzDump.ofs b + BgzDump.size b <= len data)).
  { intros b Hb. apply In_nth_error in Hb. destruct Hb as [k Hk].
    destruct (Sp k b Hk) as (p & _ & _ & Ho & C). rewrite Ho.
    destruct C as [(_ & H0 & Hs & He & _)|(Hs & _)]; [right|left]; auto. }
  unfold BgzDump.extract_blocks.
  pose proof (extract_loop_spec join present data out_dir overwrite true blocks
                {| BgzDump.content := data; BgzDump.tell := 0 |} [] eq_refl)
    as E.
  destruct (BgzDump.extract_loop join present out_dir overwrite true _ [] blocks)
    as [e|files].
  - exfalso. destruct E as (_ & b & Hb & Hneg & Hs).
    destruct (B b Hb) as [Hz|(H0 & _)]; [now apply Hs|lia].
  - destruct E as (news & -> & F & _). exists news. split; [reflexivity|].
    simpl app. eapply Forall_impl; [|exact F].
    intros w (b & Hb & Hs & H0 & Hn & Hc). exists b.
    destruct (B b Hb) as [Hz|(_ & Hp & He)]; [now destruct (Hs eq_refl)|].
    split; [exact Hb|]. split; [exact Hp|]. split; [exact Hn|].
    assert (Hc' : snd w = slice data (BgzDump.ofs b)
                            (BgzDump.ofs b + BgzDump.size b)).
    { rewrite Hc. unfold BgzDump.read. cbv zeta. simpl.
      destruct (Z.ltb_spec (BgzDump.size b) 0); [lia|reflexivity]. }
    split; [exact Hc'|]. rewrite Hc', slice_len by lia. lia.
Qed.

Lemma bgz_skips_run :
  BgzDump.read_pointer_blocks bgz_skips 0 4 "be" 0 true = inr bgz_skips_blocks.
Proof. vm_compute. reflexivity. Qed.

Lemma X24_witness :
  BgzDump.extract_blocks slash_join (fun _ => false) bgz_skips
    bgz_skips_blocks "dump_blocks" false true
  = inr [("dump_blocks/block_0001_00000008_0000000C.bin",
          slice bgz_skips 8 20)].
Proof.
  destruct (X24_extracted_files_are_the_blocks slash_join (fun _ => false)
              bgz_skips 0 4 "be" 0 true _ "dump_blocks" false bgz_skips_run)
    as (files & E & _).
  rewrite E. f_equal. vm_compute in E. now injection E as <-.
Defined.



(** * Properties of [detect_ext] *)

Lemma holds_iff data k b : holds data k b = true <-> index data k = Some b.
Proof.
  split; [apply holds_true|]. unfold holds. intros ->.
  now apply Byte.byte_dec_lb.
Qed.

(** The test for the JPEG signature. *)
Lemma jpeg_test (b : bytes) :
  (len b >=? 3) && holds b 0 xff && holds b 1 xd8 && holds b 2 xff = true
  <-> firstn 3 b = [xff; xd8; xff].
Proof.
  rewrite !andb_true_iff, !holds_iff, Z.geb_leb, Z.leb_le. split.
  - intros [[[L H0] H1] H2].
    destruct b as [|a0 [|a1 [|a2 l]]];
      try (unfold len in L; simpl in L; lia).
    rewrite index_in_range in H0, H1, H2 by (rewrite !len_cons; pose proof (len_nonneg l); lia).
    simpl in H0, H1, H2. simpl. congruence.
  - intros H. destruct b as [|a0 [|a1 [|a2 l]]]; try discriminate.
    simpl in H. injection H as -> -> ->. pose proof (len_nonneg l).
    rewrite !index_in_range by (rewrite !len_cons; lia).
    rewrite !len_cons. repeat split; try reflexivity. lia.
Qed.

(** X23.  [detect_ext] answers "jpg" exactly for the blocks that begin with
    FF D8 FF, "shd" exactly for those that begin with the four letters
    "shd.", and "bin" for all the others; a block it calls "jpg" begins with
    the start signature the JPEG scanner requires. *)
Theorem X23_detect_ext (b : bytes) :
  (BgzDump.detect_ext b = "jpg" <-> firstn 3 b = [xff; xd8; xff])
  /\ (BgzDump.detect_ext b = "shd" <-> firstn 4 b = BgzDump.shd_sig)
  /\ (BgzDump.detect_ext b = "bin"
      <-> firstn 3 b <> [xff; xd8; xff] /\ firstn 4 b <> BgzDump.shd_sig)
  /\ (BgzDump.detect_ext b = "jpg" -> not_at_soi b 0 = false).
Proof.
  assert (X : firstn 3 b = [xff; xd8; xff] -> firstn 4 b <> BgzDump.shd_sig).
  { intros H3 H4. destruct b as [|a0 [|a1 [|a2 [|a3 l]]]]; try discriminate.
    simpl in H3, H4. injection H3 as -> _ _. discriminate. }
  assert (S0 : firstn 3 b = [xff; xd8; xff] -> not_at_soi b 0 = false).
  { intros H3. destruct b as [|a0 [|a1 [|a2 l]]]; try discriminate.
    simpl in H3. injection H3 as -> -> ->. apply not_at_soi_false.
    pose proof (len_nonneg l). rewrite !len_cons.
    split; [lia|]. split; [lia|]. rewrite slice_pair by lia. reflexivity. }
  pose proof (jpeg_test b) as J. unfold BgzDump.detect_ext.
  change (length BgzDump.shd_sig) with 4%nat.
  destruct ((len b >=? 3) && holds b 0 xff && holds b 1 xd8 && holds b 2 xff).
  - assert (H3 : firstn 3 b = [xff; xd8; xff]) by now apply J.
    pose proof (X H3) as N4.
    repeat split; auto; try discriminate; try (intros C; contradiction).
    intros [C _]. contradiction.
  - assert (N3 : firstn 3 b <> [xff; xd8; xff]).
    { intros C. apply J in C. discriminate. }
    destruct (bytes_eqb (firstn 4 b) BgzDump.shd_sig) eqn:E.
    + apply bytes_eqb_eq in E.
      repeat split; auto; try discriminate; try (intros C; contradiction).
      intros [_ C]. contradiction.
    + assert (N4 : firstn 4 b <> BgzDump.shd_sig).
      { intros C. apply bytes_eqb_eq in C. congruence. }
      repeat split; auto; try discriminate; try (intros C; contradiction).
Qed.

Lemma X23_witness :
  BgzDump.detect_ext scenario = "jpg" /\ not_at_soi scenario 0 = false.
Proof.
  destruct (X23_detect_ext scenario) as (A & _ & _ & B).
  assert (E : BgzDump.detect_ext scenario = "jpg") by (apply A; reflexivity).
  split; [exact E|exact (B E)].
Defined.
